(** * Book acquisition pipeline of [book_downloader.py]: a shallow embedding

    The development follows the Python module function by function.  Pure
    string code ([clean_title], the file-name handling of [download_book],
    [make_absolute_url], the ranking) is embedded as Rocq functions; the
    code that talks to the network and the file system ([extract_download_link],
    [download_book], [hunt_for_book], [search_and_download_book]) is embedded
    in a small state-and-exception monad over an explicit world.

    A Python [str] is a [list ascii]; a character stands for the code point
    of the same number, so the model covers the strings whose code points
    are below 256, with Python's own classification of those code points.

    Library code the module calls is embedded from the library: the three
    patterns of [re.sub] run on a backtracking matcher, [difflib]'s
    [SequenceMatcher] follows its source, [sorted] is the stable sort.  The
    similarity ratio is kept as the exact rational [2M/T]; the floating-point
    quotient Python compares orders two such ratios the same way as long as
    the titles are shorter than 2^26 characters.  Calls of the logger leave
    no trace in the model.  The [while True] loop of [hunt_for_book] runs on
    fuel, and running out of it is an outcome of its own, [Diverge].

    Requests and the file system can fail.  A request without a response, an
    error status and a stream that breaks off are answers of the world.
    [os.makedirs] and [open] raise for the paths they always refuse (the
    empty directory, a file named [.] or [..]) and whenever the world says
    that the file system refuses the path.

    Of the callers, the loop over the wish list, [manual_search] and the
    ledger of downloaded titles in [main.py] are embedded in the same monad,
    with the upload of [send_to_kindle.py] as a parameter. *)

From Stdlib Require Import List Bool Arith Lia Ascii String.
From Stdlib Require Import ZArith QArith Permutation Sorting.Sorted.
Import ListNotations.

Set Implicit Arguments.

(** ** Strings *)

Definition str := list ascii.

Coercion list_ascii_of_string : string >-> list.

Open Scope string_scope.
Open Scope list_scope.
Open Scope nat_scope.

Module Char.

Definition code (c : ascii) : nat := nat_of_ascii c.

Definition between (lo hi : nat) (c : ascii) : bool :=
  (lo <=? code c) && (code c <=? hi).

(** [str.isspace] and the [\s] of [re] agree on one character; below 256
    they hold of U+0009..U+000D, U+001C..U+0020, U+0085 and U+00A0. *)
Definition is_space (c : ascii) : bool :=
  between 9 13 c || between 28 32 c || (code c =? 133) || (code c =? 160).

(** [\d]: the decimal digits; below 256 only '0'..'9'. *)
Definition is_digit (c : ascii) : bool := between 48 57 c.

Definition is_upper_az (c : ascii) : bool := between 65 90 c.
Definition is_lower_az (c : ascii) : bool := between 97 122 c.

(** [\w]: alphanumerics and the underscore. *)
Definition is_word (c : ascii) : bool :=
  is_digit c || is_upper_az c || is_lower_az c || (code c =? 95)
  || (code c =? 170) || between 178 179 c || (code c =? 181)
  || between 185 186 c || between 188 190 c
  || between 192 214 c || between 216 246 c || between 248 255 c.

(** [str.lower] on one character: 'A'..'Z', U+00C0..U+00D6 and
    U+00D8..U+00DE move up by 32, everything else stays. *)
Definition lower (c : ascii) : ascii :=
  if is_upper_az c || between 192 214 c || between 216 222 c
  then ascii_of_nat (code c + 32) else c.

Definition eqb_nocase (a b : ascii) : bool := Ascii.eqb (lower a) (lower b).

End Char.

Module Str.

Definition lower (s : str) : str := map Char.lower s.

Fixpoint eqb (s t : str) : bool :=
  match s, t with
  | [], [] => true
  | a :: s', b :: t' => Ascii.eqb a b && eqb s' t'
  | _, _ => false
  end.

(** [t.startswith(p)] *)
Fixpoint startswith (p t : str) : bool :=
  match p, t with
  | [], _ => true
  | a :: p', b :: t' => Ascii.eqb a b && startswith p' t'
  | _ :: _, [] => false
  end.

(** [needle in hay] for two strings: [needle] occurs as a substring. *)
Fixpoint contains (needle hay : str) : bool :=
  startswith needle hay ||
  match hay with
  | [] => false
  | _ :: hay' => contains needle hay'
  end.

(** [x in xs] for a string and a list of strings. *)
Definition mem (x : str) (xs : list str) : bool := existsb (eqb x) xs.

Fixpoint drop_while (p : ascii -> bool) (s : str) : str :=
  match s with
  | [] => []
  | c :: s' => if p c then drop_while p s' else s
  end.

(** [s.strip(chars)], with the characters to strip given as a predicate. *)
Definition strip_by (p : ascii -> bool) (s : str) : str :=
  rev (drop_while p (rev (drop_while p s))).

(** [s.strip()] *)
Definition strip (s : str) : str := strip_by Char.is_space s.

(** [s.split(sep)] for a non-empty separator: the pieces between the
    occurrences of [sep], scanned from the left without overlap.  [skip]
    counts the characters of an occurrence still to be passed, [cur] holds
    the piece being read, reversed. *)
Fixpoint split_aux (sep : str) (skip : nat) (cur : str) (s : str) : list str :=
  match s with
  | [] => [rev cur]
  | c :: s' =>
      match skip with
      | S k => split_aux sep k cur s'
      | O => if startswith sep s
             then rev cur :: split_aux sep (List.length sep - 1) [] s'
             else split_aux sep 0 (c :: cur) s'
      end
  end.

Definition split (sep s : str) : list str := split_aux sep 0 [] s.

End Str.

(** ** Regular expressions, as the [re] module runs them

    The fragment covers what the module's patterns use: character sets,
    concatenation, alternation, greedy and lazy repetition of a character
    set, and the word boundary.  A pattern is run by backtracking: [run]
    lists the positions at which a match started here can end, in the order
    in which the backtracking matcher reaches them, so the match [re] reports
    is the first one.  A position is the character just before it (for the
    word boundary) together with the rest of the subject. *)

Module Re.

Inductive regex : Type :=
| Eps
| Cls (p : ascii -> bool)
| Cat (r1 r2 : regex)
| Alt (r1 r2 : regex)
| Star (p : ascii -> bool)
| LazyStar (p : ascii -> bool)
| WordB.

Definition Plus (p : ascii -> bool) : regex := Cat (Cls p) (Star p).

Definition chr (c : ascii) : regex := Cls (Ascii.eqb c).

(** a literal character under [re.IGNORECASE] *)
Definition chr_i (c : ascii) : regex := Cls (Char.eqb_nocase c).

Fixpoint lit_i (s : str) : regex :=
  match s with
  | [] => Eps
  | c :: s' => Cat (chr_i c) (lit_i s')
  end.

Definition pos : Type := option ascii * str.

Definition word_before (p : pos) : bool :=
  match fst p with Some c => Char.is_word c | None => false end.

Definition word_after (p : pos) : bool :=
  match snd p with c :: _ => Char.is_word c | [] => false end.

Fixpoint star_greedy (p : ascii -> bool) (prev : option ascii) (s : str) : list pos :=
  match s with
  | c :: s' => if p c then star_greedy p (Some c) s' ++ [(prev, s)] else [(prev, s)]
  | [] => [(prev, [])]
  end.

Fixpoint star_lazy (p : ascii -> bool) (prev : option ascii) (s : str) : list pos :=
  (prev, s) ::
  match s with
  | c :: s' => if p c then star_lazy p (Some c) s' else []
  | [] => []
  end.

Fixpoint run (r : regex) (x : pos) : list pos :=
  match r with
  | Eps => [x]
  | Cls p =>
      match snd x with
      | c :: s' => if p c then [(Some c, s')] else []
      | [] => []
      end
  | Cat r1 r2 => flat_map (run r2) (run r1 x)
  | Alt r1 r2 => run r1 x ++ run r2 x
  | Star p => star_greedy p (fst x) (snd x)
  | LazyStar p => star_lazy p (fst x) (snd x)
  | WordB => if xorb (word_before x) (word_after x) then [x] else []
  end.

(** length of the match that ends at [y] when it started at [x] *)
Definition span (x y : pos) : nat := List.length (snd x) - List.length (snd y).

(** the match found at position [x], as its length *)
Definition match_at (r : regex) (x : pos) : option nat :=
  match run r x with
  | [] => None
  | y :: _ => Some (span x y)
  end.

(** the same when an empty match is not allowed (the matcher has just
    replaced an empty match at this very position) *)
Definition match_at_nonempty (r : regex) (x : pos) : option nat :=
  match filter (fun y => negb (span x y =? 0)) (run r x) with
  | [] => None
  | y :: _ => Some (span x y)
  end.

(** [re.sub(r, repl, s)] for a replacement without group references.
    The subject is scanned from the left; [skip] counts the characters of
    the current match still to be passed. *)
Fixpoint sub_aux (r : regex) (repl : str) (skip : nat) (prev : option ascii)
         (s : str) : str :=
  match s with
  | [] => match match_at r (prev, []) with Some _ => repl | None => [] end
  | c :: s' =>
      match skip with
      | S k => sub_aux r repl k (Some c) s'
      | O =>
          match match_at r (prev, s) with
          | None => c :: sub_aux r repl 0 (Some c) s'
          | Some (S n) => repl ++ sub_aux r repl n (Some c) s'
          | Some O =>
              repl ++
              match match_at_nonempty r (prev, s) with
              | Some (S n) => repl ++ sub_aux r repl n (Some c) s'
              | _ => c :: sub_aux r repl 0 (Some c) s'
              end
          end
      end
  end.

Definition sub (r : regex) (repl s : str) : str := sub_aux r repl 0 None s.

End Re.

(** ** [clean_title] *)

Definition is_colon (c : ascii) : bool := Ascii.eqb ":" c.
Definition is_opener (c : ascii) : bool := Ascii.eqb "(" c || Ascii.eqb "[" c.
Definition is_closer (c : ascii) : bool := Ascii.eqb ")" c || Ascii.eqb "]" c.
(** [.] without [re.DOTALL]: any character but the line feed *)
Definition is_dot (c : ascii) : bool := negb (Char.code c =? 10).

(** [r'\b\d+(st|nd|rd|th)\s+edition\b'] with [re.IGNORECASE] *)
Definition edition_re : Re.regex :=
  Re.Cat Re.WordB
 (Re.Cat (Re.Plus Char.is_digit)
 (Re.Cat (Re.Alt (Re.lit_i "st") (Re.Alt (Re.lit_i "nd") (Re.Alt (Re.lit_i "rd") (Re.lit_i "th"))))
 (Re.Cat (Re.Plus Char.is_space)
 (Re.Cat (Re.lit_i "edition") Re.WordB)))).

(** [r'\s*[\(\[].*?[\)\]]'] *)
Definition bracket_re : Re.regex :=
  Re.Cat (Re.Star Char.is_space)
 (Re.Cat (Re.Cls is_opener)
 (Re.Cat (Re.LazyStar is_dot) (Re.Cls is_closer))).

(** [r'\s+'] *)
Definition spaces_re : Re.regex := Re.Plus Char.is_space.

Definition before_colon (title : str) : str := hd [] (Str.split ":" title).
Definition remove_edition (title : str) : str := Re.sub edition_re "" title.
Definition remove_brackets (title : str) : str := Re.sub bracket_re "" title.
Definition squeeze (title : str) : str := Str.strip (Re.sub spaces_re " " title).

Definition clean_title (title : str) : str :=
  let title := before_colon title in
  let title := remove_edition title in
  let title := remove_brackets title in
  squeeze title.

(** ** File names in [download_book] *)

Definition dquote : ascii := ascii_of_nat 34.

(** the characters the file-name pattern keeps: [a-zA-Z0-9.\-_ ] *)
Definition filename_char (c : ascii) : bool :=
  Char.is_lower_az c || Char.is_upper_az c || Char.is_digit c
  || Ascii.eqb "." c || Ascii.eqb "-" c || Ascii.eqb "_" c || Ascii.eqb " " c.

(** [r'[^a-zA-Z0-9.\-_ ]'] *)
Definition unsafe_re : Re.regex := Re.Cls (fun c => negb (filename_char c)).

(** [filename = re.sub(r'[^a-zA-Z0-9.\-_ ]', '_', filename)] followed by
    [filename = filename.strip()] *)
Definition sanitize_filename (filename : str) : str :=
  Str.strip (Re.sub unsafe_re "_" filename).

(** The name taken from the [Content-Disposition] header, when the header
    is there and mentions [filename=]. *)
Definition header_filename (content_disposition : option str) : option str :=
  match content_disposition with
  | Some v =>
      if Str.contains "filename=" v
      then Some (Str.strip_by (Ascii.eqb dquote) (nth 1 (Str.split "filename=" v) []))
      else None
  | None => None
  end.

(** [os.path.splitext(p)[1]] of [posixpath]: the extension starts at the
    last dot of [p], provided that dot comes after the last slash and some
    character between the slash and the dot is not a dot. *)
Fixpoint rfind (c : ascii) (i : nat) (s : str) : option nat :=
  match s with
  | [] => None
  | x :: s' =>
      match rfind c (S i) s' with
      | Some k => Some k
      | None => if Ascii.eqb c x then Some i else None
      end
  end.

Definition splitext_ext (p : str) : str :=
  match rfind "." 0 p with
  | None => []
  | Some dot =>
      let name_start := match rfind "/" 0 p with Some k => S k | None => 0 end in
      if (name_start <=? dot)
         && existsb (fun c => negb (Ascii.eqb "." c))
                    (firstn (dot - name_start) (skipn name_start p))
      then skipn dot p
      else []
  end.

(** Lines 322-344 of [download_book]: the file name under which the
    response is stored.  [url_name] is [os.path.basename(urlparse(url).path)]
    and [stamp] the decimal text of [int(time.time())]. *)
Definition resolve_filename (content_disposition : option str) (url_name stamp : str) : str :=
  let filename := header_filename content_disposition in
  let filename := match filename with
                  | Some ((_ :: _) as f) => f
                  | _ => url_name
                  end in
  let filename := match filename with
                  | [] => "book_" ++ stamp ++ ".pdf"
                  | _ => filename
                  end in
  let filename := match splitext_ext filename with
                  | [] => filename ++ ".pdf"
                  | _ => filename
                  end in
  sanitize_filename filename.

(** [os.path.join(download_dir, filename)] of [posixpath], for a file name
    that does not start with a slash (a sanitized name holds none). *)
Definition path_join (dir name : str) : str :=
  match rev dir with
  | [] => name
  | c :: _ => if Ascii.eqb "/" c then dir ++ name else dir ++ "/" ++ name
  end.

(** ** [difflib.SequenceMatcher(None, a, b).ratio()]

    The standard library's matcher, with no junk predicate and the default
    [autojunk]: characters of [b] that occur more than [len(b) // 100 + 1]
    times are set aside as popular once [b] has 200 characters or more. *)

Module Difflib.

Definition dict := list (nat * nat).

Fixpoint get (d : dict) (key default : nat) : nat :=
  match d with
  | [] => default
  | (k, v) :: d' => if k =? key then v else get d' key default
  end.

Definition set (d : dict) (key v : nat) : dict := (key, v) :: d.

Definition at_ (s : str) (i : nat) : ascii := nth i s Ascii.zero.

Fixpoint indices_from (c : ascii) (j : nat) (b : str) : list nat :=
  match b with
  | [] => []
  | x :: b' => if Ascii.eqb x c then j :: indices_from c (S j) b'
               else indices_from c (S j) b'
  end.

Section Matcher.

Variables a b : str.

(** [__chain_b] *)
Definition popular (c : ascii) : bool :=
  let n := List.length b in
  (200 <=? n) && (n / 100 + 1 <? List.length (indices_from c 0 b)).

Definition b2j (c : ascii) : list nat :=
  if popular c then [] else indices_from c 0 b.

Definition block : Type := nat * nat * nat.
Definition size (x : block) : nat := snd x.

(** the inner loop of [find_longest_match]: the occurrences [js] of
    [a[i]] in [b].  [j2lenget(j-1, 0)] is 0 at [j = 0], where the key
    is -1; [i-k+1] is written [i+1-k] to stay in the naturals. *)
Fixpoint scan_row (blo bhi i : nat) (js : list nat) (j2len newj2len : dict)
         (best : block) : dict * block :=
  match js with
  | [] => (newj2len, best)
  | j :: js' =>
      if j <? blo then scan_row blo bhi i js' j2len newj2len best
      else if bhi <=? j then (newj2len, best)
      else
        let k := (match j with O => 0 | S j1 => get j2len j1 0 end) + 1 in
        let newj2len := set newj2len j k in
        let best := if size best <? k then (i + 1 - k, j + 1 - k, k) else best in
        scan_row blo bhi i js' j2len newj2len best
  end.

(** the outer loop, over [i] in [range(alo, ahi)] *)
Fixpoint scan_rows (blo bhi : nat) (rows : list nat) (j2len : dict)
         (best : block) : block :=
  match rows with
  | [] => best
  | i :: rows' =>
      let '(newj2len, best) := scan_row blo bhi i (b2j (at_ a i)) j2len [] best in
      scan_rows blo bhi rows' newj2len best
  end.

(** the two loops that extend the best block by matching characters
    that are not junk (none is); [fuel] bounds the number of steps *)
Fixpoint extend_left (fuel alo blo : nat) (x : block) : block :=
  match fuel with
  | O => x
  | S fuel' =>
      let '(besti, bestj, bestsize) := x in
      if (alo <? besti) && (blo <? bestj)
         && Ascii.eqb (at_ a (besti - 1)) (at_ b (bestj - 1))
      then extend_left fuel' alo blo (besti - 1, bestj - 1, bestsize + 1)
      else x
  end.

Fixpoint extend_right (fuel ahi bhi : nat) (x : block) : block :=
  match fuel with
  | O => x
  | S fuel' =>
      let '(besti, bestj, bestsize) := x in
      if (besti + bestsize <? ahi) && (bestj + bestsize <? bhi)
         && Ascii.eqb (at_ a (besti + bestsize)) (at_ b (bestj + bestsize))
      then extend_right fuel' ahi bhi (besti, bestj, bestsize + 1)
      else x
  end.

(** [find_longest_match(alo, ahi, blo, bhi)]; the last two loops of the
    library extend by junk only and do nothing here *)
Definition find_longest_match (alo ahi blo bhi : nat) : block :=
  let best := scan_rows blo bhi (seq alo (ahi - alo)) [] (alo, blo, 0) in
  let best := extend_left (fst (fst best)) alo blo best in
  extend_right ahi ahi bhi best.

(** the sum of the sizes of [get_matching_blocks()]: the longest match
    of the window, then the windows left and right of it *)
Fixpoint matched (fuel alo ahi blo bhi : nat) : nat :=
  match fuel with
  | O => 0
  | S fuel' =>
      let '(i, j, k) := find_longest_match alo ahi blo bhi in
      if k =? 0 then 0
      else k
           + (if (alo <? i) && (blo <? j) then matched fuel' alo i blo j else 0)
           + (if (i + k <? ahi) && (j + k <? bhi)
              then matched fuel' (i + k) ahi (j + k) bhi else 0)
  end.

Definition matches : nat :=
  matched (S (List.length a)) 0 (List.length a) 0 (List.length b).

(** [_calculate_ratio(matches, len(a) + len(b))], as an exact rational *)
Definition ratio : Q :=
  match (List.length a + List.length b)%nat with
  | O => 1%Q
  | (S _) as t => (Z.of_nat (2 * matches)%nat # Pos.of_nat t)%Q
  end.

End Matcher.

End Difflib.

(** ** Ranking *)

Definition closest_match (real_title candidate_title : str) : Q :=
  Difflib.ratio (Str.lower real_title) (Str.lower candidate_title).

(** [sorted(xs, key=key)]: the stable sort by ascending key; an element is
    put in front of the first one whose key is not smaller than its own. *)
Section Sorted.
Variable A : Type.
Variable key : A -> Q.

Definition key_lt (x y : A) : bool := negb (Qle_bool (key y) (key x)).

Fixpoint insert_sorted (x : A) (l : list A) : list A :=
  match l with
  | [] => [x]
  | y :: l' => if key_lt y x then y :: insert_sorted x l' else x :: l
  end.

Definition sorted (l : list A) : list A := fold_right insert_sorted [] l.
End Sorted.

Definition rank_key (real_title : str) (title_of : str) : Q :=
  (- closest_match real_title title_of)%Q.

(** ** Parsed pages

    What [BeautifulSoup] hands to the module, reduced to the parts the
    module reads: the anchors of a page and the cells of the result table. *)

Record anchor : Type := {
  a_href : option str;      (* the [href] attribute, when the tag has one *)
  a_string : option str     (* [.string] *)
}.

Record td : Type := {
  td_text : str;            (* [get_text(strip=True)] *)
  td_bold : option str;     (* the text of the first [<b>] inside, if any *)
  td_link : option str;     (* the text of the first [<a>] inside, if any *)
  td_anchors : list anchor  (* every [<a>] inside, in document order *)
}.

Record document : Type := {
  doc_table : option (list (list td));  (* [#tablelibgen]: its [tr]s, each with its [td]s *)
  doc_anchors : list anchor             (* every [<a>] of the page *)
}.

Definition empty_td : td :=
  {| td_text := []; td_bold := None; td_link := None; td_anchors := [] |}.

(** one entry of [all_results] *)
Record result : Type := {
  title : str;
  author : str;
  publisher : str;
  year : str;
  language : str;
  pages : str;
  size : str;
  file_format : str;
  mirrors : td
}.

(** the body of the row loop of [hunt_for_book], lines 112-159 *)
Definition parse_row (cells : list td) : option result :=
  if List.length cells <? 9 then None
  else
    let cell i := nth i cells empty_td in
    Some {| title := match td_bold (cell 0) with
                     | Some t => t
                     | None => match td_link (cell 0) with
                               | Some t => t
                               | None => "Unknown Title"
                               end
                     end;
            author := td_text (cell 1);
            publisher := td_text (cell 2);
            year := td_text (cell 3);
            language := td_text (cell 4);
            pages := td_text (cell 5);
            size := td_text (cell 6);
            file_format := Str.lower (td_text (cell 7));
            mirrors := cell 8 |}.

Fixpoint parse_rows (rows : list (list td)) : list result :=
  match rows with
  | [] => []
  | cells :: rows' =>
      match parse_row cells with
      | Some r => r :: parse_rows rows'
      | None => parse_rows rows'
      end
  end.

(** [all_results] of a parsed search page; no table, or a table without
    rows, makes [hunt_for_book] return early with nothing to rank *)
Definition all_results (d : document) : list result :=
  match doc_table d with
  | None => []
  | Some rows => parse_rows rows
  end.

Definition order_results_by_closest_match (real_title : str) (results : list result)
  : list result :=
  sorted (fun x => rank_key real_title (title x)) results.

(** ** Format selection, lines 167-196 of [hunt_for_book] *)

(** the first scan: [result['file_format'] in preferred_formats] *)
Definition have_desired_format (sorted_results : list result) (preferred_formats : list str)
  : bool :=
  existsb (fun r => Str.mem (file_format r) preferred_formats) sorted_results.

(** the test inside the row loop: [preferred_format.lower() in file_format]
    for some preferred format *)
Definition found_format (preferred_formats : list str) (r : result) : bool :=
  existsb (fun p => Str.contains (Str.lower p) (file_format r)) preferred_formats.

(** the rows the loop does not [continue] past *)
Definition skipped (have : bool) (preferred_formats : list str) (r : result) : bool :=
  have && negb (found_format preferred_formats r).

Definition format_selector (sorted_results : list result) (preferred_formats : list str)
  : list result :=
  let have := have_desired_format sorted_results preferred_formats in
  filter (fun r => negb (skipped have preferred_formats r)) sorted_results.

(** ** URLs *)

Definition LIBGEN_BASE_URL : str := "https://libgen.li".

Definition make_absolute_url (url : str) : str :=
  if Str.startswith "http" url then url
  else if Str.startswith "/" url then LIBGEN_BASE_URL ++ url
  else LIBGEN_BASE_URL ++ "/" ++ url.

Definition hex_digit (n : nat) : ascii :=
  if n <? 10 then ascii_of_nat (48 + n) else ascii_of_nat (55 + n).

Definition percent (byte : nat) : str :=
  ["%"%char; hex_digit (byte / 16); hex_digit (byte mod 16)].

(** [urllib.parse.quote(s)]: letters, digits and [_.-~/] stay, every other
    character is replaced by the escaped bytes of its UTF-8 encoding *)
Definition quote_char (c : ascii) : str :=
  let n := Char.code c in
  if Char.is_lower_az c || Char.is_upper_az c || Char.is_digit c
     || Ascii.eqb "_" c || Ascii.eqb "." c || Ascii.eqb "-" c
     || Ascii.eqb "~" c || Ascii.eqb "/" c
  then [c]
  else if n <? 128 then percent n
  else percent (192 + n / 64) ++ percent (128 + n mod 64).

Definition quote (s : str) : str := flat_map quote_char s.

Definition get_search_url (search_query : str) : str :=
  LIBGEN_BASE_URL ++ "/index.php?req=" ++ quote search_query ++
  "&columns%5B%5D=t&columns%5B%5D=a&columns%5B%5D=s&columns%5B%5D=y&columns%5B%5D=p&columns%5B%5D=i&objects%5B%5D=f&objects%5B%5D=e&objects%5B%5D=s&objects%5B%5D=a&objects%5B%5D=p&objects%5B%5D=w&topics%5B%5D=l&topics%5B%5D=c&topics%5B%5D=f&topics%5B%5D=a&topics%5B%5D=m&topics%5B%5D=r&topics%5B%5D=s&res=100&filesuns=all".

(** ** The world: network, clock and file system *)

Record request : Type := {
  req_url : str;
  req_headers : bool;    (* sent with [headers=HEADERS] *)
  req_stream : bool      (* sent with [stream=True] *)
}.

Record response : Type := {
  status : nat;                        (* HTTP status code *)
  content_disposition : option str;    (* the [Content-Disposition] header *)
  soup : document;                     (* the body, as [BeautifulSoup] parses it *)
  chunks : list str;                   (* the body, as [iter_content] yields it *)
  breaks : bool                        (* the stream fails after the last chunk *)
}.

(** The outside of the program.  The answer to a request may depend on how
    many requests came before it; [None] is a request that fails without a
    response (no connection, time-out).  The file system may refuse a
    directory or a file (no permission, no space, a name that is taken), and
    that too may change with time. *)
Record World : Type := {
  reply : nat -> request -> option response;
  url_basename : str -> str;       (* [os.path.basename(urlparse(url).path)] *)
  time_stamp : nat -> str;         (* the decimal text of [int(time.time())] *)
  can_mkdir : nat -> str -> bool;  (* [os.makedirs] gets the path *)
  can_open : nat -> str -> bool    (* [open] gets the path, for writing *)
}.

Inductive exn : Type :=
| HTTPError (code : nat)       (* [raise_for_status] *)
| RequestException             (* [requests.get] without a response *)
| StreamError                  (* [iter_content] failing in mid-stream *)
| AttributeError               (* [None.startswith] *)
| OSError.                     (* [os.makedirs] or [open] refused: [FileNotFoundError],
                                  [IsADirectoryError], [PermissionError], ... *)

Inductive event : Type :=
| Mkdir (path : str)                    (* [os.makedirs(path, exist_ok=True)] *)
| Get (r : request)                     (* [requests.get] *)
| Dump (path : str)                     (* a parsed page written to [path] *)
| Save (resp : response) (path : str)   (* [path] opened to receive the body of [resp] *)
| Sleep.                                (* [time.sleep(1)] *)

Record state : Type := {
  clock : nat;          (* number of requests sent so far *)
  dirs : list str;      (* directories that exist, oldest first *)
  files : list str      (* files written, oldest first *)
}.

Inductive outcome (A : Type) : Type :=
| Ret (a : A)
| Raise (e : exn)
| Diverge.              (* a loop that has not ended within the fuel given *)

Arguments Ret {A} a.
Arguments Raise {A} e.
Arguments Diverge {A}.

(** A run ends with an outcome and a state, and leaves a trace of what
    it did, oldest event first. *)
Record run (A : Type) : Type := Run {
  out : outcome A;
  st : state;
  tr : list event
}.

Arguments Run {A} out st tr.

Definition M (A : Type) : Type := World -> state -> run A.

Definition ret {A} (a : A) : M A := fun _ s => Run (Ret a) s [].
Definition raise {A} (e : exn) : M A := fun _ s => Run (Raise e) s [].
Definition diverge {A} : M A := fun _ s => Run Diverge s [].

Definition bind {A B} (m : M A) (k : A -> M B) : M B :=
  fun w s =>
    let r := m w s in
    match out r with
    | Ret a => let r' := k a w (st r) in Run (out r') (st r') (tr r ++ tr r')
    | Raise e => Run (Raise e) (st r) (tr r)
    | Diverge => Run Diverge (st r) (tr r)
    end.

(** [try: ... except Exception: ...] *)
Definition try {A} (m : M A) : M (A + exn) :=
  fun w s =>
    let r := m w s in
    match out r with
    | Ret a => Run (Ret (inl a)) (st r) (tr r)
    | Raise e => Run (Ret (inr e)) (st r) (tr r)
    | Diverge => Run Diverge (st r) (tr r)
    end.

Declare Scope monad_scope.
Delimit Scope monad_scope with monad.
Notation "x <- m ;; k" := (bind m (fun x => k))
  (at level 61, m at next level, right associativity) : monad_scope.
Notation "m ;;; k" := (bind m (fun _ => k))
  (at level 61, right associativity) : monad_scope.
Open Scope monad_scope.

(** a path joins those present, unless it is among them already *)
Definition add_path (path : str) (l : list str) : list str :=
  if Str.mem path l then l else l ++ [path].

(** [os.makedirs(path, exist_ok=True)]: the empty path is refused
    always ([FileNotFoundError]), any other when the file system says so *)
Definition makedirs (path : str) : M unit :=
  fun w s =>
    match path with
    | [] => Run (Raise OSError) s []
    | _ :: _ =>
        if can_mkdir w (clock s) path
        then Run (Ret tt) {| clock := clock s; dirs := add_path path (dirs s); files := files s |}
                 [Mkdir path]
        else Run (Raise OSError) s []
    end.

Definition requests_get (r : request) : M response :=
  fun w s =>
    let s' := {| clock := S (clock s); dirs := dirs s; files := files s |} in
    match reply w (clock s) r with
    | Some resp => Run (Ret resp) s' [Get r]
    | None => Run (Raise RequestException) s' [Get r]
    end.

(** [response.raise_for_status()]: an error for the codes 400 to 599 *)
Definition failed (resp : response) : bool :=
  (400 <=? status resp) && (status resp <? 600).

Definition raise_for_status (resp : response) : M unit :=
  if failed resp then raise (HTTPError (status resp)) else ret tt.

Definition wrote (path : str) (s : state) : state :=
  {| clock := clock s; dirs := dirs s; files := add_path path (files s) |}.

(** what follows the last slash of a path *)
Definition last_component (path : str) : str :=
  match rfind "/" 0 path with
  | Some k => skipn (S k) path
  | None => path
  end.

(** a path that can only be a directory: it ends with a slash, with [.]
    or with [..] *)
Definition names_directory (path : str) : bool :=
  let name := last_component path in
  Str.eqb name [] || Str.eqb name "." || Str.eqb name "..".

(** [open(path, 'w')] and [open(path, 'wb')] succeed: the path does not
    name a directory ([IsADirectoryError]) and the file system lets the
    program have the file *)
Definition opens (path : str) (w : World) (s : state) : bool :=
  negb (names_directory path) && can_open w (clock s) path.

(** [with open(path, 'w', encoding='utf-8') as f: f.write(soup.prettify())] *)
Definition dump_page (path : str) : M unit :=
  fun w s =>
    if opens path w s then Run (Ret tt) (wrote path s) [Dump path]
    else Run (Raise OSError) s [].

(** [with open(filepath, 'wb') as f:] and the loop over
    [response.iter_content]: the file is created, then the chunks are
    written until the stream ends or fails *)
Definition save_body (resp : response) (path : str) : M unit :=
  fun w s =>
    if opens path w s
    then Run (if breaks resp then Raise StreamError else Ret tt) (wrote path s)
             [Save resp path]
    else Run (Raise OSError) s [].

Definition time_sleep : M unit := fun _ s => Run (Ret tt) s [Sleep].

Definition the_time : M str := fun w s => Run (Ret (time_stamp w (clock s))) s [].
Definition basename_of (url : str) : M str := fun w s => Run (Ret (url_basename w url)) s [].

Definition debug_dir : str := "static/debug".

(** the four lines that save a parsed page for debugging *)
Definition save_debug (name : str) : M unit :=
  makedirs debug_dir ;;; dump_page (path_join debug_dir name).

(** ** The three kinds of request *)

(** the request [extract_download_link] sends for a mirror page, and the
    one [download_book] sends for the file *)
Definition mirror_request (href : str) : request :=
  {| req_url := make_absolute_url href; req_headers := false; req_stream := false |}.

Definition download_request (book_url : str) : request :=
  {| req_url := book_url; req_headers := true; req_stream := true |}.

Definition search_request (search_query : str) : request :=
  {| req_url := get_search_url search_query; req_headers := true; req_stream := false |}.

(** ** [extract_download_link] *)

(** [mirrors_cell.find_all('a', href=True)] *)
Definition links_of (mirrors_cell : td) : list anchor :=
  filter (fun l => match a_href l with Some _ => true | None => false end)
         (td_anchors mirrors_cell).

(** [soup.find('a', string='GET')] *)
Definition find_get (d : document) : option anchor :=
  find (fun l => match a_string l with Some t => Str.eqb t "GET" | None => false end)
       (doc_anchors d).

(** The recursion on [cursor]; [fuel] bounds its depth. *)
Fixpoint extract_from (fuel : nat) (links : list anchor) (cursor : nat) : M (option str) :=
  match fuel with
  | O => diverge
  | S fuel' =>
      match links with
      | [] => ret None
      | _ :: _ =>
          if List.length links <=? cursor then ret None
          else
            match nth_error links cursor with
            | Some {| a_href := Some ((_ :: _) as mirror_url) |} =>
                response <- requests_get (mirror_request mirror_url) ;;
                raise_for_status response ;;;
                save_debug "mirror_response.html" ;;;
                match find_get (soup response) with
                | None => extract_from fuel' links (cursor + 1)
                | Some download_element =>
                    match a_href download_element with
                    | None => raise AttributeError
                    | Some download_link => ret (Some (make_absolute_url download_link))
                    end
                end
            | _ => extract_from fuel' links (cursor + 1)
            end
      end
  end.

Definition extract_download_link (mirrors_cell : td) (cursor : nat) : M (option str) :=
  let links := links_of mirrors_cell in
  extract_from (S (List.length links - cursor)) links cursor.

(** ** [download_book] *)

Definition download_book (book_url download_dir : str) : M str :=
  makedirs download_dir ;;;
  response <- requests_get (download_request book_url) ;;
  raise_for_status response ;;;
  url_name <- basename_of book_url ;;
  stamp <- the_time ;;
  let filename := resolve_filename (content_disposition response) url_name stamp in
  let filepath := path_join download_dir filename in
  save_body response filepath ;;;
  ret filepath.

(** ** [hunt_for_book] *)

(** the dictionary [hunt_for_book] returns *)
Record acquisition : Type := {
  acq_title : str;
  acq_author : str;
  acq_format : str;
  acq_size : str;
  download_url : str;
  download_result : str
}.

(** the [while True] loop of one row, lines 199-219; [fuel] bounds the
    number of times its body runs *)
Fixpoint mirror_walk (fuel : nat) (download_dir : str) (r : result) : M (option acquisition) :=
  match fuel with
  | O => diverge
  | S fuel' =>
      download_link <- extract_download_link (mirrors r) 0 ;;
      match download_link with
      | None => ret None
      | Some link =>
          attempt <- try (download_book link download_dir) ;;
          match attempt with
          | inr _ => mirror_walk fuel' download_dir r
          | inl path =>
              ret (Some {| acq_title := title r; acq_author := author r;
                           acq_format := file_format r; acq_size := size r;
                           download_url := link; download_result := path |})
          end
      end
  end.

(** the loop over the ranked rows, lines 176-219 *)
Fixpoint for_rows (fuel : nat) (download_dir : str) (have : bool)
         (preferred_formats : list str) (rows : list result) : M (option acquisition) :=
  match rows with
  | [] => ret None
  | r :: rows' =>
      if skipped have preferred_formats r
      then for_rows fuel download_dir have preferred_formats rows'
      else
        found <- mirror_walk fuel download_dir r ;;
        match found with
        | Some a => ret (Some a)
        | None => for_rows fuel download_dir have preferred_formats rows'
        end
  end.

Definition hunt_for_book (fuel : nat) (search_query : str) (preferred_formats : list str)
           (download_dir : str) (original_title : str) : M (option acquisition) :=
  response <- requests_get (search_request search_query) ;;
  raise_for_status response ;;;
  save_debug "libgen_response.html" ;;;
  let real_title := match original_title with [] => search_query | _ => original_title end in
  let sorted_results := order_results_by_closest_match real_title (all_results (soup response)) in
  let have := have_desired_format sorted_results preferred_formats in
  for_rows fuel download_dir have preferred_formats sorted_results.

(** ** [search_and_download_book] *)

(** lines 41-50: the queries to try, in order; an absent author or ISBN is
    the empty string *)
Definition search_queries (title author isbn : str) : list str :=
  (match isbn with [] => [] | _ => [isbn] end)
  ++ (match title, author with
      | _ :: _, _ :: _ => [Str.strip (title ++ " " ++ author)]
      | _, _ => []
      end)
  ++ [title]
  ++ [clean_title title ++ " " ++ author]
  ++ [clean_title title].

(** the loop over the queries, lines 52-55 *)
Fixpoint try_queries (fuel : nat) (preferred_formats : list str) (download_dir title : str)
         (queries : list str) : M (option acquisition) :=
  match queries with
  | [] => ret None
  | search_query :: queries' =>
      found <- hunt_for_book fuel search_query preferred_formats download_dir title ;;
      match found with
      | Some a => ret (Some a)
      | None =>
          time_sleep ;;; try_queries fuel preferred_formats download_dir title queries'
      end
  end.

Definition search_and_download_book (fuel : nat) (title author isbn download_dir : str)
           (preferred_formats : list str) : M (option acquisition) :=
  makedirs download_dir ;;;
  try_queries fuel preferred_formats download_dir title (search_queries title author isbn).

Definition initial : state := {| clock := 0; dirs := []; files := [] |}.

(** the requests among some events, in order *)
Definition requests_in (l : list event) : list request :=
  flat_map (fun e => match e with Get r => [r] | _ => [] end) l.

(** ** Inputs used in the examples below *)

Module Sample.

Definition link (href : str) : anchor := {| a_href := Some href; a_string := None |}.

Definition get_link (href : str) : anchor :=
  {| a_href := Some href; a_string := Some (list_ascii_of_string "GET") |}.

Definition text (t : str) : td :=
  {| td_text := t; td_bold := None; td_link := None; td_anchors := [] |}.

Definition mirrors_cell (links : list anchor) : td :=
  {| td_text := []; td_bold := None; td_link := None; td_anchors := links |}.

(** a row of the result table, with its nine cells *)
Definition table_row (title_text author_text fmt : str) (links : list anchor) : list td :=
  [ {| td_text := title_text; td_bold := Some title_text; td_link := None; td_anchors := [] |};
    text author_text; text "Publisher"; text "2020"; text "English"; text "300";
    text "1 MB"; text fmt; mirrors_cell links ].

Definition row (title_text fmt : str) (links : list anchor) : result :=
  {| title := title_text; author := "Author"; publisher := "Publisher"; year := "2020";
     language := "English"; pages := "300"; size := "1 MB"; file_format := fmt;
     mirrors := mirrors_cell links |}.

Definition page (anchors : list anchor) : document :=
  {| doc_table := None; doc_anchors := anchors |}.

Definition results_page (rows : list (list td)) : document :=
  {| doc_table := Some rows; doc_anchors := [] |}.

Definition answer (code : nat) (d : document) : response :=
  {| status := code; content_disposition := None; soup := d; chunks := []; breaks := false |}.

Definition book_file (fails : bool) : response :=
  {| status := 200; content_disposition := None; soup := page [];
     chunks := [list_ascii_of_string "data"]; breaks := fails |}.

(** a world with the given answers and a file system that refuses nothing *)
Definition world_of (answers : nat -> request -> option response) : World :=
  {| reply := answers; url_basename := fun _ => "book.epub"; time_stamp := fun _ => "0";
     can_mkdir := fun _ _ => true; can_open := fun _ _ => true |}.

Definition is_url (u : str) (r : request) : bool := Str.eqb (req_url r) u.

(** every search is answered with status 404 *)
Definition not_found : World := world_of (fun _ _ => Some (answer 404 (page []))).

(** every search is answered with a page without a result table *)
Definition no_results : World := world_of (fun _ _ => Some (answer 200 (page []))).

(** One result with two mirrors.  Both mirror pages carry a GET link;
    the file behind the first always answers 500, the file behind the
    second is served. *)
Definition first_mirror_down : World :=
  world_of (fun _ r =>
    if is_url (make_absolute_url "/m0") r then Some (answer 200 (page [get_link "/get0"]))
    else if is_url (make_absolute_url "/m1") r then Some (answer 200 (page [get_link "/get1"]))
    else if is_url (make_absolute_url "/get0") r then Some (answer 500 (page []))
    else if is_url (make_absolute_url "/get1") r then Some (book_file false)
    else Some (answer 200 (results_page
                [table_row "Art of the Start" "Guy Kawasaki" "epub" [link "/m0"; link "/m1"]]))).

Definition two_mirrors : result := row "Art of the Start" "epub" [link "/m0"; link "/m1"].



Definition three_mirrors : td := mirrors_cell [link "/m0"; link "/m1"; link "/m2"].

End Sample.

Unset Implicit Arguments.

(** ** Notions used in the statements and proofs below *)

Definition starts_clear (p : ascii -> bool) (s : str) : Prop :=
  match s with [] => True | c :: _ => p c = false end.

(** what [re.sub(r'\s+', ' ', s)] computes; [in_run] tells that the
    character before was white space *)
Fixpoint collapse (in_run : bool) (s : str) : str :=
  match s with
  | [] => []
  | c :: s' =>
      if Char.is_space c
      then if in_run then collapse true s' else " "%char :: collapse true s'
      else c :: collapse false s'
  end.

Definition lead (p : ascii -> bool) (s : str) : nat :=
  List.length s - List.length (Str.drop_while p s).

Fixpoint single_spaced (after_space : bool) (s : str) : bool :=
  match s with
  | [] => true
  | c :: s' =>
      if Char.is_space c
      then Ascii.eqb " " c && negb after_space && single_spaced true s'
      else single_spaced false s'
  end.

Definition underscore_unsafe (c : ascii) : ascii := if filename_char c then c else "_"%char.

Definition tick (s : state) : state :=
  {| clock := S (clock s); dirs := dirs s; files := files s |}.

(** the state after a page has been fetched and saved under [name] *)
Definition after_page (name : str) (s : state) : state :=
  {| clock := S (clock s); dirs := add_path debug_dir (dirs s);
     files := add_path (path_join debug_dir name) (files s) |}.

Definition after_mkdir (dir : str) (s : state) : state :=
  {| clock := clock s; dirs := add_path dir (dirs s); files := files s |}.

Definition page_events (r : request) (name : str) : list event :=
  [Get r; Mkdir debug_dir; Dump (path_join debug_dir name)].

(** the file system never refuses the debug page [name] *)
Definition saves_page (w : World) (name : str) : Prop :=
  names_directory (path_join debug_dir name) = false
  /\ forall n : nat, can_mkdir w n debug_dir = true
                     /\ can_open w n (path_join debug_dir name) = true.

Definition finds_nothing (w : World) (q : str) : Prop :=
  forall n : nat, exists resp,
    reply w n (search_request q) = Some resp
    /\ failed resp = false /\ all_results (soup resp) = [].

Definition retry_events : list event :=
  page_events (mirror_request "/m0") "mirror_response.html"
  ++ [Mkdir "downloads"; Get (download_request (make_absolute_url "/get0"))].

Definition after_retry (s : state) : state :=
  tick (after_mkdir "downloads" (after_page "mirror_response.html" s)).

Definition keeps_dirs {A} (m : M A) : Prop :=
  forall (w : World) (s : state) (d : str), In d (dirs s) -> In d (dirs (st (m w s))).

Definition broken_save (e : event) : Prop :=
  match e with Save resp _ => breaks resp = true | _ => True end.

Definition safe {A} (success : A -> Prop) (m : M A) : Prop :=
  forall (w : World) (s : state),
    (forall a, out (m w s) = Ret a -> ~ success a) ->
    Forall broken_save (tr (m w s)).

Definition never {A} (a : A) : Prop := False.


Definition ascending {A : Type} (key : A -> Q) : list A -> Prop :=
  StronglySorted (fun x y => (key x <= key y)%Q).

Definition blk_i (x : Difflib.block) : nat := fst (fst x).
Definition blk_j (x : Difflib.block) : nat := snd (fst x).

Definition within (alo ahi blo bhi : nat) (x : Difflib.block) : Prop :=
  alo <= blk_i x /\ blk_i x + Difflib.size x <= ahi
  /\ blo <= blk_j x /\ blk_j x + Difflib.size x <= bhi.

(** what [j2lenget(j-1, 0)] reads *)
Definition before (d : Difflib.dict) (j : nat) : nat :=
  match j with O => 0 | S j1 => Difflib.get d j1 0 end.

(** the lengths kept for one row fit the part of the window seen so far *)
Definition fits (alo blo i : nat) (d : Difflib.dict) : Prop :=
  forall j, before d j <= i - alo /\ before d j <= j - blo.

(** the number of characters that are not popular, counted back from
    position [t] (not included) to the nearest popular one *)
Fixpoint clear_run (x : str) (t : nat) : nat :=
  match t with
  | O => 0
  | S t' => if Difflib.popular x (Difflib.at_ x t') then 0 else S (clear_run x t')
  end.

Definition diagonal (best : Difflib.block) : Prop := blk_i best = blk_j best.

Definition covers (x : str) (i : nat) (best : Difflib.block) : Prop :=
  forall t, t <= i -> clear_run x t <= Difflib.size best.

Definition row_fits (x : str) (i : nat) (d : Difflib.dict) : Prop :=
  forall c, Difflib.get d c 0 <= clear_run x i /\ Difflib.get d c 0 <= clear_run x (S c).

Definition score (real_title : str) (r : result) : Q := closest_match real_title (title r).

Definition top (real_title : str) (r : result) : bool := Qeq_bool (score real_title r) 1.

(** ** The ledger and the batch loop of [main.py] *)

(** where [str.splitlines] breaks a line: line feed, vertical tab, form
    feed, carriage return, the three separators U+001C..U+001E and U+0085 *)
Definition is_linebreak (c : ascii) : bool :=
  Char.between 10 13 c || Char.between 28 30 c || (Char.code c =? 133).

(** [s.splitlines()]; a carriage return followed by a line feed breaks
    the line once; [cur] holds the line being read, reversed *)
Fixpoint splitlines_aux (cur : str) (s : str) : list str :=
  match s with
  | [] => match cur with [] => [] | _ :: _ => [rev cur] end
  | c :: s' =>
      if Char.code c =? 13 then
        match s' with
        | d :: s'' =>
            if Char.code d =? 10 then rev cur :: splitlines_aux [] s''
            else rev cur :: splitlines_aux [] s'
        | [] => [rev cur]
        end
      else if is_linebreak c then rev cur :: splitlines_aux [] s'
      else splitlines_aux (c :: cur) s'
  end.

Definition splitlines (s : str) : list str := splitlines_aux [] s.

(** one entry of the wish list, as [get_wishlist_books] builds it; an
    ISBN of [None] is the empty string here, which the list of queries
    treats alike *)
Record book : Type := {
  book_title : str;
  book_author : str;
  book_isbn : str
}.

(** The file [already_downloaded.txt]: its text, or [None] while the
    file does not exist. *)
Definition ledger : Type := option str.

Definition ledger_text (f : ledger) : str :=
  match f with Some text => text | None => [] end.

(** [get_already_downloaded()]: the titles on record, and the file as the
    call leaves it (a missing file is created empty).  The set the call
    returns is the list of the lines here; the program only asks whether a
    title is among them. *)
Definition get_already_downloaded (f : ledger) : list str * ledger :=
  match f with
  | None => ([], Some [])
  | Some text => (splitlines text, Some text)
  end.

(** what [save_already_downloaded(book)] makes of the file, for a book
    or a bare title *)
Definition save_already_downloaded (b : book + str) (f : ledger) : ledger :=
  let line := match b with inl bk => book_title bk | inr t => t end in
  Some (ledger_text f ++ line ++ [ascii_of_nat 10]).

(** the path of the ledger, [os.path.join(DOWNLOAD_DIR, "already_downloaded.txt")];
    [DOWNLOAD_DIR] is the directory [downloads] beside the module, written
    here without the directory of the module in front *)
Definition ALREADY_DOWNLOADED_FILE : str := path_join "downloads" "already_downloaded.txt".

(** [save_already_downloaded(book)] as a step of the program: the file
    is opened for appending, which the file system may refuse *)
Definition append_already_downloaded (b : book + str) (f : ledger) : M ledger :=
  fun w s =>
    if opens ALREADY_DOWNLOADED_FILE w s
    then Run (Ret (save_already_downloaded b f)) s []
    else Run (Raise OSError) s [].

(** the counters and the ledger the loop of [main] works on *)
Record tally : Type := {
  successful_books : nat;
  failed_books : nat;
  already_downloaded_file : ledger
}.

Definition one_failed (t : tally) : tally :=
  {| successful_books := successful_books t; failed_books := failed_books t + 1;
     already_downloaded_file := already_downloaded_file t |}.

(** [successful_books += 1], line 75 *)
Definition one_successful (t : tally) : tally :=
  {| successful_books := successful_books t + 1; failed_books := failed_books t;
     already_downloaded_file := already_downloaded_file t |}.

Definition with_ledger (f : ledger) (t : tally) : tally :=
  {| successful_books := successful_books t; failed_books := failed_books t;
     already_downloaded_file := f |}.

(** The body of the loop over the books in [main], lines 53-89.
    [send_epub_to_kindle] is the uploader of [send_to_kindle.py], taken as
    it comes; with no phone number configured, as in [config.py], the
    messages of [com.send] go to the logger only.  The counters are variables
    of [main]: when [save_already_downloaded] raises at line 77, the handler
    of line 84 finds [successful_books] incremented already, which is why the
    last step has a [try] of its own here. *)
Definition process_book (fuel : nat) (send_epub_to_kindle : str -> M bool)
           (already_downloaded : list str) (b : book) (t : tally) : M tally :=
  if Str.mem (book_title b) already_downloaded then ret t
  else
    attempt <- try (
      found <- search_and_download_book fuel (book_title b) (book_author b) (book_isbn b)
                                        "downloads" ["epub" : str] ;;
      match found with
      | None => ret (one_failed t)
      | Some a =>
          res <- send_epub_to_kindle (download_result a) ;;
          if res then
            let t1 := one_successful t in
            saved <- try (append_already_downloaded (inr (book_title b))
                                                    (already_downloaded_file t1)) ;;
            match saved with
            | inl f => ret (with_ledger f t1)
            | inr _ => ret (one_failed t1)
            end
          else ret (one_failed t)
      end) ;;
    match attempt with
    | inl t' => ret t'
    | inr _ => ret (one_failed t)
    end.

Fixpoint process_books (fuel : nat) (send_epub_to_kindle : str -> M bool)
         (already_downloaded : list str) (books : list book) (t : tally) : M tally :=
  match books with
  | [] => ret t
  | b :: books' =>
      t' <- process_book fuel send_epub_to_kindle already_downloaded b t ;;
      process_books fuel send_epub_to_kindle already_downloaded books' t'
  end.

(** [manual_search(search_query)] of [main.py] *)
Definition manual_search (fuel : nat) (send_epub_to_kindle : str -> M bool)
           (search_query : str) : M bool :=
  attempt <- try (
    found <- search_and_download_book fuel search_query [] [] "downloads" ["epub" : str] ;;
    match found with
    | None => ret false
    | Some a =>
        res <- send_epub_to_kindle (download_result a) ;;
        if res then ret true else ret false
    end) ;;
  match attempt with
  | inl b => ret b
  | inr _ => ret false
  end.

(** ** Decoding a quoted string *)

Definition hex_value (c : ascii) : nat :=
  if Char.is_digit c then Char.code c - 48 else Char.code c - 55.

(** the inverse of [quote]: escaped bytes are read back, two of them for
    a character from U+0080 on *)
Fixpoint unquote (s : str) : str :=
  match s with
  | [] => []
  | c :: s1 =>
      if Ascii.eqb "%" c then
        match s1 with
        | h1 :: h2 :: s3 =>
            let b1 := 16 * hex_value h1 + hex_value h2 in
            if b1 <? 128 then ascii_of_nat b1 :: unquote s3
            else
              match s3 with
              | _ :: h3 :: h4 :: s6 =>
                  ascii_of_nat ((b1 - 192) * 64 + (16 * hex_value h3 + hex_value h4 - 128))
                  :: unquote s6
              | _ => []
              end
        | _ => []
        end
      else c :: unquote s1
  end.

(** the characters [quote] leaves alone *)
Definition unreserved (c : ascii) : bool :=
  Char.is_lower_az c || Char.is_upper_az c || Char.is_digit c
  || Ascii.eqb "_" c || Ascii.eqb "." c || Ascii.eqb "-" c
  || Ascii.eqb "~" c || Ascii.eqb "/" c.

Definition unreserved_or_escape (c : ascii) : bool := unreserved c || Ascii.eqb "%" c.

(** ** Notions for the traces of the pipeline *)

(** the requests [extract_download_link] can send for some links: one
    for every link with a non-empty [href] *)
Definition mirror_requests (links : list anchor) : list request :=
  flat_map (fun l => match a_href l with
                     | Some ((_ :: _) as mirror_url) => [mirror_request mirror_url]
                     | _ => []
                     end) links.

(** every event of every run of [m] satisfies [P] *)
Definition traces {A} (P : event -> Prop) (m : M A) : Prop :=
  forall (w : World) (s : state), Forall P (tr (m w s)).


(** a request sent with the headers and without streaming: a search *)
Definition is_search (r : request) : bool := req_headers r && negb (req_stream r).

Definition searches_in (l : list event) : list request := filter is_search (requests_in l).

Definition no_search (e : event) : Prop :=
  match e with Get r => is_search r = false | _ => True end.

(** a run that returns an acquisition has just stored its file *)
Definition delivered (dir : str) (m : M (option acquisition)) : Prop :=
  forall (w : World) (s : state) (a : acquisition),
    out (m w s) = Ret (Some a) ->
    exists t resp,
      tr (m w s) = t ++ [Mkdir dir; Get (download_request (download_url a));
                         Save resp (download_result a)]
      /\ breaks resp = false /\ failed resp = false
      /\ In (download_result a) (files (st (m w s)))
      /\ Str.startswith "http" (download_url a) = true
      /\ exists name, download_result a = path_join dir name
                      /\ ~ In "/"%char name /\ name <> "." /\ name <> "..".

(** the books of the wish list that are not on record *)
Definition new_books (already_downloaded : list str) (books : list book) : list book :=
  filter (fun b => negb (Str.mem (book_title b) already_downloaded)) books.

(** the lines [save_already_downloaded] appends for some titles *)
Definition ledger_lines (titles : list str) : str :=
  List.concat (map (fun t => t ++ [ascii_of_nat 10]) titles).

(** the file system never refuses the ledger *)
Definition ledger_writable (w : World) : Prop :=
  forall n : nat, can_open w n ALREADY_DOWNLOADED_FILE = true.

(** the text is empty or ends with a line feed *)
Definition ends_line (text : str) : Prop :=
  text = [] \/ exists x, text = x ++ [ascii_of_nat 10].

(** ** Inputs used in the examples of the batch loop *)

Module Demo.

(** every search finds one row with one mirror, whose page has a GET
    link to a file that is served *)
Definition served : World :=
  Sample.world_of (fun _ r =>
    if Sample.is_url (make_absolute_url "/m1") r
    then Some (Sample.answer 200 (Sample.page [Sample.get_link "/get1"]))
    else if Sample.is_url (make_absolute_url "/get1") r then Some (Sample.book_file false)
    else Some (Sample.answer 200 (Sample.results_page
                [Sample.table_row "Dune" "Frank Herbert" "epub" [Sample.link "/m1"]]))).

Definition dune : book :=
  {| book_title := "Dune"; book_author := "Frank Herbert"; book_isbn := [] |}.

(** what a call for [dune] returns in the world [served] *)
Definition dune_file : acquisition :=
  {| acq_title := "Dune"; acq_author := "Frank Herbert"; acq_format := "epub";
     acq_size := "1 MB"; download_url := "https://libgen.li/get1";
     download_result := "downloads/book.epub" |}.

(** an upload that always works *)
Definition sends : str -> M bool := fun _ => ret true.

Definition start : tally :=
  {| successful_books := 0; failed_books := 0; already_downloaded_file := None |}.



End Demo.

(** * Properties *)


(** * [drop_while] and [strip] *)

Lemma drop_while_split (p : ascii -> bool) (s : str) :
  exists l, s = l ++ Str.drop_while p s.
Proof.
  induction s as [|c s [l IH]]; [now exists []|].
  simpl. destruct (p c).
  - exists (c :: l). simpl. now f_equal.
  - now exists [].
Qed.

Lemma drop_while_clear (p : ascii -> bool) (s : str) :
  starts_clear p (Str.drop_while p s).
Proof.
  induction s as [|c s IH]; simpl; [exact I|].
  destruct (p c) eqn:E; [exact IH | exact E].
Qed.

Lemma drop_while_id (p : ascii -> bool) (s : str) :
  starts_clear p s -> Str.drop_while p s = s.
Proof. destruct s as [|c s]; simpl; [reflexivity|]. now intros ->. Qed.

Lemma drop_while_length (p : ascii -> bool) (s : str) :
  List.length (Str.drop_while p s) <= List.length s.
Proof.
  induction s as [|c s IH]; simpl; [lia|]. destruct (p c); simpl; lia.
Qed.

(** A stripped string is a piece of the original that neither starts nor
    ends with a stripped character. *)
Lemma strip_by_infix (p : ascii -> bool) (s : str) :
  exists l1 l2, s = l1 ++ Str.strip_by p s ++ l2.
Proof.
  unfold Str.strip_by.
  destruct (drop_while_split p s) as [l1 H1].
  destruct (drop_while_split p (rev (Str.drop_while p s))) as [l0 H0].
  exists l1, (rev l0).
  rewrite <- rev_app_distr, <- H0, rev_involutive. exact H1.
Qed.

Lemma strip_by_clear (p : ascii -> bool) (s : str) :
  starts_clear p (Str.strip_by p s).
Proof.
  unfold Str.strip_by.
  destruct (drop_while_split p (rev (Str.drop_while p s))) as [l0 H0].
  pose proof (drop_while_clear p s) as Hc.
  apply (f_equal (@rev ascii)) in H0.
  rewrite rev_involutive, rev_app_distr in H0.
  destruct (rev (Str.drop_while p (rev (Str.drop_while p s)))) as [|c y]; [exact I|].
  rewrite H0 in Hc. exact Hc.
Qed.

Lemma strip_by_idem (p : ascii -> bool) (s : str) :
  Str.strip_by p (Str.strip_by p s) = Str.strip_by p s.
Proof.
  pose proof (strip_by_clear p s) as Hc.
  unfold Str.strip_by at 1. rewrite (drop_while_id _ _ Hc).
  unfold Str.strip_by. rewrite rev_involutive.
  rewrite (drop_while_id p (Str.drop_while p _)); [reflexivity|].
  apply drop_while_clear.
Qed.

Lemma strip_by_length (p : ascii -> bool) (s : str) :
  List.length (Str.strip_by p s) <= List.length s.
Proof.
  unfold Str.strip_by. rewrite length_rev.
  etransitivity; [apply drop_while_length|]. rewrite length_rev.
  apply drop_while_length.
Qed.

Lemma drop_while_Forall (p : ascii -> bool) (Q : ascii -> Prop) (s : str) :
  Forall Q s -> Forall Q (Str.drop_while p s).
Proof.
  induction 1 as [|c s Hc Hs IH]; simpl; [constructor|].
  destruct (p c); [exact IH | constructor; assumption].
Qed.

Lemma strip_by_Forall (p : ascii -> bool) (Q : ascii -> Prop) (s : str) :
  Forall Q s -> Forall Q (Str.strip_by p s).
Proof.
  intro H. unfold Str.strip_by.
  apply Forall_rev, drop_while_Forall, Forall_rev, drop_while_Forall, H.
Qed.

(** * [split] on a colon *)

Lemma split_colon_head (s cur : str) :
  exists rest, hd [] (Str.split_aux ":" 0 cur s) ++ rest = rev cur ++ s
               /\ (Forall (fun c => is_colon c = false) s -> rest = []).
Proof.
  revert cur; induction s as [|c s IH]; intro cur.
  - exists []. simpl. split; [reflexivity | reflexivity].
  - cbn [Str.split_aux]. 
    change (Str.startswith ":" (c :: s)) with (Ascii.eqb ":" c && true).
    rewrite andb_true_r. destruct (Ascii.eqb ":" c) eqn:E.
    + exists (c :: s). split; [reflexivity|].
      intro H. inversion H; subst. unfold is_colon in *. congruence.
    + destruct (IH (c :: cur)) as [rest [H1 H2]]. exists rest. split.
      * rewrite H1. simpl. now rewrite <- app_assoc.
      * intro H. apply H2. now inversion H.
Qed.

Lemma split_colon_Forall (Q : ascii -> Prop) (s cur : str) :
  Forall Q cur -> Forall Q s -> Forall Q (hd [] (Str.split_aux ":" 0 cur s)).
Proof.
  revert cur; induction s as [|c s IH]; intros cur Hcur Hs.
  - simpl. now apply Forall_rev.
  - cbn [Str.split_aux].
    destruct (Str.startswith ":" (c :: s)).
    + simpl. now apply Forall_rev.
    + apply IH; [constructor|]; inversion Hs; assumption.
Qed.

Lemma split_colon_no_colon (s cur : str) :
  Forall (fun c => is_colon c = false) cur ->
  Forall (fun c => is_colon c = false) (hd [] (Str.split_aux ":" 0 cur s)).
Proof.
  revert cur; induction s as [|c s IH]; intros cur Hcur.
  - simpl. now apply Forall_rev.
  - cbn [Str.split_aux].
    change (Str.startswith ":" (c :: s)) with (Ascii.eqb ":" c && true).
    rewrite andb_true_r. destruct (Ascii.eqb ":" c) eqn:E.
    + simpl. now apply Forall_rev.
    + apply IH. constructor; assumption.
Qed.

Lemma before_colon_no_colon (t : str) :
  Forall (fun c => is_colon c = false) (before_colon t).
Proof. apply split_colon_no_colon. constructor. Qed.

Lemma before_colon_id (t : str) :
  Forall (fun c => is_colon c = false) t -> before_colon t = t.
Proof.
  intro H. unfold before_colon, Str.split.
  destruct (split_colon_head t []) as [rest [H1 H2]].
  rewrite (H2 H), app_nil_r in H1. exact H1.
Qed.

Lemma before_colon_length (t : str) : List.length (before_colon t) <= List.length t.
Proof.
  unfold before_colon, Str.split.
  destruct (split_colon_head t []) as [rest [H1 _]].
  apply (f_equal (@List.length ascii)) in H1.
  rewrite length_app in H1. cbn [rev app] in H1. lia.
Qed.



(** * [re.sub] in general *)

Lemma sub_aux_Forall (Q : ascii -> Prop) (r : Re.regex) (repl : str) :
  Forall Q repl ->
  forall (s : str) (k : nat) (prev : option ascii),
    Forall Q s -> Forall Q (Re.sub_aux r repl k prev s).
Proof.
  intros Hrepl s; induction s as [|c s IH]; intros k prev Hs.
  - simpl. destruct (Re.match_at r _); [assumption | constructor].
  - inversion Hs as [|? ? Hc Hs']; subst.
    destruct k as [|k]; cbn [Re.sub_aux]; [|now apply IH].
    destruct (Re.match_at r _) as [[|n]|].
    + apply Forall_app; split; [assumption|].
      destruct (Re.match_at_nonempty r _) as [[|n]|].
      * constructor; [assumption | now apply IH].
      * apply Forall_app; split; [assumption | now apply IH].
      * constructor; [assumption | now apply IH].
    + apply Forall_app; split; [assumption | now apply IH].
    + constructor; [assumption | now apply IH].
Qed.

(** Deleting the matches of a pattern never lengthens the subject, and
    keeps its length only when nothing is deleted. *)
Lemma sub_aux_delete (r : Re.regex) (s : str) :
  forall (k : nat) (prev : option ascii),
    List.length (Re.sub_aux r [] k prev s) <= List.length s
    /\ (List.length (Re.sub_aux r [] k prev s) = List.length s ->
        Re.sub_aux r [] k prev s = s).
Proof.
  induction s as [|c s IH]; intros k prev.
  - simpl. destruct (Re.match_at r _); split; auto.
  - assert (Hskip : forall n p,
               List.length (Re.sub_aux r [] n p s) <= List.length (c :: s)
               /\ (List.length (Re.sub_aux r [] n p s) = List.length (c :: s) ->
                   Re.sub_aux r [] n p s = c :: s)).
    { intros n p. destruct (IH n p) as [H _]. simpl. split; [lia | intro; lia]. }
    assert (Hkeep : List.length (c :: Re.sub_aux r [] 0 (Some c) s) <= List.length (c :: s)
               /\ (List.length (c :: Re.sub_aux r [] 0 (Some c) s) = List.length (c :: s) ->
                   c :: Re.sub_aux r [] 0 (Some c) s = c :: s)).
    { destruct (IH 0 (Some c)) as [H1 H2]. simpl. split; [lia|].
      intro H. f_equal. apply H2. lia. }
    destruct k as [|k]; cbn [Re.sub_aux]; [|apply Hskip].
    destruct (Re.match_at r _) as [[|n]|]; cbn [app].
    + destruct (Re.match_at_nonempty r _) as [[|n]|]; cbn [app];
        [apply Hkeep | apply Hskip | apply Hkeep].
    + apply Hskip.
    + apply Hkeep.
Qed.

Lemma sub_delete_length (r : Re.regex) (s : str) :
  List.length (Re.sub r [] s) <= List.length s.
Proof. apply sub_aux_delete. Qed.

Lemma sub_delete_same (r : Re.regex) (s : str) :
  List.length (Re.sub r [] s) = List.length s -> Re.sub r [] s = s.
Proof. apply sub_aux_delete. Qed.

(** * Collapsing white space *)

Lemma star_greedy_head (p : ascii -> bool) (s : str) (prev : option ascii) :
  exists prev' rest, Re.star_greedy p prev s = (prev', Str.drop_while p s) :: rest.
Proof.
  revert prev; induction s as [|c s IH]; intro prev; simpl.
  - now exists prev, [].
  - destruct (p c).
    + destruct (IH (Some c)) as [prev' [rest ->]].
      now exists prev', (rest ++ [(prev, c :: s)]).
    + now exists prev, [].
Qed.

Lemma match_at_Plus (p : ascii -> bool) (prev : option ascii) (c : ascii) (s : str) :
  Re.match_at (Re.Plus p) (prev, c :: s) =
  if p c then Some (S (lead p s)) else None.
Proof.
  unfold Re.match_at, Re.Plus. cbn [Re.run fst snd].
  destruct (p c); [|reflexivity].
  cbn [flat_map Re.run fst snd]. rewrite app_nil_r.
  destruct (star_greedy_head p s (Some c)) as [prev' [rest ->]].
  f_equal. unfold Re.span, lead. cbn [snd List.length].
  pose proof (drop_while_length p s). lia.
Qed.

Lemma lead_cons (p : ascii -> bool) (c : ascii) (s : str) :
  lead p (c :: s) = if p c then S (lead p s) else 0.
Proof.
  unfold lead. cbn [Str.drop_while]. destruct (p c); cbn [List.length].
  - pose proof (drop_while_length p s). lia.
  - lia.
Qed.

Lemma sub_spaces_collapse (s : str) :
  forall prev : option ascii,
    Re.sub_aux spaces_re " " 0 prev s = collapse false s
    /\ Re.sub_aux spaces_re " " (lead Char.is_space s) prev s = collapse true s.
Proof.
  unfold spaces_re.
  induction s as [|c s IH]; intro prev.
  - split; reflexivity.
  - assert (H0 : Re.sub_aux (Re.Plus Char.is_space) " " 0 prev (c :: s)
                 = collapse false (c :: s)).
    { cbn [Re.sub_aux collapse]. rewrite match_at_Plus.
      destruct (Char.is_space c).
      - destruct (IH (Some c)) as [_ ->]. reflexivity.
      - destruct (IH (Some c)) as [-> _]. reflexivity. }
    split; [exact H0|].
    rewrite lead_cons. cbn [collapse]. destruct (Char.is_space c) eqn:E.
    + cbn [Re.sub_aux]. now destruct (IH (Some c)) as [_ ->].
    + rewrite H0. cbn [collapse]. now rewrite E.
Qed.

Lemma collapse_single_spaced (s : str) (b : bool) : single_spaced b (collapse b s) = true.
Proof.
  revert b; induction s as [|c s IH]; intro b; [reflexivity|].
  cbn [single_spaced collapse app]. destruct (Char.is_space c) eqn:E.
  - destruct b; [apply IH|]. cbn [single_spaced collapse app]. apply IH.
  - cbn [single_spaced collapse app]. rewrite E. apply IH.
Qed.

Lemma single_spaced_collapse (s : str) (b : bool) :
  single_spaced b s = true -> collapse b s = s.
Proof.
  revert b; induction s as [|c s IH]; intros b H; [reflexivity|].
  cbn [single_spaced collapse app] in *. destruct (Char.is_space c).
  - apply andb_true_iff in H. destruct H as [H Hs].
    apply andb_true_iff in H. destruct H as [Hc Hb].
    apply Ascii.eqb_eq in Hc. subst c. destruct b; [discriminate|].
    f_equal. now apply IH.
  - f_equal. now apply IH.
Qed.

Lemma single_spaced_weaken (s : str) : single_spaced true s = true -> single_spaced false s = true.
Proof.
  destruct s as [|c s]; [reflexivity|]. cbn [single_spaced collapse app]. destruct (Char.is_space c); [|auto].
  rewrite andb_false_r. discriminate.
Qed.

Lemma single_spaced_suffix (l s : str) (b : bool) :
  single_spaced b (l ++ s) = true -> single_spaced false s = true.
Proof.
  revert b; induction l as [|c l IH]; intros b H.
  - destruct b; [now apply single_spaced_weaken | exact H].
  - cbn [single_spaced collapse app] in H. destruct (Char.is_space c).
    + apply andb_true_iff in H. destruct H as [_ H]. now apply IH in H.
    + now apply IH in H.
Qed.

Lemma single_spaced_prefix (s l : str) (b : bool) :
  single_spaced b (s ++ l) = true -> single_spaced b s = true.
Proof.
  revert b; induction s as [|c s IH]; intros b H; [reflexivity|].
  cbn [single_spaced collapse app] in *. destruct (Char.is_space c).
  - apply andb_true_iff in H. destruct H as [H Hs]. rewrite H. cbn [single_spaced collapse app]. now apply IH.
  - now apply IH.
Qed.

Lemma collapse_length (s : str) (b : bool) : List.length (collapse b s) <= List.length s.
Proof.
  revert b; induction s as [|c s IH]; intro b; simpl; [lia|].
  destruct (Char.is_space c); [destruct b|]; simpl;
    try (specialize (IH true); lia); specialize (IH false); lia.
Qed.

Lemma squeeze_collapse (s : str) : squeeze s = Str.strip (collapse false s).
Proof. unfold squeeze, Re.sub. now destruct (sub_spaces_collapse s None) as [-> _]. Qed.

Lemma squeeze_idem (s : str) : squeeze (squeeze s) = squeeze s.
Proof.
  rewrite (squeeze_collapse (squeeze s)).
  rewrite single_spaced_collapse.
  - rewrite squeeze_collapse. apply strip_by_idem.
  - rewrite squeeze_collapse. unfold Str.strip.
    destruct (strip_by_infix Char.is_space (collapse false s)) as [l1 [l2 H]].
    pose proof (collapse_single_spaced s false) as Hs. rewrite H in Hs.
    apply single_spaced_suffix in Hs. now apply single_spaced_prefix in Hs.
Qed.

Lemma squeeze_length (s : str) : List.length (squeeze s) <= List.length s.
Proof.
  rewrite squeeze_collapse. unfold Str.strip.
  etransitivity; [apply strip_by_length | apply collapse_length].
Qed.

Lemma squeeze_Forall (Q : ascii -> Prop) (s : str) :
  Q " "%char -> Forall Q s -> Forall Q (squeeze s).
Proof.
  intros Hsp Hs. unfold squeeze, Str.strip.
  apply strip_by_Forall, sub_aux_Forall; [repeat constructor; exact Hsp | exact Hs].
Qed.

(** * [clean_title] *)

Lemma clean_title_no_colon (t : str) :
  Forall (fun c => is_colon c = false) (clean_title t).
Proof.
  unfold clean_title. apply squeeze_Forall; [reflexivity|].
  unfold remove_brackets, remove_edition, Re.sub.
  apply sub_aux_Forall; [constructor|].
  apply sub_aux_Forall; [constructor|].
  apply before_colon_no_colon.
Qed.

Lemma remove_edition_length (s : str) : List.length (remove_edition s) <= List.length s.
Proof. exact (sub_delete_length edition_re s). Qed.

Lemma remove_edition_same (s : str) :
  List.length (remove_edition s) = List.length s -> remove_edition s = s.
Proof. exact (sub_delete_same edition_re s). Qed.

Lemma remove_brackets_length (s : str) : List.length (remove_brackets s) <= List.length s.
Proof. exact (sub_delete_length bracket_re s). Qed.

Lemma remove_brackets_same (s : str) :
  List.length (remove_brackets s) = List.length s -> remove_brackets s = s.
Proof. exact (sub_delete_same bracket_re s). Qed.

(** Counterexample to C6 as stated: removing the bracketed segment joins
    "3rd" and "Edition", so the first cleaning yields "Calculus 3rd Edition"
    and the second one "Calculus". *)
Lemma clean_title_not_idempotent :
  clean_title (clean_title "Calculus 3rd (International) Edition")
  <> clean_title "Calculus 3rd (International) Edition".
Proof. vm_compute. discriminate. Qed.

(** C6, amended: cleaning a cleaned title changes nothing exactly when
    neither the edition pattern nor the bracket pattern still matches in the
    cleaned title, that is, when steps 2 and 3 of [clean_title] leave it as
    it is.  The first and the last step never change a cleaned title. *)
Theorem clean_title_idempotent_iff (t : str) :
  clean_title (clean_title t) = clean_title t
  <-> remove_edition (clean_title t) = clean_title t
      /\ remove_brackets (clean_title t) = clean_title t.
Proof.
  assert (Hsq : squeeze (clean_title t) = clean_title t)
    by (unfold clean_title; apply squeeze_idem).
  pose proof (@before_colon_id _ (clean_title_no_colon t)) as Hbc.
  set (c := clean_title t) in *.
  split.
  - intro H. unfold clean_title in H. rewrite Hbc in H.
    pose proof (squeeze_length (remove_brackets (remove_edition c))) as L1.
    pose proof (remove_brackets_length (remove_edition c)) as L2.
    pose proof (remove_edition_length c) as L3.
    rewrite H in L1.
    assert (He : remove_edition c = c) by (apply remove_edition_same; lia).
    split; [exact He|].
    rewrite He in L1, L2. apply remove_brackets_same. lia.
  - intros [He Hb]. unfold clean_title. rewrite Hbc, He, Hb. exact Hsq.
Qed.



(** * Facts about strings *)

(** * Facts about [re.sub] *)

Lemma span_cons (prev prev' : option ascii) (c : ascii) (s : str) :
  Re.span (prev, c :: s) (prev', s) = 1.
Proof. unfold Re.span. cbn [snd List.length]. lia. Qed.

(** Substituting for a character set rewrites the subject character by
    character. *)
Lemma sub_aux_Cls (q : ascii -> bool) (repl : ascii) (s : str) (prev : option ascii) :
  Re.sub_aux (Re.Cls q) [repl] 0 prev s = map (fun c => if q c then repl else c) s.
Proof.
  revert prev; induction s as [|c s IH]; intro prev; [reflexivity|].
  simpl. unfold Re.match_at. simpl.
  destruct (q c).
  - rewrite span_cons. simpl. now rewrite IH.
  - now rewrite IH.
Qed.

Lemma sanitize_filename_map (f : str) :
  sanitize_filename f = Str.strip (map underscore_unsafe f).
Proof.
  unfold sanitize_filename, Re.sub, unsafe_re.
  change (list_ascii_of_string "_") with ["_"%char].
  rewrite sub_aux_Cls. f_equal. apply map_ext. intro c.
  unfold underscore_unsafe. now destruct (filename_char c).
Qed.

Lemma underscore_unsafe_ok (c : ascii) : filename_char (underscore_unsafe c) = true.
Proof. unfold underscore_unsafe. destruct (filename_char c) eqn:E; [exact E | reflexivity]. Qed.

(** C6 at a title of the module's own list: cleaning it twice is cleaning
    it once *)
Lemma clean_title_idempotent_iff_witness :
  clean_title (clean_title "Topgrading, 3rd Edition: The Proven Hiring and Promoting Method")
  = clean_title "Topgrading, 3rd Edition: The Proven Hiring and Promoting Method".
Proof.
  apply (proj2 (clean_title_idempotent_iff
                  "Topgrading, 3rd Edition: The Proven Hiring and Promoting Method")).
  split; vm_compute; reflexivity.
Defined.

(** Counterexample to C5 as stated: the name is not saved as
    "My_Book__Part_1_.epub"; the space belongs to the characters kept. *)
Lemma sanitize_filename_cex :
  sanitize_filename "My Book: Part 1?.epub" <> "My_Book__Part_1_.epub".
Proof. vm_compute. discriminate. Qed.

(** C5, amended: sanitizing replaces every character outside
    [a-zA-Z0-9.\-_ ] by an underscore and strips white space at both ends; no
    character outside the set remains; spaces are kept, so the header name
    "My Book: Part 1?.epub" is stored as "My Book_ Part 1_.epub". *)
Theorem sanitize_filename_keeps_spaces :
  (forall f : str,
      sanitize_filename f = Str.strip (map underscore_unsafe f)
      /\ Forall (fun c => filename_char c = true) (sanitize_filename f))
  /\ (forall url_name stamp : str,
        resolve_filename
          (Some ("attachment; filename=" ++ [dquote] ++ "My Book: Part 1?.epub" ++ [dquote]))
          url_name stamp
        = "My Book_ Part 1_.epub").
Proof.
  split.
  - intro f. split; [apply sanitize_filename_map|].
    rewrite sanitize_filename_map. apply strip_by_Forall.
    apply Forall_forall. intros c Hc. apply in_map_iff in Hc.
    destruct Hc as [x [<- _]]. apply underscore_unsafe_ok.
  - intros url_name stamp. vm_compute. reflexivity.
Qed.



(** * Format selection *)


Lemma str_eqb_eq (s t : str) : Str.eqb s t = true -> s = t.
Proof.
  revert t; induction s as [|a s IH]; intros [|b t] H; try discriminate; [reflexivity|].
  cbn [Str.eqb] in H. apply andb_true_iff in H. destruct H as [H1 H2].
  apply Ascii.eqb_eq in H1. subst b. f_equal. now apply IH.
Qed.

Lemma str_eqb_refl (x : str) : Str.eqb x x = true.
Proof. induction x as [|c x IH]; [reflexivity|]. cbn [Str.eqb]. now rewrite Ascii.eqb_refl. Qed.





(** C3 fails on the code: the flag of the first scan is computed by
    membership of the row's format in the list of preferred formats, the test
    of the row loop by a substring test against the lowered preferred format.
    With preferred format "EPUB" and a row of format "epub", or preferred
    format "epub" and a row of format "epub3", the flag is false although a
    row passes the test of the loop; the pdf row ranked first is then tried
    before the epub row. *)
Theorem have_desired_format_mismatch :
  (have_desired_format [Sample.row "A" "epub" []] ["EPUB" : str] = false
   /\ existsb (found_format ["EPUB" : str]) [Sample.row "A" "epub" []] = true)
  /\ (have_desired_format [Sample.row "A" "pdf" []; Sample.row "B" "epub3" []] ["epub" : str] = false
      /\ existsb (found_format ["epub" : str])
                 [Sample.row "A" "pdf" []; Sample.row "B" "epub3" []] = true)
  /\ format_selector [Sample.row "A" "pdf" []; Sample.row "B" "epub" []] ["EPUB" : str]
     = [Sample.row "A" "pdf" []; Sample.row "B" "epub" []].
Proof. repeat split; reflexivity. Qed.

(** * The query list *)

(** Counterexample to C9 as stated: with the title " A" the second query
    is "A B", not " A B". *)
Lemma search_queries_cex :
  nth 1 (search_queries " A" "B" "1") [] <> " A" ++ " " ++ "B".
Proof. vm_compute. discriminate. Qed.

Lemma search_queries_five (title author isbn : str) :
  title <> [] -> author <> [] -> isbn <> [] ->
  search_queries title author isbn
  = [isbn; Str.strip (title ++ " " ++ author); title;
     clean_title title ++ " " ++ author; clean_title title].
Proof.
  intros Ht Ha Hi. unfold search_queries.
  destruct title; [congruence|]. destruct author; [congruence|].
  destruct isbn; [congruence|]. reflexivity.
Qed.



(** * Running the monad *)

Lemma bind_ret_run {A B} (m : M A) (k : A -> M B) (w : World) (s s1 : state)
      (a : A) (t : list event) :
  m w s = Run (Ret a) s1 t ->
  bind m k w s = Run (out (k a w s1)) (st (k a w s1)) (t ++ tr (k a w s1)).
Proof. intro H. unfold bind. rewrite H. reflexivity. Qed.

Lemma bind_raise_run {A B} (m : M A) (k : A -> M B) (w : World) (s s1 : state)
      (e : exn) (t : list event) :
  m w s = Run (Raise e) s1 t -> bind m k w s = Run (Raise e) s1 t.
Proof. intro H. unfold bind. rewrite H. reflexivity. Qed.

Lemma run_eta {A} (r : run A) : Run (out r) (st r) (tr r) = r.
Proof. now destruct r. Qed.

(** fetching a page that is served and saving it *)
Lemma makedirs_run (path : str) (w : World) (s : state) :
  path <> [] -> can_mkdir w (clock s) path = true ->
  makedirs path w s = Run (Ret tt) (after_mkdir path s) [Mkdir path].
Proof.
  intros Hp Hm. unfold makedirs. destruct path as [|c path]; [congruence|].
  rewrite Hm. reflexivity.
Qed.


(** the worlds of the examples never refuse a debug page *)
Lemma world_of_saves_page (answers : nat -> request -> option response) (name : str) :
  names_directory (path_join debug_dir name) = false ->
  saves_page (Sample.world_of answers) name.
Proof. intro H. split; [exact H|]. intro n. split; reflexivity. Qed.

Lemma save_debug_run (name : str) (w : World) (s : state) :
  saves_page w name ->
  save_debug name w s
  = Run (Ret tt) {| clock := clock s; dirs := add_path debug_dir (dirs s);
                    files := add_path (path_join debug_dir name) (files s) |}
        [Mkdir debug_dir; Dump (path_join debug_dir name)].
Proof.
  intros [Hn Hs]. destruct (Hs (clock s)) as [Hm Ho].
  unfold save_debug, bind.
  change (makedirs debug_dir w s)
    with (if can_mkdir w (clock s) debug_dir
          then Run (Ret tt) {| clock := clock s; dirs := add_path debug_dir (dirs s);
                               files := files s |} [Mkdir debug_dir]
          else Run (Raise OSError) s []).
  rewrite Hm. cbn [out st tr]. unfold dump_page, opens. cbn [clock].
  rewrite Hn, Ho. reflexivity.
Qed.

Lemma fetch_page {B} (r : request) (name : str) (k : response -> M B)
      (w : World) (s : state) (resp : response) :
  reply w (clock s) r = Some resp -> failed resp = false -> saves_page w name ->
  (response <- requests_get r ;; raise_for_status response ;;; save_debug name ;;; k response) w s
  = let r' := k resp w (after_page name s) in
    Run (out r') (st r') (page_events r name ++ tr r').
Proof.
  intros Hr Hf Hs. unfold bind at 1 2 3, requests_get, raise_for_status.
  rewrite Hr. cbn [out st tr]. rewrite Hf. cbn [ret out st tr].
  rewrite (save_debug_run name w _ Hs). reflexivity.
Qed.

(** fetching a page that is answered with an error status *)
Lemma fetch_page_failed {B} (r : request) (name : str) (k : response -> M B)
      (w : World) (s : state) (resp : response) :
  reply w (clock s) r = Some resp -> failed resp = true ->
  (response <- requests_get r ;; raise_for_status response ;;; save_debug name ;;; k response) w s
  = Run (Raise (HTTPError (status resp))) (tick s) [Get r].
Proof.
  intros Hr Hf. unfold bind, requests_get, raise_for_status.
  rewrite Hr. cbn [out st tr]. rewrite Hf. reflexivity.
Qed.

(** * [extract_download_link] *)



Lemma extract_from_hit (fuel : nat) (links : list anchor) (cursor : nat)
      (l g : anchor) (h d : str) (resp : response) (w : World) (s : state) :
  nth_error links cursor = Some l -> a_href l = Some h -> h <> [] ->
  reply w (clock s) (mirror_request h) = Some resp -> failed resp = false ->
  saves_page w "mirror_response.html" ->
  find_get (soup resp) = Some g -> a_href g = Some d ->
  extract_from (S fuel) links cursor w s
  = Run (Ret (Some (make_absolute_url d))) (after_page "mirror_response.html" s)
        (page_events (mirror_request h) "mirror_response.html").
Proof.
  intros Hn Hh Hne Hr Hf Hs Hg Hd.
  assert (Hlt : cursor < List.length links) by (apply nth_error_Some; congruence).
  cbn [extract_from]. destruct links as [|l0 ls]; [simpl in Hlt; lia|].
  apply Nat.leb_gt in Hlt. rewrite Hlt, Hn.
  destruct l as [href string]. cbn [a_href] in Hh. subst href.
  destruct h as [|c h]; [congruence|].
  rewrite (fetch_page _ _ _ _ _ _ Hr Hf Hs). rewrite Hg, Hd. reflexivity.
Qed.



(** * The recursion of [extract_download_link] always ends *)

Lemma bind_returns {A B} (m : M A) (k : A -> M B) (w : World) (s : state) :
  out (m w s) <> Diverge -> (forall a s', out (k a w s') <> Diverge) ->
  out (bind m k w s) <> Diverge.
Proof.
  intros Hm Hk. unfold bind. destruct (out (m w s)) as [a| |]; cbn [out];
    [apply Hk | discriminate | now contradiction Hm].
Qed.

Lemma makedirs_cases (path : str) (w : World) (s : state) :
  makedirs path w s = Run (Ret tt) (after_mkdir path s) [Mkdir path]
  \/ makedirs path w s = Run (Raise OSError) s [].
Proof.
  unfold makedirs. destruct path as [|c path]; [now right|].
  destruct (can_mkdir w (clock s) (c :: path)); [now left | now right].
Qed.

Lemma makedirs_returns (path : str) (w : World) (s : state) :
  out (makedirs path w s) <> Diverge.
Proof.
  unfold makedirs. destruct path; [discriminate|].
  destruct (can_mkdir w (clock s) _); discriminate.
Qed.

Lemma save_debug_returns (name : str) (w : World) (s : state) :
  out (save_debug name w s) <> Diverge.
Proof.
  unfold save_debug. apply bind_returns; [apply makedirs_returns|].
  intros _ s'. unfold dump_page. destruct (opens _ w s'); discriminate.
Qed.

Lemma extract_from_returns (fuel : nat) (links : list anchor) :
  forall (cursor : nat) (w : World) (s : state),
    List.length links - cursor < fuel ->
    out (extract_from fuel links cursor w s) <> Diverge.
Proof.
  induction fuel as [|fuel IH]; intros cursor w s Hf; [lia|].
  cbn [extract_from]. destruct links as [|l0 ls]; [discriminate|].
  destruct (List.length (l0 :: ls) <=? cursor) eqn:E; [discriminate|].
  apply Nat.leb_gt in E.
  assert (Hnext : forall s', out (extract_from fuel (l0 :: ls) (cursor + 1) w s') <> Diverge)
    by (intro s'; apply IH; lia).
  destruct (nth_error (l0 :: ls) cursor) as [[[[|c h]|] t]|]; try apply Hnext.
  apply bind_returns.
  - unfold requests_get. destruct (reply w (clock s) _); discriminate.
  - intros resp s1. apply bind_returns.
    + unfold raise_for_status. destruct (failed resp); discriminate.
    + intros _ s2. apply bind_returns; [apply save_debug_returns|].
      intros _ s3. destruct (find_get (soup resp)) as [g|]; [|apply Hnext].
      destruct (a_href g); discriminate.
Qed.

Lemma extract_download_link_returns (mirrors_cell : td) (cursor : nat) (w : World) (s : state) :
  out (extract_download_link mirrors_cell cursor w s) <> Diverge.
Proof. apply extract_from_returns. lia. Qed.



(** * [hunt_for_book] on a search that fails or finds nothing *)

Lemma hunt_for_book_failed (fuel : nat) (q : str) (preferred_formats : list str)
      (download_dir original_title : str) (w : World) (s : state) (resp : response) :
  reply w (clock s) (search_request q) = Some resp -> failed resp = true ->
  hunt_for_book fuel q preferred_formats download_dir original_title w s
  = Run (Raise (HTTPError (status resp))) (tick s) [Get (search_request q)].
Proof.
  intros Hr Hf. unfold hunt_for_book.
  exact (fetch_page_failed _ "libgen_response.html" _ _ _ _ Hr Hf).
Qed.

Lemma hunt_for_book_no_rows (fuel : nat) (q : str) (preferred_formats : list str)
      (download_dir original_title : str) (w : World) (s : state) (resp : response) :
  reply w (clock s) (search_request q) = Some resp -> failed resp = false ->
  saves_page w "libgen_response.html" ->
  all_results (soup resp) = [] ->
  hunt_for_book fuel q preferred_formats download_dir original_title w s
  = Run (Ret None) (after_page "libgen_response.html" s)
        (page_events (search_request q) "libgen_response.html").
Proof.
  intros Hr Hf Hs Hn. unfold hunt_for_book.
  rewrite (fetch_page _ "libgen_response.html" _ _ _ _ Hr Hf Hs).
  rewrite Hn. reflexivity.
Qed.

(** * The loop over the queries *)

Lemma try_queries_no_rows (fuel : nat) (preferred_formats : list str)
      (download_dir title : str) (w : World) (queries : list str) :
  saves_page w "libgen_response.html" ->
  Forall (finds_nothing w) queries ->
  forall s : state,
    let r := try_queries fuel preferred_formats download_dir title queries w s in
    out r = Ret None /\ requests_in (tr r) = map search_request queries.
Proof.
  intro Hs.
  induction 1 as [|q queries Hq Hqs IH]; intro s; [split; reflexivity|].
  cbn zeta. cbn [try_queries].
  destruct (Hq (clock s)) as [resp [Hr [Hf Hn]]].
  rewrite (bind_ret_run _ _ _ _ _ _ _
             (hunt_for_book_no_rows fuel q preferred_formats download_dir
                                    title w s resp Hr Hf Hs Hn)).
  cbn [out st tr]. unfold bind. cbn [time_sleep out st tr].
  destruct (IH (after_page "libgen_response.html" s)) as [Ho Ht].
  split; [exact Ho|].
  unfold requests_in in *. rewrite !flat_map_app. cbn [flat_map page_events app map].
  now rewrite Ht.
Qed.

(** C9, amended: with title, author and ISBN all non-empty the queries
    are the ISBN, the title and the author joined by a space and stripped of
    white space at both ends, the title, the cleaned title followed by a space
    and the author, and the cleaned title; when every search is served and
    yields no row, the call returns none after sending exactly one search
    request per query, in this order.  The file system is taken to let the
    call have its download directory and its debug page. *)
Theorem search_and_download_book_exhausts_queries :
  (forall title author isbn : str,
      title <> [] -> author <> [] -> isbn <> [] ->
      search_queries title author isbn
      = [isbn; Str.strip (title ++ " " ++ author); title;
         clean_title title ++ " " ++ author; clean_title title])
  /\ (forall (fuel : nat) (title author isbn download_dir : str)
             (preferred_formats : list str) (w : World) (s : state),
         Forall (finds_nothing w) (search_queries title author isbn) ->
         download_dir <> [] -> can_mkdir w (clock s) download_dir = true ->
         saves_page w "libgen_response.html" ->
         let r := search_and_download_book fuel title author isbn download_dir
                                           preferred_formats w s in
         out r = Ret None
         /\ requests_in (tr r) = map search_request (search_queries title author isbn)).
Proof.
  split; [exact search_queries_five|].
  intros fuel title author isbn download_dir preferred_formats w s H Hd Hm Hs r. subst r.
  unfold search_and_download_book.
  rewrite (bind_ret_run _ _ _ _ _ _ _ (makedirs_run download_dir w s Hd Hm)).
  cbn [out st tr].
  destruct (try_queries_no_rows fuel preferred_formats download_dir title w _ Hs H
              (after_mkdir download_dir s))
    as [Ho Ht].
  split; [exact Ho | rewrite <- Ht; reflexivity].
Qed.

Lemma no_results_finds_nothing (q : str) : finds_nothing Sample.no_results q.
Proof. intro n. eexists. repeat split; reflexivity. Qed.

(** C9 at a concrete request and a world without results *)
Lemma search_and_download_book_exhausts_queries_witness :
  search_queries "Art of the Start" "Guy Kawasaki" "978-0241187265"
  = ["978-0241187265" : str; "Art of the Start Guy Kawasaki" : str; "Art of the Start" : str;
     "Art of the Start Guy Kawasaki" : str; "Art of the Start" : str]
  /\ let r := search_and_download_book 1 "Art of the Start" "Guy Kawasaki" "978-0241187265"
                                       "downloads" ["epub" : str] Sample.no_results initial in
     out r = Ret None
     /\ requests_in (tr r)
        = map search_request (search_queries "Art of the Start" "Guy Kawasaki" "978-0241187265").
Proof.
  split.
  - rewrite (proj1 search_and_download_book_exhausts_queries); [reflexivity | discriminate ..].
  - apply (proj2 search_and_download_book_exhausts_queries).
    + apply Forall_forall. intros q _. apply no_results_finds_nothing.
    + discriminate.
    + reflexivity.
    + apply world_of_saves_page. reflexivity.
Defined.

(** * A search answered with an error status *)

(** C2 fails on the code: a search answered with a status from 400 to
    599 makes [hunt_for_book] raise the HTTP error, and nothing in
    [search_and_download_book] catches it.  The loop over the queries ends
    with the error at once, whatever queries remain, and no further request
    is sent: the call does not fall back to the next query and does not end
    with a result or none.  When the first search fails, the call has only
    created the download directory and sent that one request. *)
Theorem search_error_propagates :
  (forall (fuel : nat) (preferred_formats : list str) (download_dir title q : str)
          (rest : list str) (w : World) (s : state) (resp : response),
      reply w (clock s) (search_request q) = Some resp -> failed resp = true ->
      try_queries fuel preferred_formats download_dir title (q :: rest) w s
      = Run (Raise (HTTPError (status resp))) (tick s) [Get (search_request q)])
  /\ (forall (fuel : nat) (title author isbn download_dir : str)
             (preferred_formats : list str) (w : World) (s : state) (resp : response),
         download_dir <> [] -> can_mkdir w (clock s) download_dir = true ->
         reply w (clock s) (search_request (hd title (search_queries title author isbn)))
         = Some resp ->
         failed resp = true ->
         let r := search_and_download_book fuel title author isbn download_dir
                                           preferred_formats w s in
         out r = Raise (HTTPError (status resp))
         /\ tr r = [Mkdir download_dir;
                    Get (search_request (hd title (search_queries title author isbn)))]).
Proof.
  assert (Hloop : forall fuel preferred_formats download_dir title q rest w s resp,
             reply w (clock s) (search_request q) = Some resp -> failed resp = true ->
             try_queries fuel preferred_formats download_dir title (q :: rest) w s
             = Run (Raise (HTTPError (status resp))) (tick s) [Get (search_request q)]).
  { intros fuel preferred_formats download_dir title q rest w s resp Hr Hf.
    cbn [try_queries].
    apply bind_raise_run. now apply hunt_for_book_failed. }
  split; [exact Hloop|].
  intros fuel title author isbn download_dir preferred_formats w s resp Hd Hm Hr Hf r. subst r.
  unfold search_and_download_book.
  destruct (search_queries title author isbn) as [|q rest] eqn:E.
  - exfalso. unfold search_queries in E.
    apply (f_equal (@List.length str)) in E. rewrite !length_app in E.
    cbn [List.length] in E. lia.
  - cbn [hd] in Hr.
    rewrite (bind_ret_run _ _ _ _ _ _ _ (makedirs_run download_dir w s Hd Hm)).
    rewrite (Hloop fuel preferred_formats download_dir title q rest w
               (after_mkdir download_dir s) resp Hr Hf).
    split; reflexivity.
Qed.

(** C2 at a concrete request, in a world where every search is answered
    with status 404: the call ends with the error after the search for the
    ISBN; the four queries that remain are not tried *)
Lemma search_error_propagates_witness :
  let r := search_and_download_book 1 "Art of the Start" "Guy Kawasaki" "978-0241187265"
                                    "downloads" ["epub" : str] Sample.not_found initial in
  out r = Raise (HTTPError 404)
  /\ tr r = [Mkdir "downloads"; Get (search_request "978-0241187265")].
Proof.
  apply (proj2 search_error_propagates 1 "Art of the Start" "Guy Kawasaki" "978-0241187265"
           "downloads" ["epub" : str] Sample.not_found initial
           (Sample.answer 404 (Sample.page []))); try reflexivity.
  discriminate.
Defined.



(** * A download that fails *)

Lemma bind_ret_out {A B} (m : M A) (k : A -> M B) (w : World) (s s1 : state)
      (a : A) (t : list event) :
  m w s = Run (Ret a) s1 t -> out (bind m k w s) = out (k a w s1).
Proof. intro H. unfold bind. rewrite H. reflexivity. Qed.

Lemma bind_diverge {A B} (m : M A) (k : A -> M B) (w : World) (s : state) :
  out (m w s) = Diverge -> out (bind m k w s) = Diverge.
Proof. intro H. unfold bind. rewrite H. reflexivity. Qed.

Lemma download_book_failed (book_url download_dir : str) (w : World) (s : state)
      (resp : response) :
  download_dir <> [] -> can_mkdir w (clock s) download_dir = true ->
  reply w (clock s) (download_request book_url) = Some resp -> failed resp = true ->
  download_book book_url download_dir w s
  = Run (Raise (HTTPError (status resp))) (tick (after_mkdir download_dir s))
        [Mkdir download_dir; Get (download_request book_url)].
Proof.
  intros Hd Hm Hr Hf. unfold download_book.
  rewrite (bind_ret_run _ _ _ _ _ _ _ (makedirs_run download_dir w s Hd Hm)).
  unfold bind, requests_get, raise_for_status.
  cbn [after_mkdir out st tr clock]. rewrite Hr. cbn [out st tr]. rewrite Hf. reflexivity.
Qed.

(** * The row loop on a first mirror whose file is down *)

Lemma mirror_walk_retry (fuel : nat) (r : result) (s : state) :
  mirrors r = mirrors Sample.two_mirrors ->
  mirror_walk (S fuel) "downloads" r Sample.first_mirror_down s
  = let r' := mirror_walk fuel "downloads" r Sample.first_mirror_down (after_retry s) in
    Run (out r') (st r') (retry_events ++ tr r').
Proof.
  intro Hm. cbn [mirror_walk]. rewrite Hm.
  assert (E : extract_download_link (mirrors Sample.two_mirrors) 0 Sample.first_mirror_down s
              = Run (Ret (Some (make_absolute_url "/get0")))
                    (after_page "mirror_response.html" s)
                    (page_events (mirror_request "/m0") "mirror_response.html")).
  { unfold extract_download_link.
    change (links_of (mirrors Sample.two_mirrors)) with [Sample.link "/m0"; Sample.link "/m1"].
    apply (extract_from_hit _ [Sample.link "/m0"; Sample.link "/m1"] 0 (Sample.link "/m0")
             (Sample.get_link "/get0") "/m0" "/get0"
             (Sample.answer 200 (Sample.page [Sample.get_link "/get0"])));
      try reflexivity; [discriminate|]. now apply world_of_saves_page. }
  rewrite (bind_ret_run _ _ _ _ _ _ _ E). cbv iota beta.
  assert (D : try (download_book (make_absolute_url "/get0") "downloads")
                  Sample.first_mirror_down (after_page "mirror_response.html" s)
              = Run (Ret (inr (HTTPError 500))) (after_retry s)
                    [Mkdir "downloads"; Get (download_request (make_absolute_url "/get0"))]).
  { unfold try.
    rewrite (download_book_failed (make_absolute_url "/get0") "downloads"
               Sample.first_mirror_down (after_page "mirror_response.html" s)
               (Sample.answer 500 (Sample.page []))
               ltac:(discriminate) eq_refl eq_refl eq_refl).
    reflexivity. }
  rewrite (bind_ret_run _ _ _ _ _ _ _ D). cbv iota beta zeta.
  unfold retry_events. rewrite <- app_assoc. reflexivity.
Qed.

Lemma mirror_walk_stuck (r : result) :
  mirrors r = mirrors Sample.two_mirrors ->
  forall (fuel : nat) (s : state),
    let run := mirror_walk fuel "downloads" r Sample.first_mirror_down s in
    out run = Diverge
    /\ requests_in (tr run)
       = List.concat (repeat [mirror_request "/m0"; download_request (make_absolute_url "/get0")]
                             fuel).
Proof.
  intro Hm. induction fuel as [|fuel IH]; intro s; [split; reflexivity|].
  cbv zeta. rewrite (mirror_walk_retry fuel r s Hm). cbv zeta. cbn [out tr].
  destruct (IH (after_retry s)) as [Ho Ht]. split; [exact Ho|].
  unfold requests_in in *. rewrite flat_map_app, Ht. reflexivity.
Qed.

(** C1 fails on the code: after a failed download the loop of the row
    calls [extract_download_link] with cursor 0 again.  In a world where the
    file behind the first mirror always answers 500, every turn of the loop
    resolves mirror 0 and requests the same file; the loop never ends,
    whatever the fuel, and so does the whole call, although resolution from
    cursor 1 yields a link whose download succeeds. *)
Theorem mirror_walk_retries_first_mirror :
  (forall (fuel : nat) (s : state),
      let r := mirror_walk fuel "downloads" Sample.two_mirrors Sample.first_mirror_down s in
      out r = Diverge
      /\ requests_in (tr r)
         = List.concat (repeat [mirror_request "/m0"; download_request (make_absolute_url "/get0")]
                               fuel))
  /\ (forall fuel : nat,
         out (search_and_download_book fuel "Art of the Start" "Guy Kawasaki" "978-0241187265"
                                       "downloads" ["epub" : str]
                                       Sample.first_mirror_down initial)
         = Diverge)
  /\ (let r := extract_download_link (mirrors Sample.two_mirrors) 1
                                     Sample.first_mirror_down initial in
      out r = Ret (Some (make_absolute_url "/get1"))
      /\ out (download_book (make_absolute_url "/get1") "downloads"
                            Sample.first_mirror_down (st r))
         = Ret (path_join "downloads" "book.epub")).
Proof.
  split; [exact (mirror_walk_stuck Sample.two_mirrors eq_refl)|].
  split; [|vm_compute; split; reflexivity].
  intro fuel.
  set (r := {| title := "Art of the Start"; author := "Guy Kawasaki";
               publisher := "Publisher"; year := "2020"; language := "English";
               pages := "300"; size := "1 MB"; file_format := "epub";
               mirrors := mirrors Sample.two_mirrors |}).
  set (s := after_page "libgen_response.html" (after_mkdir "downloads" initial)).
  destruct (mirror_walk_stuck r eq_refl fuel s) as [Ho _].
  unfold search_and_download_book.
  rewrite (bind_ret_out (makedirs "downloads") _ Sample.first_mirror_down initial
             (after_mkdir "downloads" initial) tt [Mkdir "downloads"] eq_refl).
  set (qs := search_queries _ _ _).
  replace qs with (("978-0241187265" : str) :: tl qs) by reflexivity.
  cbn [try_queries]. apply bind_diverge.
  unfold hunt_for_book.
  rewrite (fetch_page (search_request "978-0241187265") "libgen_response.html" _
             Sample.first_mirror_down _
             (Sample.answer 200 (Sample.results_page
                [Sample.table_row "Art of the Start" "Guy Kawasaki" "epub"
                                  [Sample.link "/m0"; Sample.link "/m1"]]))
             eq_refl eq_refl (world_of_saves_page _ "libgen_response.html" eq_refl)).
  cbv zeta. cbn [out].
  change (order_results_by_closest_match _ _) with [r].
  change (have_desired_format [r] ["epub" : str]) with true.
  cbn [for_rows]. change (skipped true ["epub" : str] r) with false. cbv iota.
  apply bind_diverge. exact Ho.
Qed.



(** * Paths *)

Lemma add_path_keeps (p d : str) (l : list str) : In d l -> In d (add_path p l).
Proof.
  intro H. unfold add_path. destruct (Str.mem p l); [exact H|].
  apply in_or_app. now left.
Qed.

Lemma add_path_in (p : str) (l : list str) : In p (add_path p l).
Proof.
  unfold add_path, Str.mem. destruct (existsb (Str.eqb p) l) eqn:E.
  - apply existsb_exists in E. destruct E as [x [Hx Hpx]].
    apply str_eqb_eq in Hpx. now subst x.
  - apply in_or_app. right. now left.
Qed.

(** * Directories are never removed *)

Lemma keeps_dirs_bind {A B} (m : M A) (k : A -> M B) :
  keeps_dirs m -> (forall a, keeps_dirs (k a)) -> keeps_dirs (bind m k).
Proof.
  intros Hm Hk w s d Hd. unfold bind. specialize (Hm w s d Hd).
  destruct (out (m w s)) as [a| |]; cbn [st]; [|assumption..].
  now apply Hk.
Qed.

Lemma keeps_dirs_try {A} (m : M A) : keeps_dirs m -> keeps_dirs (try m).
Proof.
  intros Hm w s d Hd. unfold try. specialize (Hm w s d Hd).
  now destruct (out (m w s)).
Qed.

Lemma keeps_dirs_ret {A} (a : A) : keeps_dirs (ret a).
Proof. intros w s d Hd. exact Hd. Qed.

Lemma keeps_dirs_raise {A} (e : exn) : keeps_dirs (@raise A e).
Proof. intros w s d Hd. exact Hd. Qed.

Lemma keeps_dirs_diverge {A} : keeps_dirs (@diverge A).
Proof. intros w s d Hd. exact Hd. Qed.

Lemma keeps_dirs_makedirs (p : str) : keeps_dirs (makedirs p).
Proof.
  intros w s d Hd. unfold makedirs. destruct p as [|c p]; [exact Hd|].
  destruct (can_mkdir w (clock s) (c :: p)); [|exact Hd].
  cbn [st dirs]. now apply add_path_keeps.
Qed.

Lemma keeps_dirs_requests_get (r : request) : keeps_dirs (requests_get r).
Proof. intros w s d Hd. unfold requests_get. now destruct (reply w (clock s) r). Qed.

Lemma keeps_dirs_raise_for_status (resp : response) : keeps_dirs (raise_for_status resp).
Proof. intros w s d Hd. unfold raise_for_status. now destruct (failed resp). Qed.

Lemma keeps_dirs_dump_page (p : str) : keeps_dirs (dump_page p).
Proof. intros w s d Hd. unfold dump_page. now destruct (opens p w s). Qed.

Lemma keeps_dirs_save_body (resp : response) (p : str) : keeps_dirs (save_body resp p).
Proof. intros w s d Hd. unfold save_body. now destruct (opens p w s). Qed.

Lemma keeps_dirs_time_sleep : keeps_dirs time_sleep.
Proof. intros w s d Hd. exact Hd. Qed.

Lemma keeps_dirs_the_time : keeps_dirs the_time.
Proof. intros w s d Hd. exact Hd. Qed.

Lemma keeps_dirs_basename_of (u : str) : keeps_dirs (basename_of u).
Proof. intros w s d Hd. exact Hd. Qed.

Create HintDb effects.

#[export] Hint Resolve keeps_dirs_ret keeps_dirs_raise keeps_dirs_diverge keeps_dirs_makedirs
  keeps_dirs_requests_get keeps_dirs_raise_for_status keeps_dirs_dump_page
  keeps_dirs_save_body keeps_dirs_time_sleep keeps_dirs_the_time keeps_dirs_basename_of
  keeps_dirs_try : effects.

Ltac step_dirs :=
  repeat first
    [ apply keeps_dirs_bind; [solve [auto with effects]|intro]
    | progress auto with effects ].

Lemma keeps_dirs_save_debug (name : str) : keeps_dirs (save_debug name).
Proof. unfold save_debug. step_dirs. Qed.

#[export] Hint Resolve keeps_dirs_save_debug : effects.

Lemma keeps_dirs_extract_from (fuel : nat) (links : list anchor) :
  forall cursor, keeps_dirs (extract_from fuel links cursor).
Proof.
  induction fuel as [|fuel IH]; intro cursor; cbn [extract_from]; [auto with effects|].
  destruct links as [|l0 ls]; [auto with effects|].
  destruct (List.length (l0 :: ls) <=? cursor); [auto with effects|].
  destruct (nth_error (l0 :: ls) cursor) as [[[[|c h]|] t]|]; try apply IH.
  step_dirs. destruct (find_get (soup a)) as [g|]; [|apply IH].
  destruct (a_href g); auto with effects.
Qed.

Lemma keeps_dirs_extract_download_link (cell : td) (cursor : nat) :
  keeps_dirs (extract_download_link cell cursor).
Proof. apply keeps_dirs_extract_from. Qed.

Lemma keeps_dirs_download_book (url dir : str) : keeps_dirs (download_book url dir).
Proof. unfold download_book. step_dirs. Qed.

#[export] Hint Resolve keeps_dirs_extract_download_link keeps_dirs_download_book : effects.

Lemma keeps_dirs_mirror_walk (fuel : nat) (dir : str) (r : result) :
  keeps_dirs (mirror_walk fuel dir r).
Proof.
  induction fuel as [|fuel IH]; cbn [mirror_walk]; [auto with effects|].
  step_dirs. destruct a as [link|]; [|auto with effects].
  step_dirs. destruct a; auto with effects.
Qed.

#[export] Hint Resolve keeps_dirs_mirror_walk : effects.

Lemma keeps_dirs_for_rows (fuel : nat) (dir : str) (have : bool) (prefs : list str)
      (rows : list result) :
  keeps_dirs (for_rows fuel dir have prefs rows).
Proof.
  induction rows as [|r rows IH]; cbn [for_rows]; [auto with effects|].
  destruct (skipped have prefs r); [exact IH|].
  step_dirs. destruct a; auto with effects.
Qed.

#[export] Hint Resolve keeps_dirs_for_rows : effects.

Lemma keeps_dirs_hunt_for_book (fuel : nat) (q : str) (prefs : list str) (dir t : str) :
  keeps_dirs (hunt_for_book fuel q prefs dir t).
Proof. unfold hunt_for_book. step_dirs. Qed.

#[export] Hint Resolve keeps_dirs_hunt_for_book : effects.


(** * Files of downloads

    Unless a run returns a value that counts as a success, every body it
    has stored comes from a stream that broke off. *)

Lemma safe_bind {A B} (sa : A -> Prop) (sb : B -> Prop) (m : M A) (k : A -> M B) :
  safe sa m -> (forall a, safe sb (k a)) ->
  (forall a w s, sa a -> exists b, out (k a w s) = Ret b /\ sb b) ->
  safe sb (bind m k).
Proof.
  intros Hm Hk Hgood w s Hfail. unfold bind in *.
  specialize (Hm w s). destruct (out (m w s)) as [a| |] eqn:E; cbn [out tr] in *.
  - apply Forall_app. split.
    + apply Hm. intros a' Ha' Hs. injection Ha' as <-.
      destruct (Hgood a w (st (m w s)) Hs) as [b [Hb Hsb]].
      exact (Hfail b Hb Hsb).
    + apply Hk. exact Hfail.
  - apply Hm. discriminate.
  - apply Hm. discriminate.
Qed.

Lemma safe_quiet_bind {A B} (sb : B -> Prop) (m : M A) (k : A -> M B) :
  safe never m -> (forall a, safe sb (k a)) -> safe sb (bind m k).
Proof. intros Hm Hk. apply (safe_bind never sb); auto. intros a w s []. Qed.

Lemma safe_weaken {A} (s1 s2 : A -> Prop) (m : M A) :
  (forall a, s1 a -> s2 a) -> safe s1 m -> safe s2 m.
Proof. intros H Hm w s Hf. apply Hm. intros a Ha Hs. exact (Hf a Ha (H a Hs)). Qed.

Lemma safe_silent {A} (sa : A -> Prop) (m : M A) :
  (forall w s, Forall broken_save (tr (m w s))) -> safe sa m.
Proof. intros H w s _. apply H. Qed.

Lemma safe_ret {A} (sa : A -> Prop) (a : A) : safe sa (ret a).
Proof. apply safe_silent. constructor. Qed.

Lemma safe_raise {A} (sa : A -> Prop) (e : exn) : safe sa (@raise A e).
Proof. apply safe_silent. constructor. Qed.

Lemma safe_diverge {A} (sa : A -> Prop) : safe sa (@diverge A).
Proof. apply safe_silent. constructor. Qed.

Lemma safe_makedirs (sa : unit -> Prop) (p : str) : safe sa (makedirs p).
Proof.
  apply safe_silent. intros w s. unfold makedirs. destruct p; [constructor|].
  destruct (can_mkdir w (clock s) _); repeat constructor.
Qed.

Lemma safe_requests_get (sa : response -> Prop) (r : request) : safe sa (requests_get r).
Proof.
  apply safe_silent. intros w s. unfold requests_get.
  destruct (reply w (clock s) r); repeat constructor.
Qed.

Lemma safe_raise_for_status (sa : unit -> Prop) (resp : response) :
  safe sa (raise_for_status resp).
Proof.
  apply safe_silent. intros w s. unfold raise_for_status.
  destruct (failed resp); constructor.
Qed.

Lemma safe_dump_page (sa : unit -> Prop) (p : str) : safe sa (dump_page p).
Proof.
  apply safe_silent. intros w s. unfold dump_page.
  destruct (opens p w s); repeat constructor.
Qed.

Lemma safe_time_sleep (sa : unit -> Prop) : safe sa time_sleep.
Proof. apply safe_silent. repeat constructor. Qed.

Lemma safe_the_time (sa : str -> Prop) : safe sa the_time.
Proof. apply safe_silent. constructor. Qed.

Lemma safe_basename_of (sa : str -> Prop) (u : str) : safe sa (basename_of u).
Proof. apply safe_silent. constructor. Qed.


#[export] Hint Resolve safe_ret safe_raise safe_diverge safe_makedirs safe_requests_get
  safe_raise_for_status safe_dump_page safe_time_sleep safe_the_time safe_basename_of
  : effects.

Ltac step_safe :=
  repeat first
    [ apply safe_quiet_bind; [solve [auto with effects]|intro]
    | progress auto with effects ].

Lemma safe_save_debug (sa : unit -> Prop) (name : str) : safe sa (save_debug name).
Proof. unfold save_debug. step_safe. Qed.

#[export] Hint Resolve safe_save_debug : effects.

Lemma safe_extract_from (sa : option str -> Prop) (fuel : nat) (links : list anchor) :
  forall cursor, safe sa (extract_from fuel links cursor).
Proof.
  induction fuel as [|fuel IH]; intro cursor; cbn [extract_from]; [auto with effects|].
  destruct links as [|l0 ls]; [auto with effects|].
  destruct (List.length (l0 :: ls) <=? cursor); [auto with effects|].
  destruct (nth_error (l0 :: ls) cursor) as [[[[|c h]|] t]|]; try apply IH.
  step_safe. destruct (find_get (soup a)) as [g|]; [|apply IH].
  destruct (a_href g); auto with effects.
Qed.

Lemma safe_extract_download_link (sa : option str -> Prop) (cell : td) (cursor : nat) :
  safe sa (extract_download_link cell cursor).
Proof. apply safe_extract_from. Qed.



#[export] Hint Resolve safe_extract_download_link : effects.





(** * [search_and_download_book] and the download directory *)





(** * [sorted]: the stable sort by key *)

Section SortedFacts.

Variable A : Type.
Variable key : A -> Q.

Lemma key_lt_true (x y : A) : key_lt key x y = true <-> (key x < key y)%Q.
Proof.
  unfold key_lt. rewrite negb_true_iff. split; intro H.
  - apply Qnot_le_lt. intro L. apply Qle_bool_iff in L. congruence.
  - destruct (Qle_bool (key y) (key x)) eqn:E; [|reflexivity].
    apply Qle_bool_iff in E. exfalso. exact (Qlt_not_le _ _ H E).
Qed.

Lemma key_lt_false (x y : A) : key_lt key x y = false <-> (key y <= key x)%Q.
Proof.
  unfold key_lt. rewrite negb_false_iff. apply Qle_bool_iff.
Qed.

Lemma insert_sorted_perm (x : A) (l : list A) :
  Permutation (x :: l) (insert_sorted key x l).
Proof.
  induction l as [|y l IH]; cbn [insert_sorted]; [reflexivity|].
  destruct (key_lt key y x); [|reflexivity].
  rewrite perm_swap. now apply perm_skip.
Qed.

Lemma sorted_perm (l : list A) : Permutation l (sorted key l).
Proof.
  induction l as [|x l IH]; cbn [sorted fold_right]; [reflexivity|].
  rewrite <- insert_sorted_perm. now apply perm_skip.
Qed.

Lemma insert_sorted_ascending (x : A) (l : list A) :
  ascending key l -> ascending key (insert_sorted key x l).
Proof.
  induction 1 as [|y l Hl IH Hy]; cbn [insert_sorted].
  - constructor; constructor.
  - destruct (key_lt key y x) eqn:E.
    + apply key_lt_true in E. constructor; [exact IH|].
      apply (Permutation_Forall (insert_sorted_perm x l)).
      constructor; [now apply Qlt_le_weak | exact Hy].
    + apply key_lt_false in E. constructor; [now constructor|].
      constructor; [exact E|].
      apply Forall_forall. intros z Hz. rewrite Forall_forall in Hy.
      eapply Qle_trans; [exact E | now apply Hy].
Qed.

Lemma sorted_ascending (l : list A) : ascending key (sorted key l).
Proof.
  induction l as [|x l IH]; cbn [sorted fold_right]; [constructor|].
  now apply insert_sorted_ascending.
Qed.

(** stability: the elements of one key keep their order *)
Lemma insert_sorted_filter (P : A -> bool) (x : A) (l : list A) :
  (forall a b, P a = true -> P b = true -> (key a == key b)%Q) ->
  filter P (insert_sorted key x l) = filter P (x :: l).
Proof.
  intro HP. induction l as [|y l IH]; cbn [insert_sorted]; [reflexivity|].
  destruct (key_lt key y x) eqn:E; [|reflexivity].
  cbn [filter] in *. rewrite IH.
  destruct (P y) eqn:Py, (P x) eqn:Px; try reflexivity.
  apply key_lt_true in E. rewrite (HP y x Py Px) in E.
  exfalso. exact (Qlt_irrefl _ E).
Qed.

Lemma sorted_filter (P : A -> bool) (l : list A) :
  (forall a b, P a = true -> P b = true -> (key a == key b)%Q) ->
  filter P (sorted key l) = filter P l.
Proof.
  intro HP. induction l as [|x l IH]; cbn [sorted fold_right]; [reflexivity|].
  rewrite (insert_sorted_filter P x _ HP). cbn [filter].
  fold (sorted key l). now rewrite IH.
Qed.

Lemma sorted_stable (v : Q) (l : list A) :
  filter (fun x => Qeq_bool (key x) v) (sorted key l)
  = filter (fun x => Qeq_bool (key x) v) l.
Proof.
  apply sorted_filter. intros a b Ha Hb.
  apply Qeq_bool_iff in Ha, Hb. now rewrite Ha, Hb.
Qed.

(** the elements of the least key come first, in their order *)
Lemma insert_sorted_least (x : A) (l : list A) :
  Forall (fun y => (key x <= key y)%Q) l -> insert_sorted key x l = x :: l.
Proof.
  intros H. destruct l as [|y l]; [reflexivity|]. cbn [insert_sorted].
  inversion H as [|? ? Hy _]; subst. apply key_lt_false in Hy. now rewrite Hy.
Qed.

Lemma insert_sorted_pass (x : A) (front l : list A) :
  Forall (fun y => (key y < key x)%Q) front ->
  insert_sorted key x (front ++ l) = front ++ insert_sorted key x l.
Proof.
  induction 1 as [|y front Hy _ IH]; [reflexivity|].
  cbn [app insert_sorted]. apply key_lt_true in Hy. now rewrite Hy, IH.
Qed.

Lemma sorted_least_first (m : Q) (l : list A) :
  Forall (fun x => (m <= key x)%Q) l ->
  sorted key l
  = filter (fun x => Qeq_bool (key x) m) l
    ++ sorted key (filter (fun x => negb (Qeq_bool (key x) m)) l).
Proof.
  induction 1 as [|x l Hx Hl IH]; [reflexivity|].
  cbn [sorted fold_right filter]. fold (sorted key l). rewrite IH.
  destruct (Qeq_bool (key x) m) eqn:E; cbn [negb].
  - apply Qeq_bool_iff in E. cbn [app]. apply insert_sorted_least.
    apply Forall_app. split.
    + apply Forall_forall. intros y Hy. apply filter_In in Hy.
      destruct Hy as [_ Hy]. apply Qeq_bool_iff in Hy. rewrite E, Hy. apply Qle_refl.
    + apply (Permutation_Forall (sorted_perm _)).
      apply Forall_forall. intros y Hy. apply filter_In in Hy.
      destruct Hy as [Hy _]. rewrite Forall_forall in Hl. rewrite E. now apply Hl.
  - cbn [sorted fold_right]. apply insert_sorted_pass.
    apply Forall_forall. intros y Hy. apply filter_In in Hy.
    destruct Hy as [_ Hy]. apply Qeq_bool_iff in Hy. rewrite Hy.
    apply Qle_lt_or_eq in Hx. destruct Hx as [Hx|Hx]; [exact Hx|].
    apply Qeq_bool_neq in E. exfalso. apply E. now symmetry.
Qed.

End SortedFacts.



(** * The matcher stays inside its window *)

Lemma get_set (d : Difflib.dict) (key v c : nat) :
  Difflib.get (Difflib.set d key v) c 0 = if key =? c then v else Difflib.get d c 0.
Proof. reflexivity. Qed.

Lemma fits_nil (alo blo i : nat) : fits alo blo i [].
Proof. intros [|j]; cbn; lia. Qed.

Section Window.

Variables a b : str.
Variables alo ahi blo bhi : nat.

Lemma scan_row_within (i : nat) (js : list nat) (d : Difflib.dict) :
  alo <= i < ahi -> fits alo blo i d ->
  forall (newd : Difflib.dict) (best : Difflib.block),
    fits alo blo (S i) newd -> within alo ahi blo bhi best ->
    fits alo blo (S i) (fst (Difflib.scan_row blo bhi i js d newd best))
    /\ within alo ahi blo bhi (snd (Difflib.scan_row blo bhi i js d newd best)).
Proof.
  intros Hi Hd. induction js as [|j js IH]; intros newd best Hn Hb; [now split|].
  cbn [Difflib.scan_row].
  destruct (j <? blo) eqn:E1; [now apply IH|]. apply Nat.ltb_ge in E1.
  destruct (bhi <=? j) eqn:E2; [now split|]. apply Nat.leb_gt in E2.
  destruct (Hd j) as [K1 K2].
  change (match j with O => 0 | S j1 => Difflib.get d j1 0 end) with (before d j).
  generalize dependent (before d j). intros v K1 K2.
  apply IH.
  - intros c. destruct c as [|c]; [cbn; lia|].
    cbn [before]. rewrite get_set. destruct (j =? c) eqn:E3.
    + apply Nat.eqb_eq in E3. subst c. lia.
    + apply (Hn (S c)).
  - destruct (Difflib.size best <? _); [|exact Hb].
    unfold within, blk_i, blk_j, Difflib.size. cbn [fst snd]. lia.
Qed.

Lemma scan_rows_within (n : nat) :
  forall (i : nat) (d : Difflib.dict) (best : Difflib.block),
    alo <= i -> i + n <= ahi -> fits alo blo i d -> within alo ahi blo bhi best ->
    within alo ahi blo bhi (Difflib.scan_rows a b blo bhi (seq i n) d best).
Proof.
  induction n as [|n IH]; intros i d best H1 H2 Hd Hb; [exact Hb|].
  cbn [seq Difflib.scan_rows].
  assert (Hi : alo <= i < ahi) by lia.
  destruct (scan_row_within i (Difflib.b2j b (Difflib.at_ a i)) d
              Hi Hd [] best (fits_nil _ _ _) Hb) as [Hn Hb'].
  destruct (Difflib.scan_row blo bhi i _ d [] best) as [newd best'].
  apply IH; try assumption; lia.
Qed.

Lemma extend_left_within (fuel : nat) :
  forall x, within alo ahi blo bhi x ->
            within alo ahi blo bhi (Difflib.extend_left a b fuel alo blo x).
Proof.
  induction fuel as [|fuel IH]; intros [[i j] k] H; [exact H|].
  cbn [Difflib.extend_left].
  destruct ((alo <? i) && (blo <? j) && _) eqn:E; [|exact H].
  apply andb_true_iff in E. destruct E as [E _].
  apply andb_true_iff in E. destruct E as [E1 E2].
  apply Nat.ltb_lt in E1, E2. apply IH.
  unfold within, blk_i, blk_j, Difflib.size in *. cbn [fst snd] in *. lia.
Qed.

Lemma extend_right_within (fuel : nat) :
  forall x, within alo ahi blo bhi x ->
            within alo ahi blo bhi (Difflib.extend_right a b fuel ahi bhi x).
Proof.
  induction fuel as [|fuel IH]; intros [[i j] k] H; [exact H|].
  cbn [Difflib.extend_right].
  destruct ((i + k <? ahi) && (j + k <? bhi) && _) eqn:E; [|exact H].
  apply andb_true_iff in E. destruct E as [E _].
  apply andb_true_iff in E. destruct E as [E1 E2].
  apply Nat.ltb_lt in E1, E2. apply IH.
  unfold within, blk_i, blk_j, Difflib.size in *. cbn [fst snd] in *. lia.
Qed.

Lemma find_longest_match_within :
  alo <= ahi -> blo <= bhi ->
  within alo ahi blo bhi (Difflib.find_longest_match a b alo ahi blo bhi).
Proof.
  intros Ha Hb. unfold Difflib.find_longest_match.
  apply extend_right_within, extend_left_within, scan_rows_within;
    try lia; [apply fits_nil|].
  unfold within, blk_i, blk_j, Difflib.size. cbn [fst snd]. lia.
Qed.

End Window.

(** * The number of matched characters *)

Lemma matched_le (a b : str) (fuel : nat) :
  forall alo ahi blo bhi,
    alo <= ahi -> blo <= bhi ->
    Difflib.matched a b fuel alo ahi blo bhi <= Nat.min (ahi - alo) (bhi - blo).
Proof.
  induction fuel as [|fuel IH]; intros alo ahi blo bhi Ha Hb; [cbn; lia|].
  cbn [Difflib.matched].
  pose proof (find_longest_match_within a b alo ahi blo bhi Ha Hb) as W.
  destruct (Difflib.find_longest_match a b alo ahi blo bhi) as [[i j] k].
  unfold within, blk_i, blk_j, Difflib.size in W. cbn [fst snd] in W.
  destruct (k =? 0); [lia|].
  assert (L : (if (alo <? i) && (blo <? j)
               then Difflib.matched a b fuel alo i blo j else 0)
              <= Nat.min (i - alo) (j - blo)).
  { destruct ((alo <? i) && (blo <? j)); [apply IH; lia | lia]. }
  assert (R : (if (i + k <? ahi) && (j + k <? bhi)
               then Difflib.matched a b fuel (i + k) ahi (j + k) bhi else 0)
              <= Nat.min (ahi - (i + k)) (bhi - (j + k))).
  { destruct ((i + k <? ahi) && (j + k <? bhi)); [apply IH; lia | lia]. }
  lia.
Qed.

(** the fuel given to [matched] is never used up *)
Lemma matched_fuel (a b : str) (fuel1 : nat) :
  forall fuel2 alo ahi blo bhi,
    alo <= ahi -> blo <= bhi -> ahi - alo < fuel1 -> ahi - alo < fuel2 ->
    Difflib.matched a b fuel1 alo ahi blo bhi = Difflib.matched a b fuel2 alo ahi blo bhi.
Proof.
  induction fuel1 as [|fuel1 IH]; intros fuel2 alo ahi blo bhi Ha Hb H1 H2; [lia|].
  destruct fuel2 as [|fuel2]; [lia|].
  cbn [Difflib.matched].
  pose proof (find_longest_match_within a b alo ahi blo bhi Ha Hb) as W.
  destruct (Difflib.find_longest_match a b alo ahi blo bhi) as [[i j] k].
  unfold within, blk_i, blk_j, Difflib.size in W. cbn [fst snd] in W.
  destruct (k =? 0) eqn:K; [reflexivity|]. apply Nat.eqb_neq in K.
  f_equal; [f_equal|].
  - destruct ((alo <? i) && (blo <? j)); [apply IH; lia | reflexivity].
  - destruct ((i + k <? ahi) && (j + k <? bhi)); [apply IH; lia | reflexivity].
Qed.

Lemma matches_le (a b : str) :
  2 * Difflib.matches a b <= List.length a + List.length b.
Proof.
  unfold Difflib.matches.
  pose proof (matched_le a b (S (List.length a)) 0 (List.length a) 0 (List.length b)
                (Nat.le_0_l _) (Nat.le_0_l _)).
  lia.
Qed.

Lemma ratio_range (a b : str) : (0 <= Difflib.ratio a b <= 1)%Q.
Proof.
  unfold Difflib.ratio. pose proof (matches_le a b) as H.
  destruct (List.length a + List.length b) as [|t] eqn:E.
  - split; [discriminate | apply Qle_refl].
  - unfold Qle. cbn [Qnum Qden]. split.
    + rewrite Z.mul_1_r. cbn [Z.mul]. lia.
    + rewrite Z.mul_1_r, Z.mul_1_l, <- Pos.of_nat_succ, Zpos_P_of_succ_nat. lia.
Qed.



(** * The occurrences of a character *)

Lemma indices_from_In (c : ascii) (b : str) :
  forall j0 e,
    In e (Difflib.indices_from c j0 b)
    <-> j0 <= e < j0 + List.length b /\ Difflib.at_ b (e - j0) = c.
Proof.
  unfold Difflib.at_.
  induction b as [|x b IH]; intros j0 e; cbn [Difflib.indices_from List.length].
  - split; [intros [] | lia].
  - assert (Hrec : In e (Difflib.indices_from c (S j0) b)
                   <-> j0 < e < j0 + S (List.length b) /\ nth (e - j0) (x :: b) Ascii.zero = c).
    { rewrite IH. split; intros [H1 H2].
      - split; [lia|]. replace (e - j0) with (S (e - S j0)) by lia. exact H2.
      - split; [lia|]. replace (e - j0) with (S (e - S j0)) in H2 by lia. exact H2. }
    destruct (Ascii.eqb x c) eqn:E.
    + apply Ascii.eqb_eq in E. subst x. cbn [In]. rewrite Hrec. split.
      * intros [<-|[H1 H2]]; [|split; [lia | exact H2]].
        split; [lia|]. now rewrite Nat.sub_diag.
      * intros [H1 H2]. destruct (Nat.eq_dec j0 e) as [->|Hne]; [now left|].
        right. split; [lia | exact H2].
    + rewrite Hrec. split; intros [H1 H2].
      * split; [lia | exact H2].
      * split; [|exact H2]. destruct (Nat.eq_dec j0 e) as [->|Hne]; [|lia].
        exfalso. rewrite Nat.sub_diag in H2. cbn in H2. subst x.
        rewrite Ascii.eqb_refl in E. discriminate.
Qed.

Lemma indices_from_sorted (c : ascii) (b : str) :
  forall j0, StronglySorted lt (Difflib.indices_from c j0 b).
Proof.
  induction b as [|x b IH]; intro j0; cbn [Difflib.indices_from]; [constructor|].
  destruct (Ascii.eqb x c); [|apply IH].
  constructor; [apply IH|]. apply Forall_forall. intros e He.
  apply indices_from_In in He. lia.
Qed.

(** * A string against itself *)

Section Same.

Variable x : str.

Local Abbreviation n := (List.length x).

Lemma scan_row_same (i : nat) (d : Difflib.dict) :
  Difflib.popular x (Difflib.at_ x i) = false ->
  (forall j, before d j <= clear_run x i /\ before d j <= clear_run x j) ->
  before d i = clear_run x i ->
  forall (js : list nat) (newd : Difflib.dict) (best : Difflib.block),
    StronglySorted lt js ->
    (forall j, In j js -> j < n /\ Difflib.at_ x j = Difflib.at_ x i) ->
    diagonal best -> covers x i best -> row_fits x (S i) newd ->
    (In i js \/ (Difflib.get newd i 0 = clear_run x (S i)
                 /\ clear_run x (S i) <= Difflib.size best
                 /\ forall j, In j js -> i < j)) ->
    let r := Difflib.scan_row 0 n i js d newd best in
    diagonal (snd r) /\ covers x (S i) (snd r) /\ row_fits x (S i) (fst r)
    /\ Difflib.get (fst r) i 0 = clear_run x (S i).
Proof.
  intros Hpop Hd Hdi.
  assert (Hsi : clear_run x (S i) = S (clear_run x i)) by (cbn [clear_run]; now rewrite Hpop).
  induction js as [|j js IH]; intros newd best Hs Hjs Hdiag Hcov Hfit Hseen; cbv zeta.
  - cbn [Difflib.scan_row fst snd].
    destruct Hseen as [[]|[H1 [H2 _]]].
    repeat split; try assumption; try apply Hfit.
    intros t Ht. destruct (Nat.eq_dec t (S i)) as [->|Hne]; [exact H2|].
    apply Hcov. lia.
  - cbn [Difflib.scan_row]. change (j <? 0) with false. cbv iota.
    destruct (Hjs j (or_introl eq_refl)) as [Hjn Hjc].
    apply Nat.leb_gt in Hjn. rewrite Hjn. cbv zeta.
    change (match j with O => 0 | S j1 => Difflib.get d j1 0 end) with (before d j).
    assert (Hsj : clear_run x (S j) = S (clear_run x j))
      by (cbn [clear_run]; now rewrite Hjc, Hpop).
    destruct (Hd j) as [K1 K2].
    inversion Hs as [|? ? Hs' Hlt]; subst.
    rewrite Forall_forall in Hlt.
    assert (Hfit' : row_fits x (S i) (Difflib.set newd j (before d j + 1))).
    { intro c. rewrite get_set. destruct (j =? c) eqn:E; [|apply Hfit].
      apply Nat.eqb_eq in E. subst c. lia. }
    assert (Hjs' : forall j0, In j0 js -> j0 < n /\ Difflib.at_ x j0 = Difflib.at_ x i)
      by (intros j0 Hj0; apply Hjs; now right).
    destruct (Nat.lt_trichotomy j i) as [Hji|[Hji|Hji]].
    + (* a column left of the diagonal *)
      assert (Hk : (Difflib.size best <? before d j + 1) = false).
      { apply Nat.ltb_ge. specialize (Hcov (S j) Hji). lia. }
      rewrite Hk. apply IH; try assumption.
      destruct Hseen as [[Hi|Hi]|[_ [_ Hi]]].
      * lia.
      * now left.
      * specialize (Hi j (or_introl eq_refl)). lia.
    + (* the diagonal *)
      subst j. rewrite Hdi.
      set (best' := if Difflib.size best <? clear_run x i + 1
                    then (i + 1 - (clear_run x i + 1), i + 1 - (clear_run x i + 1),
                          clear_run x i + 1)
                    else best).
      assert (Hd' : diagonal best')
        by (unfold best'; destruct (Difflib.size best <? _); [reflexivity | exact Hdiag]).
      assert (Hsz : Difflib.size best <= Difflib.size best'
                    /\ clear_run x (S i) <= Difflib.size best').
      { unfold best'. destruct (Difflib.size best <? clear_run x i + 1) eqn:E.
        - apply Nat.ltb_lt in E. unfold Difflib.size at 2 3. cbn [snd]. lia.
        - apply Nat.ltb_ge in E. lia. }
      apply IH; try assumption.
      * intros t Ht. specialize (Hcov t Ht). lia.
      * rewrite Hdi in Hfit'. exact Hfit'.
      * right. rewrite get_set, Nat.eqb_refl. repeat split; try lia.
        intros j Hj. now apply Hlt.
    + (* a column right of the diagonal *)
      destruct Hseen as [[Hi|Hi]|[H1 [H2 H3]]].
      * lia.
      * specialize (Hlt i Hi). lia.
      * assert (Hk : (Difflib.size best <? before d j + 1) = false)
          by (apply Nat.ltb_ge; lia).
        rewrite Hk. apply IH; try assumption.
        right. rewrite get_set.
        replace (j =? i) with false by (symmetry; apply Nat.eqb_neq; lia).
        repeat split; try assumption. intros j0 Hj0. apply H3. now right.
Qed.

Lemma b2j_same (i : nat) :
  i < n -> Difflib.popular x (Difflib.at_ x i) = false ->
  StronglySorted lt (Difflib.b2j x (Difflib.at_ x i))
  /\ (forall j, In j (Difflib.b2j x (Difflib.at_ x i)) ->
                j < n /\ Difflib.at_ x j = Difflib.at_ x i)
  /\ In i (Difflib.b2j x (Difflib.at_ x i)).
Proof.
  intros Hi Hpop. unfold Difflib.b2j. rewrite Hpop.
  split; [apply indices_from_sorted|]. split.
  - intros j Hj. apply indices_from_In in Hj. rewrite Nat.sub_0_r in Hj.
    split; [lia | tauto].
  - apply indices_from_In. rewrite Nat.sub_0_r. split; [lia | reflexivity].
Qed.

Lemma scan_rows_same (m : nat) :
  forall (i : nat) (d : Difflib.dict) (best : Difflib.block),
    i + m <= n ->
    (forall j, before d j <= clear_run x i /\ before d j <= clear_run x j) ->
    before d i = clear_run x i ->
    diagonal best -> covers x i best ->
    diagonal (Difflib.scan_rows x x 0 n (seq i m) d best).
Proof.
  induction m as [|m IH]; intros i d best Hi Hd Hdi Hdiag Hcov; [exact Hdiag|].
  cbn [seq Difflib.scan_rows].
  destruct (Difflib.popular x (Difflib.at_ x i)) eqn:Hpop.
  - unfold Difflib.b2j. rewrite Hpop. cbn [Difflib.scan_row].
    assert (Hz : clear_run x (S i) = 0) by (cbn [clear_run]; now rewrite Hpop).
    apply IH; try assumption; try lia.
    + intros [|j]; cbn [before Difflib.get]; lia.
    + cbn [before Difflib.get]. now rewrite Hz.
    + intros t Ht. destruct (Nat.eq_dec t (S i)) as [->|Hne]; [lia|].
      apply Hcov. lia.
  - destruct (b2j_same i ltac:(lia) Hpop) as [Hs [Hjs Hin]].
    assert (Hnil : row_fits x (S i) []) by (intro c; cbn [Difflib.get]; lia).
    pose proof (scan_row_same i d Hpop Hd Hdi _ [] best Hs Hjs Hdiag Hcov Hnil
                  (or_introl Hin)) as H.
    cbv zeta in H.
    destruct (Difflib.scan_row 0 n i _ d [] best) as [newd best'].
    cbn [fst snd] in H. destruct H as [H1 [H2 [H3 H4]]].
    apply IH; try assumption; try lia.
    intros [|j]; cbn [before]; [lia | apply H3].
Qed.

Lemma extend_left_same (fuel : nat) :
  forall i k, i <= fuel ->
              Difflib.extend_left x x fuel 0 0 (i, i, k) = (0, 0, k + i).
Proof.
  induction fuel as [|fuel IH]; intros i k Hi.
  - replace i with 0 by lia. cbn. f_equal. lia.
  - cbn [Difflib.extend_left]. destruct i as [|i].
    + cbn. f_equal. lia.
    + cbn [Nat.ltb Nat.leb andb]. rewrite Ascii.eqb_refl.
      rewrite Nat.sub_succ, Nat.sub_0_r, IH by lia. f_equal. lia.
Qed.

Lemma extend_right_same (fuel : nat) :
  forall k, k <= n -> n - k <= fuel ->
            Difflib.extend_right x x fuel n n (0, 0, k) = (0, 0, n).
Proof.
  induction fuel as [|fuel IH]; intros k Hk Hf.
  - cbn. f_equal. lia.
  - cbn [Difflib.extend_right Nat.add].
    destruct (k <? n) eqn:E.
    + cbn [andb]. rewrite Ascii.eqb_refl. apply Nat.ltb_lt in E. apply IH; lia.
    + apply Nat.ltb_ge in E. cbn [andb]. f_equal. lia.
Qed.

Lemma find_longest_match_same :
  Difflib.find_longest_match x x 0 n 0 n = (0, 0, n).
Proof.
  unfold Difflib.find_longest_match. rewrite Nat.sub_0_r.
  pose proof (scan_rows_same n 0 [] (0, 0, 0)) as Hdiag.
  pose proof (scan_rows_within x x 0 n 0 n n 0 [] (0, 0, 0)) as Hwin.
  destruct (Difflib.scan_rows x x 0 n (seq 0 n) [] (0, 0, 0)) as [[i j] k].
  assert (Hd : diagonal (i, j, k)).
  { apply Hdiag; try reflexivity; try lia.
    - intros [|c]; cbn [before Difflib.get]; lia.
    - intros t Ht. replace t with 0 by lia. cbn. lia. }
  assert (Hw : within 0 n 0 n (i, j, k)).
  { apply Hwin; try lia; [apply fits_nil|].
    unfold within, blk_i, blk_j, Difflib.size. cbn [fst snd]. lia. }
  unfold diagonal, blk_i, blk_j in Hd. cbn [fst snd] in Hd. subst j.
  unfold within, blk_i, blk_j, Difflib.size in Hw. cbn [fst snd] in Hw.
  cbn [fst]. rewrite extend_left_same by lia. apply extend_right_same; lia.
Qed.

Lemma matches_same : Difflib.matches x x = n.
Proof.
  unfold Difflib.matches. cbn [Difflib.matched].
  rewrite find_longest_match_same.
  destruct (n =? 0) eqn:E; [apply Nat.eqb_eq in E; lia|].
  rewrite Nat.ltb_irrefl. cbn [andb Nat.add].
  rewrite Nat.ltb_irrefl. cbn [andb]. lia.
Qed.

Lemma ratio_same : (Difflib.ratio x x == 1)%Q.
Proof.
  unfold Difflib.ratio. rewrite matches_same.
  destruct (n + n) as [|t] eqn:E; [reflexivity|].
  unfold Qeq. cbn [Qnum Qden].
  rewrite Z.mul_1_r, Z.mul_1_l, <- Pos.of_nat_succ, Zpos_P_of_succ_nat. lia.
Qed.

End Same.



(** * Ranking *)

Lemma closest_match_range (real_title candidate_title : str) :
  (0 <= closest_match real_title candidate_title <= 1)%Q.
Proof. apply ratio_range. Qed.

Lemma closest_match_same (real_title candidate_title : str) :
  Str.lower candidate_title = Str.lower real_title ->
  (closest_match real_title candidate_title == 1)%Q.
Proof. intro H. unfold closest_match. rewrite H. apply ratio_same. Qed.

Lemma Qeq_bool_opp (p q : Q) : Qeq_bool (- p) (- q) = Qeq_bool p q.
Proof.
  destruct (Qeq_bool p q) eqn:E.
  - apply Qeq_bool_iff in E. apply Qeq_bool_iff. now rewrite E.
  - destruct (Qeq_bool (- p) (- q)) eqn:E'; [|reflexivity].
    apply Qeq_bool_iff in E'. apply Qeq_bool_neq in E. exfalso. apply E.
    rewrite <- (Qopp_involutive p), <- (Qopp_involutive q). now rewrite E'.
Qed.

Lemma ranking_sorted (real_title : str) (rows : list result) :
  let ranked := order_results_by_closest_match real_title rows in
  Permutation rows ranked
  /\ StronglySorted (fun x y => (score real_title y <= score real_title x)%Q) ranked
  /\ (forall v : Q,
         filter (fun r => Qeq_bool (score real_title r) v) ranked
         = filter (fun r => Qeq_bool (score real_title r) v) rows)
  /\ ranked = filter (top real_title) rows
              ++ order_results_by_closest_match
                   real_title (filter (fun r => negb (top real_title r)) rows).
Proof.
  cbv zeta. unfold order_results_by_closest_match.
  set (key := fun x : result => rank_key real_title (title x)).
  split; [apply sorted_perm|]. split; [|split].
  - pose proof (sorted_ascending result key rows) as H. unfold ascending in H.
    induction H as [|x l Hl IH Hx]; constructor; [exact IH|].
    apply Forall_forall. intros y Hy. rewrite Forall_forall in Hx.
    specialize (Hx y Hy). unfold key, rank_key in Hx.
    apply Qopp_le_compat in Hx. rewrite !Qopp_involutive in Hx. exact Hx.
  - intro v. apply sorted_filter. intros a b Ha Hb.
    apply Qeq_bool_iff in Ha, Hb. unfold key, rank_key. unfold score in Ha, Hb.
    now rewrite Ha, Hb.
  - rewrite (sorted_least_first result key (- (1))%Q rows).
    + f_equal; [|f_equal]; apply filter_ext; intro r; unfold key, rank_key, top, score;
        now rewrite Qeq_bool_opp.
    + apply Forall_forall. intros r _. unfold key, rank_key.
      apply Qopp_le_compat. apply closest_match_range.
Qed.

Lemma ranking_example (r1 r2 r3 : result) :
  title r1 = "Atomic Habits" -> title r2 = "Atomic Habit" -> title r3 = "Random Book" ->
  order_results_by_closest_match "Atomic Habits" [r1; r2; r3] = [r1; r2; r3]
  /\ order_results_by_closest_match "Atomic Habits" [r3; r2; r1] = [r1; r2; r3].
Proof.
  intros H1 H2 H3. unfold order_results_by_closest_match, sorted.
  cbn [fold_right insert_sorted]. unfold key_lt. rewrite H1, H2, H3.
  assert (E12 : Qle_bool (rank_key "Atomic Habits" "Atomic Habits")
                         (rank_key "Atomic Habits" "Atomic Habit") = true)
    by (vm_compute; reflexivity).
  assert (E23 : Qle_bool (rank_key "Atomic Habits" "Atomic Habit")
                         (rank_key "Atomic Habits" "Random Book") = true)
    by (vm_compute; reflexivity).
  assert (E13 : Qle_bool (rank_key "Atomic Habits" "Atomic Habits")
                         (rank_key "Atomic Habits" "Random Book") = true)
    by (vm_compute; reflexivity).
  assert (E21 : Qle_bool (rank_key "Atomic Habits" "Atomic Habit")
                         (rank_key "Atomic Habits" "Atomic Habits") = false)
    by (vm_compute; reflexivity).
  assert (E32 : Qle_bool (rank_key "Atomic Habits" "Random Book")
                         (rank_key "Atomic Habits" "Atomic Habit") = false)
    by (vm_compute; reflexivity).
  assert (E31 : Qle_bool (rank_key "Atomic Habits" "Random Book")
                         (rank_key "Atomic Habits" "Atomic Habits") = false)
    by (vm_compute; reflexivity).
  split;
    repeat (progress (cbn [negb insert_sorted]; unfold key_lt;
                      rewrite ?H1, ?H2, ?H3, ?E12, ?E23, ?E13, ?E21, ?E32, ?E31));
    reflexivity.
Qed.

(** C8: the ranked rows are a permutation of the rows, in descending
    order of similarity; rows of one score keep their order; the rows of
    score 1 come first, in their order, and a row whose title equals the real
    title up to case has score 1; scores lie between 0 and 1; and the three
    titles of the example are ranked exact match first, unrelated title last,
    from either order of the input. *)
Theorem order_results_by_closest_match_spec :
  (forall (real_title : str) (rows : list result),
      let ranked := order_results_by_closest_match real_title rows in
      Permutation rows ranked
      /\ StronglySorted (fun x y => (score real_title y <= score real_title x)%Q) ranked
      /\ (forall v : Q,
             filter (fun r => Qeq_bool (score real_title r) v) ranked
             = filter (fun r => Qeq_bool (score real_title r) v) rows)
      /\ ranked = filter (top real_title) rows
                  ++ order_results_by_closest_match
                       real_title (filter (fun r => negb (top real_title r)) rows))
  /\ (forall real_title candidate_title : str,
         (0 <= closest_match real_title candidate_title <= 1)%Q)
  /\ (forall (real_title : str) (r : result),
         Str.lower (title r) = Str.lower real_title -> top real_title r = true)
  /\ (forall r1 r2 r3 : result,
         title r1 = "Atomic Habits" -> title r2 = "Atomic Habit" ->
         title r3 = "Random Book" ->
         order_results_by_closest_match "Atomic Habits" [r1; r2; r3] = [r1; r2; r3]
         /\ order_results_by_closest_match "Atomic Habits" [r3; r2; r1] = [r1; r2; r3]).
Proof.
  split; [exact ranking_sorted|]. split; [exact closest_match_range|].
  split; [|exact ranking_example].
  intros real_title r H. apply Qeq_bool_iff. now apply closest_match_same.
Qed.

(** C8 at concrete rows *)
Lemma order_results_by_closest_match_spec_witness :
  top "Atomic Habits" (Sample.row "ATOMIC HABITS" "epub" []) = true
  /\ order_results_by_closest_match
       "Atomic Habits"
       [Sample.row "Random Book" "pdf" []; Sample.row "Atomic Habit" "pdf" [];
        Sample.row "Atomic Habits" "pdf" []]
     = [Sample.row "Atomic Habits" "pdf" []; Sample.row "Atomic Habit" "pdf" [];
        Sample.row "Random Book" "pdf" []].
Proof.
  split.
  - apply (proj1 (proj2 (proj2 order_results_by_closest_match_spec))). reflexivity.
  - apply (proj2 (proj2 (proj2 (proj2 order_results_by_closest_match_spec))
                    (Sample.row "Atomic Habits" "pdf" []) (Sample.row "Atomic Habit" "pdf" [])
                    (Sample.row "Random Book" "pdf" []) eq_refl eq_refl eq_refl)).
Defined.

(** * The rest of the module, and the callers in [main.py] *)

(** * Absolute URLs *)

Lemma startswith_app (p s : str) : Str.startswith p (p ++ s) = true.
Proof.
  induction p as [|c p IH]; [reflexivity|].
  simpl. now rewrite Ascii.eqb_refl, IH.
Qed.

Lemma make_absolute_url_http (url : str) :
  Str.startswith "http" (make_absolute_url url) = true.
Proof.
  unfold make_absolute_url.
  destruct (Str.startswith "http" url) eqn:E; [exact E|].
  destruct (Str.startswith "/" url); reflexivity.
Qed.

(** X1 ([make_absolute_url]): the result always starts with [http], a URL
    that starts with [http] is returned as it is, and making a URL absolute
    twice is the same as once. *)
Theorem make_absolute_url_idempotent (url : str) :
  Str.startswith "http" (make_absolute_url url) = true
  /\ (Str.startswith "http" url = true -> make_absolute_url url = url)
  /\ make_absolute_url (make_absolute_url url) = make_absolute_url url.
Proof.
  pose proof (make_absolute_url_http url) as H.
  split; [exact H|]. split.
  - intro E. unfold make_absolute_url. now rewrite E.
  - unfold make_absolute_url at 1. now rewrite H.
Qed.

(** X1 at a URL of the site *)
Lemma make_absolute_url_idempotent_witness :
  make_absolute_url "https://libgen.li/ads.php?md5=0a" = "https://libgen.li/ads.php?md5=0a".
Proof.
  apply (proj1 (proj2 (make_absolute_url_idempotent "https://libgen.li/ads.php?md5=0a"))).
  reflexivity.
Defined.

(** * Quoting a search query *)

Lemma quote_char_reserved (c : ascii) : forallb unreserved_or_escape (quote_char c) = true.
Proof. destruct c as [[] [] [] [] [] [] [] []]; vm_compute; reflexivity. Qed.

Lemma quote_reserved (s : str) : forallb unreserved_or_escape (quote s) = true.
Proof.
  induction s as [|c s IH]; [reflexivity|].
  unfold quote. cbn [flat_map]. rewrite forallb_app.
  rewrite quote_char_reserved. exact IH.
Qed.

Lemma quote_char_unreserved (c : ascii) : unreserved c = true -> quote_char c = [c].
Proof. unfold quote_char, unreserved. now intros ->. Qed.

(** X2 ([get_search_url], [quote]): the search URL is the fixed address,
    the encoded query and the fixed column parameters; the encoded query
    holds only letters, digits, [_.-~/] and the percent sign of an escape,
    so none of [&], [=], [?], [#], [+] or a blank; a query of unreserved
    characters is sent as it is. *)
Theorem get_search_url_encoded (search_query : str) :
  (exists tail, forall q, get_search_url q = LIBGEN_BASE_URL ++ "/index.php?req=" ++ quote q ++ tail)
  /\ Forall (fun c => unreserved c = true \/ c = "%"%char) (quote search_query)
  /\ (forall c, In c ["&"; "="; "?"; "#"; "+"; " "]%char -> ~ In c (quote search_query))
  /\ (Forall (fun c => unreserved c = true) search_query -> quote search_query = search_query).
Proof.
  assert (H : Forall (fun c => unreserved c = true \/ c = "%"%char) (quote search_query)).
  { apply Forall_forall. intros c Hc.
    pose proof (quote_reserved search_query) as Hq.
    rewrite forallb_forall in Hq. specialize (Hq c Hc).
    unfold unreserved_or_escape in Hq. apply orb_true_iff in Hq.
    destruct Hq as [Hq | Hq]; [now left | right].
    apply Ascii.eqb_eq in Hq. now symmetry. }
  split; [|split; [exact H|split]].
  - eexists. intro q. reflexivity.
  - intros c Hc Hin. rewrite Forall_forall in H. specialize (H c Hin).
    simpl in Hc.
    repeat (destruct Hc as [<- | Hc]; [destruct H as [H | H]; discriminate H|]).
    exact Hc.
  - clear H. induction 1 as [|c s Hc Hs IH]; [reflexivity|].
    unfold quote. cbn [flat_map]. rewrite (quote_char_unreserved c Hc).
    simpl. f_equal. exact IH.
Qed.

(** X2 at a query with reserved characters and at a query without *)
Lemma get_search_url_encoded_witness :
  ~ In "&"%char (quote "R&D: a 101?") /\ quote "dune/herbert" = "dune/herbert".
Proof.
  split.
  - apply (proj1 (proj2 (proj2 (get_search_url_encoded "R&D: a 101?")))). now left.
  - apply (proj2 (proj2 (proj2 (get_search_url_encoded "dune/herbert")))).
    repeat constructor.
Defined.

Lemma unquote_quote_char (c : ascii) (s : str) :
  unquote (quote_char c ++ s) = c :: unquote s.
Proof. destruct c as [[] [] [] [] [] [] [] []]; reflexivity. Qed.

Lemma unquote_quote (s : str) : unquote (quote s) = s.
Proof.
  induction s as [|c s IH]; [reflexivity|].
  unfold quote. cbn [flat_map]. rewrite unquote_quote_char.
  f_equal. exact IH.
Qed.

(** X3 ([get_search_url]): the encoding loses nothing: two queries with
    the same search URL are the same query. *)
Theorem get_search_url_injective (q1 q2 : str) :
  get_search_url q1 = get_search_url q2 -> q1 = q2.
Proof.
  unfold get_search_url. intro H.
  apply app_inv_head in H. apply app_inv_head in H. apply app_inv_tail in H.
  rewrite <- (unquote_quote q1), <- (unquote_quote q2). now rewrite H.
Qed.

(** X3 at one query *)
Lemma get_search_url_injective_witness :
  list_ascii_of_string "Dune Frank Herbert" = list_ascii_of_string "Dune Frank Herbert".
Proof.
  apply (get_search_url_injective "Dune Frank Herbert" "Dune Frank Herbert"). reflexivity.
Defined.

(** * File names *)

Lemma drop_while_In (p : ascii -> bool) (c : ascii) (s : str) :
  p c = false -> In c s -> In c (Str.drop_while p s).
Proof.
  intro Hp. induction s as [|x s IH]; simpl; [tauto|].
  intros [-> | Hin].
  - rewrite Hp. now left.
  - destruct (p x); [now apply IH | now right].
Qed.

Lemma strip_by_In (p : ascii -> bool) (c : ascii) (s : str) :
  p c = false -> In c s -> In c (Str.strip_by p s).
Proof.
  intros Hp Hin. unfold Str.strip_by.
  apply in_rev. rewrite rev_involutive.
  apply drop_while_In; [exact Hp|]. apply in_rev. rewrite rev_involutive.
  now apply drop_while_In.
Qed.

Lemma rfind_In (c : ascii) (s : str) (i k : nat) : rfind c i s = Some k -> In c s.
Proof.
  revert i k; induction s as [|x s IH]; intros i k; simpl; [discriminate|].
  destruct (rfind c (S i) s) eqn:E.
  - intros _. right. eapply IH. exact E.
  - destruct (Ascii.eqb c x) eqn:Ec; [|discriminate].
    intros _. left. apply Ascii.eqb_eq in Ec. now symmetry.
Qed.

Lemma splitext_ext_dot (p : str) : splitext_ext p <> [] -> In "."%char p.
Proof.
  unfold splitext_ext. destruct (rfind "." 0 p) eqn:E; [|congruence].
  intros _. eapply rfind_In. exact E.
Qed.

Lemma underscore_unsafe_id (c : ascii) : filename_char c = true -> underscore_unsafe c = c.
Proof. unfold underscore_unsafe. now intros ->. Qed.

Lemma sanitize_filename_Forall (f : str) :
  Forall (fun c => filename_char c = true) (sanitize_filename f).
Proof.
  rewrite sanitize_filename_map. apply strip_by_Forall.
  apply Forall_forall. intros c Hc. apply in_map_iff in Hc.
  destruct Hc as [x [<- _]]. apply underscore_unsafe_ok.
Qed.

Lemma sanitize_filename_dot (f : str) : In "."%char f -> In "."%char (sanitize_filename f).
Proof.
  intro H. rewrite sanitize_filename_map. apply strip_by_In; [reflexivity|].
  apply in_map_iff. exists "."%char. split; [reflexivity | exact H].
Qed.

Lemma resolve_filename_dot (content_disposition : option str) (url_name stamp : str) :
  In "."%char (resolve_filename content_disposition url_name stamp).
Proof.
  unfold resolve_filename. cbv zeta.
  apply sanitize_filename_dot.
  match goal with |- In _ (match splitext_ext ?f with _ => _ end) => remember f as f0 end.
  destruct (splitext_ext f0) eqn:E.
  - apply in_or_app. right. simpl. now left.
  - apply splitext_ext_dot. rewrite E. discriminate.
Qed.

(** X8 ([download_book], lines 322-344): whatever the header and the URL
    say, the name under which the file is stored has a dot, holds only
    letters, digits, [.], [-], [_] and blanks, so no slash and no backslash,
    and neither starts nor ends with white space. *)
Theorem resolve_filename_safe (content_disposition : option str) (url_name stamp : str) :
  let name := resolve_filename content_disposition url_name stamp in
  In "."%char name
  /\ Forall (fun c => filename_char c = true) name
  /\ ~ In "/"%char name /\ ~ In "\"%char name
  /\ Str.strip name = name.
Proof.
  cbv zeta.
  assert (HF : forall f, Forall (fun c => filename_char c = true) (sanitize_filename f)
               /\ ~ In "/"%char (sanitize_filename f) /\ ~ In "\"%char (sanitize_filename f)
               /\ Str.strip (sanitize_filename f) = sanitize_filename f).
  { intro f. pose proof (sanitize_filename_Forall f) as H.
    split; [exact H|]. rewrite Forall_forall in H.
    split; [|split].
    - intro Hin. specialize (H _ Hin). discriminate H.
    - intro Hin. specialize (H _ Hin). discriminate H.
    - unfold sanitize_filename, Str.strip. apply strip_by_idem. }
  split; [apply resolve_filename_dot | apply HF].
Qed.

(** X9 (the two clean-up lines of [download_book], 343-344): cleaning a
    file name a second time changes nothing, and a name of allowed
    characters without white space at either end is kept as it is. *)
Theorem sanitize_filename_idempotent (f : str) :
  sanitize_filename (sanitize_filename f) = sanitize_filename f
  /\ (Forall (fun c => filename_char c = true) f -> Str.strip f = f -> sanitize_filename f = f).
Proof.
  assert (H : forall g, Forall (fun c => filename_char c = true) g ->
                        sanitize_filename g = Str.strip g).
  { intros g Hg. rewrite sanitize_filename_map. f_equal.
    induction Hg as [|c g Hc Hg IH]; [reflexivity|].
    simpl. now rewrite (underscore_unsafe_id c Hc), IH. }
  split.
  - rewrite (H _ (sanitize_filename_Forall f)).
    unfold sanitize_filename, Str.strip. apply strip_by_idem.
  - intros Hf Hs. rewrite (H _ Hf). exact Hs.
Qed.

(** X9 at a name that is clean already *)
Lemma sanitize_filename_idempotent_witness :
  sanitize_filename "Dune - Frank Herbert.epub" = "Dune - Frank Herbert.epub".
Proof.
  apply (proj2 (sanitize_filename_idempotent "Dune - Frank Herbert.epub")).
  - repeat constructor.
  - reflexivity.
Defined.

(** * The shape of a cleaned title *)

Lemma single_spaced_blanks (s : str) (b : bool) :
  single_spaced b s = true -> Forall (fun c => Char.is_space c = true -> c = " "%char) s.
Proof.
  revert b; induction s as [|c s IH]; intros b H; [constructor|].
  cbn [single_spaced] in H. destruct (Char.is_space c) eqn:E.
  - apply andb_true_iff in H. destruct H as [H Hs].
    apply andb_true_iff in H. destruct H as [Hc _].
    apply Ascii.eqb_eq in Hc. constructor; [intros _; now symmetry | now apply IH in Hs].
  - constructor; [congruence | now apply IH in H].
Qed.

Lemma single_spaced_apart (l1 l2 : str) (x y : ascii) (b : bool) :
  single_spaced b (l1 ++ x :: y :: l2) = true ->
  Char.is_space x = true -> Char.is_space y = false.
Proof.
  intros H Hx. apply single_spaced_suffix in H.
  cbn [single_spaced] in H. rewrite Hx in H.
  destruct (Char.is_space y); [|reflexivity].
  cbn [negb] in H. rewrite !andb_false_r in H. discriminate H.
Qed.

Lemma squeeze_single_spaced (s : str) : single_spaced false (squeeze s) = true.
Proof.
  rewrite squeeze_collapse. unfold Str.strip.
  destruct (strip_by_infix Char.is_space (collapse false s)) as [l1 [l2 H]].
  pose proof (collapse_single_spaced s false) as Hs. rewrite H in Hs.
  apply single_spaced_suffix in Hs. now apply single_spaced_prefix in Hs.
Qed.

(** X12 ([clean_title]): a cleaned title has no colon, neither starts nor
    ends with white space, holds no white space but the blank and no two
    blanks in a row, and is never longer than the title it was made from. *)
Theorem clean_title_normal_form (t : str) :
  let c := clean_title t in
  ~ In ":"%char c
  /\ Str.strip c = c
  /\ Forall (fun x => Char.is_space x = true -> x = " "%char) c
  /\ (forall l1 l2 x y, c = l1 ++ x :: y :: l2 -> Char.is_space x = true -> Char.is_space y = false)
  /\ List.length c <= List.length t.
Proof.
  cbv zeta. split; [|split; [|split; [|split]]].
  - intro H. pose proof (clean_title_no_colon t) as Hc.
    rewrite Forall_forall in Hc. specialize (Hc _ H). discriminate Hc.
  - unfold clean_title, squeeze, Str.strip. apply strip_by_idem.
  - unfold clean_title. eapply single_spaced_blanks. apply squeeze_single_spaced.
  - intros l1 l2 x y H. eapply single_spaced_apart. rewrite <- H.
    unfold clean_title. apply squeeze_single_spaced.
  - unfold clean_title.
    etransitivity; [apply squeeze_length|].
    etransitivity; [apply remove_brackets_length|].
    etransitivity; [apply remove_edition_length|].
    apply before_colon_length.
Qed.

(** X12 at a title with runs of blanks: a blank of the cleaned title is followed by a letter *)
Lemma clean_title_normal_form_witness :
  Char.is_space "H"%char = false.
Proof.
  apply (proj1 (proj2 (proj2 (proj2
           (clean_title_normal_form "  The   Hobbit  (2nd printing): There and Back "))))
         (list_ascii_of_string "The") (list_ascii_of_string "obbit") " "%char "H"%char).
  - vm_compute. reflexivity.
  - reflexivity.
Defined.

(** * Titles without digits and brackets *)

Lemma run_Cat_nil (r1 r2 : Re.regex) (x : Re.pos) : Re.run r1 x = [] -> Re.run (Re.Cat r1 r2) x = [].
Proof. intro H. cbn [Re.run]. now rewrite H. Qed.

Lemma run_WordB_Cat (r : Re.regex) (x : Re.pos) :
  Re.run r x = [] -> Re.run (Re.Cat Re.WordB r) x = [].
Proof.
  intro H. cbn [Re.run].
  destruct (xorb (Re.word_before x) (Re.word_after x)); [|reflexivity].
  cbn [flat_map]. now rewrite H.
Qed.

Lemma run_Cls_nil (p : ascii -> bool) (prev : option ascii) (s : str) :
  Forall (fun c => p c = false) s -> Re.run (Re.Cls p) (prev, s) = [].
Proof.
  intro H. cbn [Re.run snd]. destruct H as [|c s Hc _]; [reflexivity|].
  now rewrite Hc.
Qed.

Lemma match_at_edition_none (prev : option ascii) (s : str) :
  Forall (fun c => Char.is_digit c = false) s -> Re.match_at edition_re (prev, s) = None.
Proof.
  intro H. unfold Re.match_at.
  replace (Re.run edition_re (prev, s)) with (@nil Re.pos); [reflexivity|].
  symmetry. unfold edition_re. apply run_WordB_Cat, run_Cat_nil.
  unfold Re.Plus. apply run_Cat_nil, run_Cls_nil, H.
Qed.

Lemma star_greedy_opener (p : ascii -> bool) (r : Re.regex) (s : str) :
  Forall (fun c => is_opener c = false) s ->
  forall prev, flat_map (Re.run (Re.Cat (Re.Cls is_opener) r)) (Re.star_greedy p prev s) = [].
Proof.
  induction 1 as [|c s Hc Hs IH]; intro prev.
  - cbn [Re.star_greedy flat_map]. rewrite run_Cat_nil; [reflexivity|].
    apply run_Cls_nil. constructor.
  - assert (H0 : Re.run (Re.Cat (Re.Cls is_opener) r) (prev, c :: s) = []).
    { apply run_Cat_nil, run_Cls_nil. now constructor. }
    cbn [Re.star_greedy]. destruct (p c).
    + rewrite flat_map_app, IH. cbn [flat_map app]. rewrite app_nil_r. exact H0.
    + cbn [flat_map]. rewrite app_nil_r. exact H0.
Qed.

Lemma match_at_bracket_none (prev : option ascii) (s : str) :
  Forall (fun c => is_opener c = false) s -> Re.match_at bracket_re (prev, s) = None.
Proof.
  intro H. unfold Re.match_at.
  replace (Re.run bracket_re (prev, s)) with (@nil Re.pos); [reflexivity|].
  symmetry. unfold bracket_re.
  change (Re.run (Re.Cat (Re.Star Char.is_space) ?r) (prev, s))
    with (flat_map (Re.run r) (Re.star_greedy Char.is_space prev s)).
  now apply star_greedy_opener.
Qed.

(** where the pattern matches nowhere, [re.sub] returns the subject *)
Lemma sub_aux_no_match (P : ascii -> Prop) (r : Re.regex) (repl : str) :
  (forall prev s, Forall P s -> Re.match_at r (prev, s) = None) ->
  forall s, Forall P s -> forall prev, Re.sub_aux r repl 0 prev s = s.
Proof.
  intros Hr s Hs. induction Hs as [|c s Hc Hs IH]; intro prev.
  - cbn [Re.sub_aux]. rewrite Hr; [reflexivity | constructor].
  - cbn [Re.sub_aux]. rewrite Hr; [|now constructor]. now rewrite IH.
Qed.

Lemma remove_edition_plain (s : str) :
  Forall (fun c => Char.is_digit c = false) s -> remove_edition s = s.
Proof.
  intro H. unfold remove_edition, Re.sub.
  apply (sub_aux_no_match (fun c => Char.is_digit c = false)); [|exact H].
  intros prev s'. apply match_at_edition_none.
Qed.

Lemma remove_brackets_plain (s : str) :
  Forall (fun c => is_opener c = false) s -> remove_brackets s = s.
Proof.
  intro H. unfold remove_brackets, Re.sub.
  apply (sub_aux_no_match (fun c => is_opener c = false)); [|exact H].
  intros prev s'. apply match_at_bracket_none.
Qed.

Lemma before_colon_Forall (Q : ascii -> Prop) (t : str) :
  Forall Q t -> Forall Q (before_colon t).
Proof. intro H. unfold before_colon, Str.split. apply split_colon_Forall; [constructor | exact H]. Qed.

Lemma clean_title_plain_eq (t : str) :
  Forall (fun c => Char.is_digit c = false) t ->
  Forall (fun c => is_opener c = false) t ->
  clean_title t = squeeze (before_colon t).
Proof.
  intros Hd Ho. unfold clean_title.
  rewrite (remove_edition_plain _ (before_colon_Forall _ _ Hd)).
  now rewrite (remove_brackets_plain _ (before_colon_Forall _ _ Ho)).
Qed.

(** X13 ([clean_title]): on a title without a digit and without an
    opening bracket the two patterns find nothing: cleaning cuts the title
    at its first colon and tidies the white space, and cleaning the result
    again changes nothing. *)
Theorem clean_title_plain (t : str) :
  Forall (fun c => Char.is_digit c = false) t ->
  Forall (fun c => is_opener c = false) t ->
  clean_title t = squeeze (before_colon t)
  /\ clean_title (clean_title t) = clean_title t.
Proof.
  intros Hd Ho. pose proof (clean_title_plain_eq t Hd Ho) as H.
  split; [exact H|].
  rewrite (clean_title_plain_eq (clean_title t)).
  - rewrite (before_colon_id _ (clean_title_no_colon t)).
    unfold clean_title. apply squeeze_idem.
  - rewrite H. apply squeeze_Forall; [reflexivity|]. now apply before_colon_Forall.
  - rewrite H. apply squeeze_Forall; [reflexivity|]. now apply before_colon_Forall.
Qed.

(** X13 at a title with a subtitle *)
Lemma clean_title_plain_witness :
  clean_title "Thinking,  Fast and Slow: A Memoir " = squeeze (before_colon "Thinking,  Fast and Slow: A Memoir ")
  /\ clean_title (clean_title "Thinking,  Fast and Slow: A Memoir ")
     = clean_title "Thinking,  Fast and Slow: A Memoir ".
Proof.
  apply (clean_title_plain "Thinking,  Fast and Slow: A Memoir ");
    repeat constructor.
Defined.

(** * Titles with nothing in common *)

Lemma indices_from_absent (c : ascii) (b : str) (j : nat) :
  ~ In c b -> Difflib.indices_from c j b = [].
Proof.
  revert j; induction b as [|x b IH]; intros j H; [reflexivity|].
  cbn [Difflib.indices_from]. destruct (Ascii.eqb x c) eqn:E.
  - apply Ascii.eqb_eq in E. exfalso. apply H. now left.
  - apply IH. intro Hin. apply H. now right.
Qed.

Lemma b2j_absent (b : str) (c : ascii) : ~ In c b -> Difflib.b2j b c = [].
Proof.
  intro H. unfold Difflib.b2j. rewrite (indices_from_absent c b 0 H).
  now destruct (Difflib.popular b c).
Qed.

Lemma at_In (a : str) (i : nat) : i < List.length a -> In (Difflib.at_ a i) a.
Proof. intro H. unfold Difflib.at_. now apply nth_In. Qed.

Lemma scan_rows_disjoint (a b : str) (blo bhi : nat) :
  (forall c, In c a -> ~ In c b) ->
  forall rows j2len best,
    Forall (fun i => i < List.length a) rows ->
    Difflib.scan_rows a b blo bhi rows j2len best = best.
Proof.
  intros Hd rows. induction rows as [|i rows IH]; intros j2len best Hr; [reflexivity|].
  cbn [Difflib.scan_rows]. inversion Hr as [|? ? Hi Hrows]; subst.
  rewrite (b2j_absent b _ (Hd _ (at_In a i Hi))). cbn [Difflib.scan_row].
  now apply IH.
Qed.

Lemma find_longest_match_disjoint (a b : str) :
  (forall c, In c a -> ~ In c b) ->
  Difflib.find_longest_match a b 0 (List.length a) 0 (List.length b) = (0, 0, 0).
Proof.
  intro Hd. unfold Difflib.find_longest_match.
  rewrite scan_rows_disjoint; [|exact Hd|].
  - cbv zeta. cbn [fst Difflib.extend_left].
    destruct (List.length a) as [|n] eqn:Ea; [reflexivity|].
    cbn [Difflib.extend_right]. cbn [Nat.add].
    destruct (0 <? List.length b) eqn:Eb.
    + apply Nat.ltb_lt in Eb.
      assert (Ha : In (Difflib.at_ a 0) a) by (apply at_In; lia).
      assert (Hb : In (Difflib.at_ b 0) b) by (apply at_In; lia).
      destruct (Ascii.eqb (Difflib.at_ a 0) (Difflib.at_ b 0)) eqn:E.
      * apply Ascii.eqb_eq in E. exfalso. apply (Hd _ Ha). now rewrite E.
      * now rewrite !andb_false_r.
    + now rewrite andb_false_r.
  - apply Forall_forall. intros i Hi. apply in_seq in Hi. lia.
Qed.

Lemma ratio_disjoint (a b : str) :
  (forall c, In c a -> ~ In c b) ->
  a <> [] \/ b <> [] ->
  (Difflib.ratio a b == 0)%Q.
Proof.
  intros Hd Hne. unfold Difflib.ratio, Difflib.matches.
  cbn [Difflib.matched]. rewrite (find_longest_match_disjoint a b Hd).
  cbn [Nat.eqb]. cbv iota.
  destruct (List.length a + List.length b) as [|t] eqn:E.
  - exfalso. destruct a, b; simpl in E; try lia. destruct Hne as [H | H]; now apply H.
  - reflexivity.
Qed.

(** X14 ([closest_match]): two titles that share no character once both
    are lowered score exactly 0, unless both are empty (which score 1). *)
Theorem closest_match_disjoint (real_title candidate_title : str) :
  (forall c, In c (Str.lower real_title) -> ~ In c (Str.lower candidate_title)) ->
  real_title <> [] \/ candidate_title <> [] ->
  (closest_match real_title candidate_title == 0)%Q
  /\ (closest_match [] [] == 1)%Q.
Proof.
  intros Hd Hne. split; [|reflexivity].
  unfold closest_match. apply ratio_disjoint; [exact Hd|].
  destruct Hne as [H | H]; [left | right]; intro E; apply H;
    unfold Str.lower in E; now apply map_eq_nil in E.
Qed.

(** X14 at two titles without a common letter *)
Lemma closest_match_disjoint_witness :
  (closest_match "DUNE" "Solaris" == 0)%Q /\ (closest_match [] [] == 1)%Q.
Proof.
  apply (closest_match_disjoint "DUNE" "Solaris").
  - intros c Hc Hin. vm_compute in Hc, Hin.
    repeat (destruct Hc as [<- | Hc];
            [repeat (destruct Hin as [Hin | Hin]; [discriminate Hin|]); exact Hin|]).
    exact Hc.
  - left. discriminate.
Defined.

(** * Parsing the result table *)

Lemma char_lower_idem (c : ascii) : Char.lower (Char.lower c) = Char.lower c.
Proof. destruct c as [[] [] [] [] [] [] [] []]; reflexivity. Qed.

Lemma str_lower_idem (s : str) : Str.lower (Str.lower s) = Str.lower s.
Proof.
  unfold Str.lower. rewrite map_map. apply map_ext. intro c. apply char_lower_idem.
Qed.

Lemma parse_row_lower (cells : list td) (r : result) :
  parse_row cells = Some r -> Str.lower (file_format r) = file_format r.
Proof.
  unfold parse_row. destruct (List.length cells <? 9); [discriminate|].
  intro H. injection H as <-. cbn [file_format]. apply str_lower_idem.
Qed.

Lemma parse_rows_lower (rows : list (list td)) :
  Forall (fun r => Str.lower (file_format r) = file_format r) (parse_rows rows).
Proof.
  induction rows as [|cells rows IH]; [constructor|].
  cbn [parse_rows]. destruct (parse_row cells) as [r|] eqn:E; [|exact IH].
  constructor; [now apply (parse_row_lower cells) | exact IH].
Qed.

(** X4 (the row loop of [hunt_for_book], lines 112-159): a row with fewer
    than nine cells is passed over and every other row gives one result, in
    the order of the table; the format of every result is in lower case; a
    page without the table gives no result. *)
Theorem parse_rows_spec (rows rows' : list (list td)) :
  parse_rows (rows ++ rows') = parse_rows rows ++ parse_rows rows'
  /\ List.length (parse_rows rows)
     = List.length (filter (fun cells => 9 <=? List.length cells) rows)
  /\ Forall (fun r => Str.lower (file_format r) = file_format r) (parse_rows rows)
  /\ (forall anchors, all_results {| doc_table := None; doc_anchors := anchors |} = []).
Proof.
  split; [|split; [|split]].
  - induction rows as [|cells rows IH]; [reflexivity|].
    cbn [parse_rows app]. destruct (parse_row cells); [|exact IH].
    cbn [app]. now rewrite IH.
  - induction rows as [|cells rows IH]; [reflexivity|].
    cbn [parse_rows filter]. unfold parse_row.
    rewrite Nat.leb_antisym. destruct (List.length cells <? 9); cbn [negb].
    + exact IH.
    + cbn [List.length]. now rewrite IH.
  - apply parse_rows_lower.
  - reflexivity.
Qed.

(** * The selection never comes out empty *)

Lemma startswith_refl (s : str) : Str.startswith s s = true.
Proof. induction s as [|c s IH]; [reflexivity|]. simpl. now rewrite Ascii.eqb_refl. Qed.

Lemma contains_refl (s : str) : Str.contains s s = true.
Proof. destruct s; simpl; [reflexivity|]. now rewrite Ascii.eqb_refl, startswith_refl. Qed.

Lemma found_format_member (preferred_formats : list str) (r : result) :
  Str.lower (file_format r) = file_format r ->
  Str.mem (file_format r) preferred_formats = true ->
  found_format preferred_formats r = true.
Proof.
  intros Hl Hm. unfold Str.mem in Hm. apply existsb_exists in Hm.
  destruct Hm as [p [Hp He]]. apply str_eqb_eq in He.
  unfold found_format. apply existsb_exists. exists p. split; [exact Hp|].
  rewrite <- He, Hl. apply contains_refl.
Qed.

Lemma format_selector_keeps_one (results : list result) (preferred_formats : list str) :
  Forall (fun r => Str.lower (file_format r) = file_format r) results ->
  results <> [] -> format_selector results preferred_formats <> [].
Proof.
  intros Hl Hne. unfold format_selector.
  destruct (have_desired_format results preferred_formats) eqn:E.
  - unfold have_desired_format in E. apply existsb_exists in E.
    destruct E as [r [Hin Hm]].
    assert (Hf : In r (filter (fun r => negb (skipped true preferred_formats r)) results)).
    { apply filter_In. split; [exact Hin|]. unfold skipped.
      rewrite Forall_forall in Hl.
      now rewrite (found_format_member preferred_formats r (Hl r Hin) Hm). }
    intro H. rewrite H in Hf. exact Hf.
  - unfold skipped. cbn [andb negb].
    rewrite forallb_filter_id; [exact Hne|].
    apply forallb_forall. reflexivity.
Qed.

(** X5 (lines 161-196 of [hunt_for_book]): the rows read from a search
    page, ranked and then selected by format, are rows of the page, and the
    selection is empty only when the page gave no row at all: a preferred
    format that sets the flag of the first scan is found again by the test of
    the row loop, because the parser lowers every format. *)
Theorem format_selector_nonempty (real_title : str) (rows : list (list td))
        (preferred_formats : list str) :
  let selected := format_selector (order_results_by_closest_match real_title (parse_rows rows))
                                  preferred_formats in
  (selected = [] <-> parse_rows rows = [])
  /\ (forall r, In r selected -> In r (parse_rows rows)).
Proof.
  cbv zeta. unfold order_results_by_closest_match.
  set (key := fun x : result => rank_key real_title (title x)).
  pose proof (sorted_perm result key (parse_rows rows)) as Hp.
  split; [split|].
  - intro H. destruct (parse_rows rows) as [|r l] eqn:E; [reflexivity|].
    exfalso. revert H. apply format_selector_keeps_one.
    + apply Forall_forall. intros x Hx.
      apply (Permutation_in _ (Permutation_sym Hp)) in Hx.
      pose proof (parse_rows_lower rows) as Hl. rewrite E in Hl.
      rewrite Forall_forall in Hl. now apply Hl.
    + intro H. rewrite H in Hp. apply Permutation_sym, Permutation_nil in Hp. discriminate Hp.
  - intros ->. reflexivity.
  - intros r Hr. unfold format_selector in Hr. apply filter_In in Hr.
    destruct Hr as [Hr _]. now apply (Permutation_in _ (Permutation_sym Hp)).
Qed.

(** * Runs of a sequence *)

Lemma bind_tr {A B} (m : M A) (k : A -> M B) (w : World) (s : state) :
  tr (bind m k w s)
  = tr (m w s) ++ match out (m w s) with
                  | Ret a => tr (k a w (st (m w s)))
                  | _ => []
                  end.
Proof.
  unfold bind. destruct (out (m w s)); cbn [tr]; [reflexivity| |]; now rewrite app_nil_r.
Qed.

Lemma bind_out {A B} (m : M A) (k : A -> M B) (w : World) (s : state) :
  out (bind m k w s)
  = match out (m w s) with
    | Ret a => out (k a w (st (m w s)))
    | Raise e => Raise e
    | Diverge => Diverge
    end.
Proof. unfold bind. now destruct (out (m w s)). Qed.

Lemma bind_st {A B} (m : M A) (k : A -> M B) (w : World) (s : state) :
  st (bind m k w s)
  = match out (m w s) with
    | Ret a => st (k a w (st (m w s)))
    | _ => st (m w s)
    end.
Proof. unfold bind. now destruct (out (m w s)). Qed.

Lemma bind_out_ret {A B} (m : M A) (k : A -> M B) (w : World) (s : state) (b : B) :
  out (bind m k w s) = Ret b ->
  exists a, out (m w s) = Ret a
            /\ out (k a w (st (m w s))) = Ret b
            /\ tr (bind m k w s) = tr (m w s) ++ tr (k a w (st (m w s)))
            /\ st (bind m k w s) = st (k a w (st (m w s))).
Proof.
  unfold bind. destruct (out (m w s)) as [a| |]; cbn [out tr st]; [|discriminate..].
  intro H. exists a. repeat split; assumption.
Qed.

Lemma requests_in_app (l1 l2 : list event) :
  requests_in (l1 ++ l2) = requests_in l1 ++ requests_in l2.
Proof. unfold requests_in. apply flat_map_app. Qed.

(** * The requests of [extract_download_link] *)

Lemma skipn_nth_error {A} (l : list A) (n : nat) (x : A) :
  nth_error l n = Some x -> skipn n l = x :: skipn (S n) l.
Proof.
  revert n; induction l as [|y l IH]; intros [|n] H; try discriminate.
  - injection H as ->. reflexivity.
  - cbn [nth_error] in H. cbn [skipn]. now apply IH.
Qed.

Lemma save_debug_quiet (name : str) (w : World) (s : state) :
  requests_in (tr (save_debug name w s)) = []
  /\ (out (save_debug name w s) = Ret tt \/ out (save_debug name w s) = Raise OSError).
Proof.
  unfold save_debug, bind.
  change (makedirs debug_dir w s)
    with (if can_mkdir w (clock s) debug_dir
          then Run (Ret tt) {| clock := clock s; dirs := add_path debug_dir (dirs s);
                               files := files s |} [Mkdir debug_dir]
          else Run (Raise OSError) s []).
  destruct (can_mkdir w (clock s) debug_dir); cbn [out st tr]; [|auto].
  unfold dump_page. destruct (opens _ w _); cbn [out st tr]; auto.
Qed.

Lemma extract_from_requests (fuel : nat) (links : list anchor) :
  forall (cursor : nat) (w : World) (s : state),
    let r := extract_from fuel links cursor w s in
    exists k,
      requests_in (tr r) = firstn k (mirror_requests (skipn cursor links))
      /\ (out r = Ret None -> requests_in (tr r) = mirror_requests (skipn cursor links)).
Proof.
  induction fuel as [|fuel IH]; intros cursor w s; cbv zeta.
  - exists 0. split; [reflexivity | discriminate].
  - cbn [extract_from]. destruct links as [|l0 ls] eqn:El.
    + exists 0. rewrite skipn_nil. split; reflexivity.
    + rewrite <- El in *. clear El l0 ls.
      destruct (List.length links <=? cursor) eqn:E.
      * apply Nat.leb_le in E. exists 0. rewrite (skipn_all2 links E).
        split; reflexivity.
      * apply Nat.leb_gt in E.
        destruct (nth_error links cursor) as [l|] eqn:En;
          [|apply nth_error_None in En; lia].
        rewrite (skipn_nth_error _ _ _ En).
        specialize (IH (cursor + 1)). rewrite Nat.add_1_r in *.
        destruct l as [[[|c h]|] t];
          try (destruct (IH w s) as [k [H1 H2]]; exists k; split; assumption).
        unfold mirror_requests. cbn [flat_map a_href app].
        fold (mirror_requests (skipn (S cursor) links)).
        set (h1 := c :: h).
        rewrite !bind_tr, !bind_out, !requests_in_app.
        assert (Hg : requests_in (tr (requests_get (mirror_request h1) w s))
                     = [mirror_request h1]).
        { unfold requests_get. now destruct (reply w (clock s) _). }
        rewrite Hg. cbn [app].
        destruct (out (requests_get (mirror_request h1) w s)) as [resp| |];
          try (exists 1; split; [reflexivity | discriminate]).
        set (s1 := st (requests_get (mirror_request h1) w s)).
        rewrite ?bind_tr, ?bind_out, ?requests_in_app.
        unfold raise_for_status.
        destruct (failed resp); cbn [raise ret out st tr app];
          [exists 1; split; [reflexivity | discriminate]|].
        rewrite ?bind_tr, ?bind_out, ?requests_in_app.
        destruct (save_debug_quiet "mirror_response.html" w s1) as [Hq [Ho | Ho]];
          rewrite Hq, Ho; cbn [app];
          [|exists 1; split; [reflexivity | discriminate]].
        destruct (find_get (soup resp)) as [g|].
        -- destruct (a_href g); cbn [tr out raise ret];
             exists 1; (split; [reflexivity | discriminate]).
        -- destruct (IH w (st (save_debug "mirror_response.html" w s1))) as [k [H1 H2]].
           exists (S k). cbn [firstn]. split.
           ++ f_equal. exact H1.
           ++ intro Hn. f_equal. now apply H2.
Qed.

(** X6 ([extract_download_link]): a call from position [cursor] ends,
    and the requests it sends are the first few of the requests for the
    mirror links from that position on, in the order of the links and each
    at most once; when it finds nothing it has asked every one of them.  It
    never asks a link before [cursor]. *)
Theorem extract_download_link_requests (mirrors_cell : td) (cursor : nat)
        (w : World) (s : state) :
  let r := extract_download_link mirrors_cell cursor w s in
  let ahead := mirror_requests (skipn cursor (links_of mirrors_cell)) in
  out r <> Diverge
  /\ (exists k, requests_in (tr r) = firstn k ahead)
  /\ (out r = Ret None -> requests_in (tr r) = ahead)
  /\ List.length (requests_in (tr r)) <= List.length (links_of mirrors_cell) - cursor.
Proof.
  cbv zeta. split; [apply extract_download_link_returns|].
  unfold extract_download_link.
  destruct (extract_from_requests (S (List.length (links_of mirrors_cell) - cursor))
              (links_of mirrors_cell) cursor w s) as [k [H1 H2]].
  split; [now exists k|]. split; [exact H2|].
  rewrite H1, length_firstn.
  etransitivity; [apply Nat.le_min_r|].
  unfold mirror_requests.
  generalize (length_skipn cursor (links_of mirrors_cell)).
  generalize (skipn cursor (links_of mirrors_cell)). intros l <-.
  induction l as [|x l IHl]; [apply Nat.le_refl|].
  cbn [flat_map]. rewrite length_app. cbn [List.length].
  destruct (a_href x) as [[|c h]|]; cbn [List.length]; lia.
Qed.

(** X6 at three mirrors whose pages have no GET link, from the second on *)
Lemma extract_download_link_requests_witness :
  requests_in (tr (extract_download_link Sample.three_mirrors 1 Sample.no_results initial))
  = mirror_requests (skipn 1 (links_of Sample.three_mirrors)).
Proof.
  apply (proj1 (proj2 (proj2
           (extract_download_link_requests Sample.three_mirrors 1 Sample.no_results initial)))).
  vm_compute. reflexivity.
Defined.

(** * Properties of every event of a run *)

Lemma traces_bind {A B} (P : event -> Prop) (m : M A) (k : A -> M B) :
  traces P m -> (forall a, traces P (k a)) -> traces P (bind m k).
Proof.
  intros Hm Hk w s. rewrite bind_tr. apply Forall_app. split; [apply Hm|].
  destruct (out (m w s)); [apply Hk | constructor | constructor].
Qed.

Lemma traces_try {A} (P : event -> Prop) (m : M A) : traces P m -> traces P (try m).
Proof. intros Hm w s. unfold try. specialize (Hm w s). now destruct (out (m w s)). Qed.

Lemma traces_ret {A} (P : event -> Prop) (a : A) : traces P (ret a).
Proof. intros w s. constructor. Qed.

Lemma traces_raise {A} (P : event -> Prop) (e : exn) : traces P (@raise A e).
Proof. intros w s. constructor. Qed.

Lemma traces_diverge {A} (P : event -> Prop) : traces P (@diverge A).
Proof. intros w s. constructor. Qed.

Lemma traces_raise_for_status (P : event -> Prop) (resp : response) :
  traces P (raise_for_status resp).
Proof. intros w s. unfold raise_for_status. destruct (failed resp); constructor. Qed.

Lemma traces_the_time (P : event -> Prop) : traces P the_time.
Proof. intros w s. constructor. Qed.

Lemma traces_basename_of (P : event -> Prop) (u : str) : traces P (basename_of u).
Proof. intros w s. constructor. Qed.

Lemma traces_makedirs (P : event -> Prop) (p : str) : P (Mkdir p) -> traces P (makedirs p).
Proof.
  intros H w s. unfold makedirs. destruct p as [|c p]; [constructor|].
  destruct (can_mkdir w (clock s) (c :: p)); repeat constructor. exact H.
Qed.

Lemma traces_dump_page (P : event -> Prop) (p : str) : P (Dump p) -> traces P (dump_page p).
Proof.
  intros H w s. unfold dump_page. destruct (opens p w s); repeat constructor. exact H.
Qed.


Lemma traces_requests_get (P : event -> Prop) (r : request) :
  P (Get r) -> traces P (requests_get r).
Proof.
  intros H w s. unfold requests_get.
  destruct (reply w (clock s) r); repeat constructor; exact H.
Qed.

Lemma traces_save_body (P : event -> Prop) (resp : response) (p : str) :
  (names_directory p = false -> P (Save resp p)) -> traces P (save_body resp p).
Proof.
  intros H w s. unfold save_body, opens.
  destruct (names_directory p); cbn [negb andb]; [constructor|].
  destruct (can_open w (clock s) p); repeat constructor. now apply H.
Qed.

Lemma traces_save_debug (P : event -> Prop) (name : str) :
  P (Mkdir debug_dir) -> P (Dump (path_join debug_dir name)) -> traces P (save_debug name).
Proof.
  intros H1 H2. unfold save_debug. apply traces_bind; [now apply traces_makedirs|].
  intros _. now apply traces_dump_page.
Qed.

Create HintDb traces.

#[export] Hint Resolve traces_ret traces_raise traces_diverge traces_raise_for_status
  traces_the_time traces_basename_of traces_try : traces.

(** what the events of the pipeline have to satisfy for [P] to hold of
    every run *)
Section Pipeline.

Variable P : event -> Prop.
Variable dir : str.

Hypothesis P_mkdir : P (Mkdir dir).
Hypothesis P_debug : P (Mkdir debug_dir).
Hypothesis P_dump_search : P (Dump (path_join debug_dir "libgen_response.html")).
Hypothesis P_dump_mirror : P (Dump (path_join debug_dir "mirror_response.html")).
Hypothesis P_sleep : P Sleep.
Hypothesis P_mirror : forall h, P (Get (mirror_request h)).
Hypothesis P_download : forall u, P (Get (download_request u)).
Hypothesis P_save :
  forall resp url_name stamp,
    failed resp = false ->
    names_directory
      (path_join dir (resolve_filename (content_disposition resp) url_name stamp)) = false ->
    P (Save resp (path_join dir (resolve_filename (content_disposition resp) url_name stamp))).

Lemma traces_extract_from (fuel : nat) (links : list anchor) :
  forall cursor, traces P (extract_from fuel links cursor).
Proof.
  induction fuel as [|fuel IH]; intro cursor; cbn [extract_from]; [auto with traces|].
  destruct links as [|l0 ls]; [auto with traces|].
  destruct (List.length (l0 :: ls) <=? cursor); [auto with traces|].
  destruct (nth_error (l0 :: ls) cursor) as [[[[|c h]|] t]|]; try apply IH.
  apply traces_bind; [apply traces_requests_get, P_mirror|]. intro resp.
  apply traces_bind; [auto with traces|]. intros _.
  apply traces_bind; [now apply traces_save_debug|]. intros _.
  destruct (find_get (soup resp)) as [g|]; [|apply IH].
  destruct (a_href g); auto with traces.
Qed.

Lemma traces_download_book (url : str) : traces P (download_book url dir).
Proof.
  unfold download_book.
  apply traces_bind; [now apply traces_makedirs|]. intros _.
  apply traces_bind; [apply traces_requests_get, P_download|]. intro resp.
  unfold raise_for_status. destruct (failed resp) eqn:Ef.
  - intros w s. constructor.
  - apply traces_bind; [auto with traces|]. intros _.
    apply traces_bind; [auto with traces|]. intro url_name.
    apply traces_bind; [auto with traces|]. intro stamp.
    apply traces_bind; [|auto with traces].
    apply traces_save_body. intro Hn. now apply P_save.
Qed.

Lemma traces_mirror_walk (fuel : nat) (r : result) : traces P (mirror_walk fuel dir r).
Proof.
  induction fuel as [|fuel IH]; cbn [mirror_walk]; [auto with traces|].
  apply traces_bind; [apply traces_extract_from|]. intros [link|]; [|auto with traces].
  apply traces_bind; [apply traces_try, traces_download_book|].
  intros [path|e]; [auto with traces | exact IH].
Qed.

Lemma traces_for_rows (fuel : nat) (have : bool) (prefs : list str) (rows : list result) :
  traces P (for_rows fuel dir have prefs rows).
Proof.
  induction rows as [|r rows IH]; cbn [for_rows]; [auto with traces|].
  destruct (skipped have prefs r); [exact IH|].
  apply traces_bind; [apply traces_mirror_walk|]. intros [a|]; [auto with traces | exact IH].
Qed.

End Pipeline.

(** * The footprint of a call *)

Lemma rfind_none (c : ascii) (s : str) :
  ~ In c s -> forall i, rfind c i s = None.
Proof.
  induction s as [|x s IH]; intros H i; [reflexivity|].
  cbn [rfind]. rewrite IH by (intro Hin; apply H; now right).
  destruct (Ascii.eqb c x) eqn:E; [|reflexivity].
  apply Ascii.eqb_eq in E. exfalso. apply H. now left.
Qed.

Lemma rfind_last (c : ascii) (l name : str) :
  ~ In c name -> forall i, rfind c i (l ++ c :: name) = Some (i + List.length l).
Proof.
  intro H. induction l as [|x l IH]; intro i.
  - cbn [app rfind List.length]. rewrite (rfind_none c name H), Ascii.eqb_refl.
    now rewrite Nat.add_0_r.
  - cbn [app rfind List.length]. rewrite IH. f_equal. lia.
Qed.

Lemma last_component_after (l name : str) :
  ~ In "/"%char name -> last_component (l ++ "/"%char :: name) = name.
Proof.
  intro H. unfold last_component. rewrite (rfind_last _ l name H). cbn [Nat.add].
  replace (l ++ "/"%char :: name) with ((l ++ ["/"%char]) ++ name)
    by now rewrite <- app_assoc.
  rewrite skipn_app, skipn_all2 by (rewrite length_app; cbn [List.length]; lia).
  rewrite length_app. cbn [List.length app].
  replace (S (List.length l) - (List.length l + 1)) with 0 by lia. reflexivity.
Qed.

(** a file name without a slash is the last component of its path *)
Lemma last_component_join (dir name : str) :
  ~ In "/"%char name -> last_component (path_join dir name) = name.
Proof.
  intro H. unfold path_join. destruct (rev dir) as [|c d] eqn:E.
  - unfold last_component. now rewrite (rfind_none _ name H).
  - apply (f_equal (@rev ascii)) in E. rewrite rev_involutive in E. cbn [rev] in E.
    destruct (Ascii.eqb "/" c) eqn:Ec.
    + apply Ascii.eqb_eq in Ec. subst c. rewrite E, <- app_assoc. cbn [app].
      now apply last_component_after.
    + change (dir ++ "/" ++ name) with (dir ++ "/"%char :: name).
      now apply last_component_after.
Qed.

(** a path that [open] takes for a file does not end in [.] or [..] *)
Lemma names_directory_join (dir name : str) :
  ~ In "/"%char name -> names_directory (path_join dir name) = false ->
  name <> "." /\ name <> "..".
Proof.
  intros H Hn. unfold names_directory in Hn. cbv zeta in Hn.
  rewrite (last_component_join dir name H) in Hn.
  apply orb_false_iff in Hn. destruct Hn as [Hn H2].
  apply orb_false_iff in Hn. destruct Hn as [_ H1].
  split; intro E; rewrite E in *; [rewrite str_eqb_refl in H1 | rewrite str_eqb_refl in H2];
    discriminate.
Qed.

Lemma resolve_filename_no_slash (content_disposition : option str) (url_name stamp : str) :
  ~ In "/"%char (resolve_filename content_disposition url_name stamp).
Proof.
  intro Hin. unfold resolve_filename in Hin. cbv zeta in Hin.
  match type of Hin with
  | In _ (sanitize_filename ?f) => pose proof (sanitize_filename_Forall f) as H
  end.
  rewrite Forall_forall in H. specialize (H _ Hin). discriminate H.
Qed.



(** * Searches *)

Lemma searches_in_app (l1 l2 : list event) :
  searches_in (l1 ++ l2) = searches_in l1 ++ searches_in l2.
Proof. unfold searches_in. now rewrite requests_in_app, filter_app. Qed.

Lemma no_search_nil (l : list event) : Forall no_search l -> searches_in l = [].
Proof.
  induction 1 as [|e l He Hl IH]; [reflexivity|].
  change (e :: l) with ([e] ++ l). rewrite searches_in_app, IH, app_nil_r.
  destruct e; try reflexivity. cbn in He. unfold searches_in. cbn. now rewrite He.
Qed.

Lemma no_search_for_rows (fuel : nat) (dir : str) (have : bool) (prefs : list str)
      (rows : list result) :
  traces no_search (for_rows fuel dir have prefs rows).
Proof. apply traces_for_rows; cbn; auto. Qed.

Lemma hunt_for_book_searches (fuel : nat) (q : str) (prefs : list str) (dir t : str)
      (w : World) (s : state) :
  searches_in (tr (hunt_for_book fuel q prefs dir t w s)) = [search_request q].
Proof.
  unfold hunt_for_book. rewrite bind_tr, searches_in_app.
  assert (H1 : searches_in (tr (requests_get (search_request q) w s)) = [search_request q]).
  { unfold requests_get. now destruct (reply w (clock s) (search_request q)). }
  rewrite H1. rewrite no_search_nil; [reflexivity|].
  destruct (out (requests_get (search_request q) w s)) as [resp| |]; [|constructor..].
  apply (traces_bind no_search); [auto with traces|]. intros _.
  apply traces_bind; [apply traces_save_debug; exact I|]. intros _.
  apply no_search_for_rows.
Qed.

Lemma try_queries_searches (fuel : nat) (prefs : list str) (dir t : str) (queries : list str) :
  forall (w : World) (s : state),
    let r := try_queries fuel prefs dir t queries w s in
    exists k, searches_in (tr r) = map search_request (firstn k queries)
              /\ (out r = Ret None -> k = List.length queries)
              /\ k <= List.length queries.
Proof.
  induction queries as [|q queries IH]; intros w s; cbv zeta.
  - exists 0. repeat split; auto.
  - cbn [try_queries]. rewrite bind_tr, bind_out, searches_in_app, hunt_for_book_searches.
    destruct (out (hunt_for_book fuel q prefs dir t w s)) as [[a|]| |]; cbn [out ret tr];
      try (exists 1; cbn [List.length]; repeat split; [discriminate | lia]).
    rewrite bind_tr, bind_out, searches_in_app. cbn [time_sleep tr out st app].
    match goal with |- context [try_queries fuel prefs dir t queries w ?s1] =>
      destruct (IH w s1) as [k [H1 [H2 H3]]] end.
    exists (S k). cbn [firstn map List.length]. rewrite <- H1.
    repeat split; [|lia]. intro Ho. f_equal. now apply H2.
Qed.

(** X11 (the query loop of [search_and_download_book], lines 52-55): the
    searches a call sends are the searches for the first few of its queries,
    in the order of the list and one for each, so never more than five; a
    call that returns nothing has searched for every query. *)
Theorem search_and_download_book_searches (fuel : nat) (title author isbn download_dir : str)
        (preferred_formats : list str) (w : World) (s : state) :
  let r := search_and_download_book fuel title author isbn download_dir preferred_formats w s in
  let queries := search_queries title author isbn in
  exists k,
    searches_in (tr r) = map search_request (firstn k queries)
    /\ (out r = Ret None -> k = List.length queries)
    /\ k <= List.length queries <= 5.
Proof.
  cbv zeta. unfold search_and_download_book.
  assert (H5 : List.length (search_queries title author isbn) <= 5).
  { unfold search_queries. rewrite !length_app.
    destruct isbn, title, author; cbn [List.length]; lia. }
  rewrite bind_tr, bind_out.
  destruct (makedirs_cases download_dir w s) as [-> | ->]; cbn [out tr st app].
  - destruct (try_queries_searches fuel preferred_formats download_dir title
                (search_queries title author isbn) w (after_mkdir download_dir s))
      as [k [H1 [H2 H3]]].
    exists k. split; [|split; [exact H2|split; [exact H3 | exact H5]]].
    rewrite <- H1. reflexivity.
  - exists 0. split; [reflexivity|]. split; [discriminate|]. split; [lia | exact H5].
Qed.

(** * A call that returns a book *)

Lemma download_book_ret (book_url download_dir path : str) (w : World) (s : state) :
  out (download_book book_url download_dir w s) = Ret path ->
  exists resp,
    tr (download_book book_url download_dir w s)
    = [Mkdir download_dir; Get (download_request book_url); Save resp path]
    /\ breaks resp = false /\ failed resp = false
    /\ In path (files (st (download_book book_url download_dir w s)))
    /\ exists name, path = path_join download_dir name
                    /\ ~ In "/"%char name /\ name <> "." /\ name <> "..".
Proof.
  unfold download_book.
  destruct (makedirs_cases download_dir w s) as [E | E];
    [|rewrite (bind_raise_run _ _ _ _ _ _ _ E); discriminate].
  rewrite (bind_ret_run _ _ _ _ _ _ _ E). cbn [out st tr].
  unfold bind, requests_get, raise_for_status. cbn [after_mkdir out st tr clock].
  destruct (reply w (clock s) (download_request book_url)) as [resp|]; cbn [out st tr];
    [|discriminate].
  destruct (failed resp) eqn:Ef; cbn [raise ret out st tr]; [discriminate|].
  cbn [basename_of the_time out st tr]. unfold save_body.
  match goal with |- context [opens ?p w ?s1] => destruct (opens p w s1) eqn:Eo end;
    cbn [out st tr]; [|discriminate].
  destruct (breaks resp) eqn:Eb; cbn [out st tr]; [discriminate|].
  intro H. injection H as <-. exists resp.
  split; [reflexivity|]. split; [exact Eb|]. split; [exact Ef|].
  split; [cbn [wrote files]; apply add_path_in|].
  eexists. split; [reflexivity|].
  split; [apply resolve_filename_no_slash|].
  apply (names_directory_join download_dir); [apply resolve_filename_no_slash|].
  unfold opens in Eo. apply andb_true_iff in Eo. destruct Eo as [Eo _].
  now apply negb_true_iff in Eo.
Qed.

Lemma extract_from_absolute (fuel : nat) (links : list anchor) :
  forall (cursor : nat) (w : World) (s : state) (u : str),
    out (extract_from fuel links cursor w s) = Ret (Some u) ->
    Str.startswith "http" u = true.
Proof.
  induction fuel as [|fuel IH]; intros cursor w s u; cbn [extract_from]; [discriminate|].
  destruct links as [|l0 ls] eqn:El; [discriminate|]. rewrite <- El in *. clear El l0 ls.
  destruct (List.length links <=? cursor); [discriminate|].
  destruct (nth_error links cursor) as [[[[|c h]|] t]|]; try apply IH.
  rewrite !bind_out.
  destruct (out (requests_get (mirror_request (c :: h)) w s)) as [resp| |]; try discriminate.
  repeat (cbv beta; rewrite ?bind_out;
          match goal with
          | |- match out ?x with Ret _ => _ | Raise _ => _ | Diverge => _ end = _ -> _ =>
              destruct (out x); try discriminate
          end).
  destruct (find_get (soup resp)) as [g|]; [|apply IH].
  destruct (a_href g) as [d|]; cbn [raise ret out]; [|discriminate].
  intro H. injection H as <-. apply make_absolute_url_http.
Qed.

Lemma delivered_bind {A} (dir : str) (m : M A) (k : A -> M (option acquisition)) :
  (forall x, (exists w s, out (m w s) = Ret x) -> delivered dir (k x)) ->
  delivered dir (bind m k).
Proof.
  intros Hk w s a H. apply bind_out_ret in H.
  destruct H as [x [Hm [Ho [Ht Hs]]]].
  destruct (Hk x (ex_intro _ w (ex_intro _ s Hm)) w _ a Ho) as [t [resp [H1 [H2 [H3 [H4 H5]]]]]].
  exists (tr (m w s) ++ t), resp. rewrite Ht, H1, Hs, app_assoc. now repeat split.
Qed.

Lemma delivered_ret_none (dir : str) : delivered dir (ret None).
Proof. intros w s a H. discriminate H. Qed.

Lemma delivered_diverge (dir : str) : delivered dir diverge.
Proof. intros w s a H. discriminate H. Qed.

(** the loops hand on what was found, or go on *)
Lemma delivered_found (dir : str) (m k : M (option acquisition)) :
  delivered dir m -> delivered dir k ->
  delivered dir (found <- m ;; match found with Some a => ret (Some a) | None => k end).
Proof.
  intros Hm Hk w s a H. pose proof H as H0. apply bind_out_ret in H.
  destruct H as [x [Hx [Ho [Ht Hs]]]]. destruct x as [a'|].
  - cbn [ret out] in Ho. injection Ho as ->.
    destruct (Hm w s a Hx) as [t [resp [H1 [H2 [H3 [H4 H5]]]]]].
    exists t, resp. rewrite Ht, Hs. cbn [ret tr st]. rewrite app_nil_r. now repeat split.
  - destruct (Hk w _ a Ho) as [t [resp [H1 [H2 [H3 [H4 H5]]]]]].
    exists (tr (m w s) ++ t), resp. rewrite Ht, H1, Hs, app_assoc. now repeat split.
Qed.

Lemma delivered_mirror_walk (fuel : nat) (dir : str) (r : result) :
  delivered dir (mirror_walk fuel dir r).
Proof.
  induction fuel as [|fuel IH]; cbn [mirror_walk]; [apply delivered_diverge|].
  apply delivered_bind. intros [link|] [w0 [s0 Hl]]; [|apply delivered_ret_none].
  apply extract_from_absolute in Hl.
  intros w s a H. pose proof H as H0. apply bind_out_ret in H.
  destruct H as [x [Hx [Ho [Ht Hs]]]]. destruct x as [path|e].
  - cbn [ret out] in Ho. injection Ho as <-. cbn [download_url download_result].
    unfold try in Hx. 
    destruct (out (download_book link dir w s)) as [p| |] eqn:Ed; cbn [out] in Hx;
      try discriminate.
    injection Hx as ->.
    destruct (download_book_ret link dir path w s Ed) as [resp [H1 [H2 [H3 [H4 H5]]]]].
    exists [], resp. rewrite Ht, Hs. cbn [ret tr st]. rewrite app_nil_r.
    unfold try. rewrite Ed. cbn [tr st]. now repeat split.
  - destruct (IH w _ a Ho) as [t [resp [H1 [H2 [H3 [H4 H5]]]]]].
    exists (tr (try (download_book link dir) w s) ++ t), resp.
    rewrite Ht, H1, Hs, app_assoc. now repeat split.
Qed.

Lemma delivered_for_rows (fuel : nat) (dir : str) (have : bool) (prefs : list str)
      (rows : list result) :
  delivered dir (for_rows fuel dir have prefs rows).
Proof.
  induction rows as [|r rows IH]; cbn [for_rows]; [apply delivered_ret_none|].
  destruct (skipped have prefs r); [exact IH|].
  apply delivered_found; [apply delivered_mirror_walk | exact IH].
Qed.

Lemma delivered_hunt_for_book (fuel : nat) (q : str) (prefs : list str) (dir t : str) :
  delivered dir (hunt_for_book fuel q prefs dir t).
Proof.
  unfold hunt_for_book.
  apply delivered_bind. intros resp _.
  apply delivered_bind. intros _ _.
  apply delivered_bind. intros _ _.
  apply delivered_for_rows.
Qed.

Lemma delivered_try_queries (fuel : nat) (prefs : list str) (dir t : str) (queries : list str) :
  delivered dir (try_queries fuel prefs dir t queries).
Proof.
  induction queries as [|q queries IH]; cbn [try_queries]; [apply delivered_ret_none|].
  apply delivered_found; [apply delivered_hunt_for_book|].
  apply delivered_bind. intros _ _. exact IH.
Qed.

(** X10 ([search_and_download_book], [hunt_for_book] lines 198-219,
    [download_book]): when a call returns a book, the last thing it did was
    to make the download directory, request the returned [download_url] as a
    stream and store the answer under the returned [download_result]; that
    answer was no error and its stream did not break, and the file is there
    afterwards.  The [download_result] is the download directory joined with
    a name without a slash that is neither [.] nor [..]; the [download_url]
    starts with [http], which is all [make_absolute_url] asks of an absolute
    address. *)
Theorem search_and_download_book_delivers (fuel : nat) (title author isbn download_dir : str)
        (preferred_formats : list str) (w : World) (s : state) (a : acquisition) :
  let r := search_and_download_book fuel title author isbn download_dir preferred_formats w s in
  out r = Ret (Some a) ->
  exists t resp,
    tr r = t ++ [Mkdir download_dir; Get (download_request (download_url a));
                 Save resp (download_result a)]
    /\ breaks resp = false /\ failed resp = false
    /\ In (download_result a) (files (st r))
    /\ Str.startswith "http" (download_url a) = true
    /\ exists name, download_result a = path_join download_dir name
                    /\ ~ In "/"%char name /\ name <> "." /\ name <> "..".
Proof.
  cbv zeta. revert w s a.
  change (delivered download_dir
    (search_and_download_book fuel title author isbn download_dir preferred_formats)).
  unfold search_and_download_book.
  apply delivered_bind. intros _ _. apply delivered_try_queries.
Qed.

(** X10 in a world where the file is served *)
Lemma search_and_download_book_delivers_witness :
  let r := search_and_download_book 3 "Dune" "Frank Herbert" [] "downloads" ["epub" : str]
             Demo.served initial in
  exists t resp,
    tr r = t ++ [Mkdir "downloads"; Get (download_request (download_url Demo.dune_file));
                 Save resp (download_result Demo.dune_file)]
    /\ breaks resp = false /\ failed resp = false
    /\ In (download_result Demo.dune_file) (files (st r))
    /\ Str.startswith "http" (download_url Demo.dune_file) = true
    /\ exists name, download_result Demo.dune_file = path_join "downloads" name
                    /\ ~ In "/"%char name /\ name <> "." /\ name <> "..".
Proof.
  apply (search_and_download_book_delivers 3 "Dune" "Frank Herbert" [] "downloads"
           ["epub" : str] Demo.served initial Demo.dune_file).
  vm_compute. reflexivity.
Defined.

(** * The ledger *)

Lemma is_linebreak_cr (c : ascii) : is_linebreak c = false -> (Char.code c =? 13) = false.
Proof.
  unfold is_linebreak, Char.between. intro H.
  destruct (Char.code c =? 13) eqn:E; [|reflexivity].
  apply Nat.eqb_eq in E. rewrite E in H. discriminate H.
Qed.

(** a line without a line break, closed by a line feed, is read as it is *)
Lemma splitlines_aux_line (t : str) :
  Forall (fun c => is_linebreak c = false) t ->
  forall cur rest,
    splitlines_aux cur (t ++ ascii_of_nat 10 :: rest) = (rev cur ++ t) :: splitlines_aux [] rest.
Proof.
  induction 1 as [|c t Hc Ht IH]; intros cur rest.
  - cbn [app splitlines_aux]. rewrite app_nil_r. reflexivity.
  - cbn [app splitlines_aux]. rewrite (is_linebreak_cr c Hc), Hc.
    rewrite IH. cbn [rev]. now rewrite <- app_assoc.
Qed.

(** what follows a line feed is read on its own *)
Lemma splitlines_aux_cut (n : nat) :
  forall x cur y,
    List.length x <= n ->
    splitlines_aux cur (x ++ ascii_of_nat 10 :: y)
    = splitlines_aux cur (x ++ [ascii_of_nat 10]) ++ splitlines_aux [] y.
Proof.
  induction n as [|n IH]; intros x cur y Hn.
  - destruct x; [reflexivity | simpl in Hn; lia].
  - destruct x as [|c x]; [reflexivity|].
    cbn [List.length] in Hn. cbn [app splitlines_aux].
    destruct (Char.code c =? 13).
    + destruct x as [|d x].
      * reflexivity.
      * cbn [app]. cbn [List.length] in Hn.
        destruct (Char.code d =? 10).
        -- cbn [app]. f_equal. apply IH. lia.
        -- cbn [app]. f_equal.
           apply (IH (d :: x)). cbn [List.length]. lia.
    + destruct (is_linebreak c).
      * cbn [app]. f_equal. apply IH. lia.
      * apply IH. lia.
Qed.

Lemma splitlines_app (text rest : str) :
  ends_line text -> splitlines (text ++ rest) = splitlines text ++ splitlines rest.
Proof.
  intros [-> | [x ->]]; [reflexivity|].
  unfold splitlines. rewrite <- app_assoc. cbn [app].
  apply (splitlines_aux_cut (List.length x)). apply Nat.le_refl.
Qed.

Lemma splitlines_ledger_lines (titles : list str) :
  Forall (Forall (fun c => is_linebreak c = false)) titles ->
  splitlines (ledger_lines titles) = titles.
Proof.
  induction 1 as [|t titles Ht Hts IH]; [reflexivity|].
  unfold ledger_lines. cbn [map List.concat]. rewrite <- app_assoc. cbn [app].
  unfold splitlines. rewrite (splitlines_aux_line t Ht). cbn [rev app].
  f_equal. exact IH.
Qed.

Lemma ends_line_app (text : str) (titles : list str) :
  ends_line text -> ends_line (text ++ ledger_lines titles).
Proof.
  intro H. induction titles as [|t titles IH] using rev_ind.
  - unfold ledger_lines. cbn. now rewrite app_nil_r.
  - right. unfold ledger_lines. rewrite map_app, concat_app. cbn [map List.concat].
    rewrite app_nil_r. exists (text ++ List.concat (map (fun t0 => t0 ++ [ascii_of_nat 10]) titles) ++ t).
    now rewrite <- !app_assoc.
Qed.

(** X15 ([save_already_downloaded], [get_already_downloaded]): on a
    ledger that is missing, empty or ends with a line feed, saving a title
    that holds no line-break character adds exactly that title to what is
    read back: the titles recorded before stay, in their order, and the new
    one comes last.  Saving never loses the text that was there. *)
Theorem ledger_round_trip (f : ledger) (title_ : str) :
  ends_line (ledger_text f) ->
  Forall (fun c => is_linebreak c = false) title_ ->
  let f' := save_already_downloaded (inr title_) f in
  fst (get_already_downloaded f') = fst (get_already_downloaded f) ++ [title_]
  /\ ends_line (ledger_text f')
  /\ (forall b, book_title b = title_ -> save_already_downloaded (inl b) f = f')
  /\ snd (get_already_downloaded f') = f'.
Proof.
  intros He Ht. cbv zeta. unfold save_already_downloaded.
  cbn [get_already_downloaded fst snd ledger_text].
  split; [|split; [|split]].
  - rewrite (splitlines_app _ _ He).
    change (title_ ++ [ascii_of_nat 10]) with (title_ ++ ascii_of_nat 10 :: []).
    unfold splitlines at 2. rewrite (splitlines_aux_line title_ Ht). cbn [rev app splitlines_aux].
    destruct f as [text|]; reflexivity.
  - right. exists (ledger_text f ++ title_). now rewrite <- app_assoc.
  - intros b ->. reflexivity.
  - reflexivity.
Qed.

(** X15 at a ledger with one title *)
Lemma ledger_round_trip_witness :
  fst (get_already_downloaded
         (save_already_downloaded (inr (list_ascii_of_string "The Guest List"))
            (save_already_downloaded (inr (list_ascii_of_string "Atomic Habits")) None)))
  = [list_ascii_of_string "Atomic Habits"; list_ascii_of_string "The Guest List"].
Proof.
  apply (proj1 (ledger_round_trip
                  (save_already_downloaded (inr (list_ascii_of_string "Atomic Habits")) None)
                  (list_ascii_of_string "The Guest List")
                  (or_intror (ex_intro _ (list_ascii_of_string "Atomic Habits") eq_refl))
                  ltac:(repeat constructor))).
Defined.

(** * The loop over the wish list *)

Lemma try_out {A} (m : M A) (w : World) (s : state) :
  out (try m w s)
  = match out (m w s) with
    | Ret a => Ret (inl a)
    | Raise e => Ret (inr e)
    | Diverge => Diverge
    end.
Proof. unfold try. now destruct (out (m w s)). Qed.

Lemma try_tr {A} (m : M A) (w : World) (s : state) : tr (try m w s) = tr (m w s).
Proof. unfold try. now destruct (out (m w s)). Qed.

Lemma try_st {A} (m : M A) (w : World) (s : state) : st (try m w s) = st (m w s).
Proof. unfold try. now destruct (out (m w s)). Qed.

(** what one pass of the loop does to the counters and the ledger *)
Lemma process_book_step (fuel : nat) (send : str -> M bool) (already : list str)
      (b : book) (t : tally) (w : World) (s : state) :
  let r := process_book fuel send already b t w s in
  (forall e, out r <> Raise e)
  /\ (forall t', out r = Ret t' ->
        if Str.mem (book_title b) already then t' = t
        else t' = one_failed t
             \/ t' = with_ledger (save_already_downloaded (inr (book_title b))
                                                          (already_downloaded_file t))
                                 (one_successful t)
             \/ (t' = one_failed (one_successful t) /\ ~ ledger_writable w)).
Proof.
  cbv zeta. unfold process_book.
  destruct (Str.mem (book_title b) already).
  - split; [discriminate|]. intros t' H. now injection H.
  - rewrite bind_out, try_out.
    set (body := bind _ _).
    destruct (out (body w s)) as [t1| |] eqn:Eb.
    + cbn [ret out]. split; [discriminate|]. intros t' H. injection H as <-.
      subst body. rewrite bind_out in Eb.
      destruct (out (search_and_download_book fuel (book_title b) (book_author b)
                       (book_isbn b) "downloads" ["epub" : str] w s)) as [[a|]| |];
        try discriminate Eb.
      * rewrite bind_out in Eb.
        destruct (out (send (download_result a) w _)) as [[|]| |]; try discriminate Eb.
        -- cbv zeta in Eb. rewrite bind_out, try_out in Eb.
           unfold append_already_downloaded, opens in Eb.
           change (names_directory ALREADY_DOWNLOADED_FILE) with false in Eb.
           cbn [negb andb] in Eb.
           match type of Eb with
           | context [can_open w ?n ALREADY_DOWNLOADED_FILE] =>
               destruct (can_open w n ALREADY_DOWNLOADED_FILE) eqn:Eo
           end; cbn [ret out] in Eb; injection Eb as <-.
           ++ right. left. reflexivity.
           ++ right. right. split; [reflexivity|]. intro Hw. rewrite Hw in Eo. discriminate Eo.
        -- cbn [ret out] in Eb. injection Eb as <-. now left.
      * cbn [ret out] in Eb. injection Eb as <-. now left.
    + cbn [ret out]. split; [discriminate|]. intros t' H. injection H as <-. now left.
    + split; discriminate.
Qed.

Lemma process_books_step (fuel : nat) (send : str -> M bool) (already : list str)
      (books : list book) :
  forall (t : tally) (w : World) (s : state),
    let r := process_books fuel send already books t w s in
    (forall e, out r <> Raise e)
    /\ (forall t', out r = Ret t' ->
          exists sent unsaved : list str,
            successful_books t' + failed_books t'
            = successful_books t + failed_books t
              + List.length (new_books already books) + List.length unsaved
            /\ successful_books t'
               = successful_books t + List.length sent + List.length unsaved
            /\ ledger_text (already_downloaded_file t')
               = ledger_text (already_downloaded_file t) ++ ledger_lines sent
            /\ incl sent (map book_title (new_books already books))
            /\ incl unsaved (map book_title (new_books already books))
            /\ (ledger_writable w -> unsaved = [])).
Proof.
  induction books as [|b books IH]; intros t w s; cbv zeta.
  - cbn [process_books ret out new_books filter List.length]. split; [discriminate|].
    intros t' H. injection H as <-. exists [], [].
    unfold ledger_lines. cbn. rewrite app_nil_r.
    repeat split; try lia; intros x [].
  - cbn [process_books]. rewrite bind_out.
    destruct (process_book_step fuel send already b t w s) as [Hr Hs].
    destruct (out (process_book fuel send already b t w s)) as [t1|e|] eqn:E1.
    + destruct (IH t1 w (st (process_book fuel send already b t w s))) as [IHr IHs].
      split; [exact IHr|]. intros t' H'.
      destruct (IHs t' H') as [sent [unsaved [Hc [Hn [Hl [Hi [Hu Hw]]]]]]].
      specialize (Hs t1 eq_refl). unfold new_books in *. cbn [filter].
      destruct (Str.mem (book_title b) already); cbn [negb].
      * subst t1. exists sent, unsaved. now repeat split.
      * destruct Hs as [-> | [-> | [-> Hnw]]].
        -- cbn [one_failed successful_books failed_books already_downloaded_file] in *.
           exists sent, unsaved. cbn [List.length map].
           repeat split; try assumption; try lia;
             intros x Hx; right; auto.
        -- cbn [with_ledger one_successful successful_books failed_books
                already_downloaded_file save_already_downloaded ledger_text] in *.
           exists (book_title b :: sent), unsaved. cbn [List.length map].
           repeat split; try assumption; try lia.
           ++ rewrite Hl. unfold ledger_lines. cbn [map List.concat].
              now rewrite <- !app_assoc.
           ++ intros x [<- | Hx]; [now left | right; now apply Hi].
           ++ intros x Hx; right; auto.
        -- cbn [one_failed one_successful successful_books failed_books
                already_downloaded_file] in *.
           exists sent, (book_title b :: unsaved). cbn [List.length map].
           repeat split; try assumption; try lia.
           ++ intros x Hx; right; auto.
           ++ intros x [<- | Hx]; [now left | right; now apply Hu].
           ++ intro H. now contradiction Hnw.
    + exfalso. exact (Hr e eq_refl).
    + split; discriminate.
Qed.

Lemma process_books_returns (fuel : nat) (send : str -> M bool) (already : list str)
      (books : list book) (w : World) :
  (forall b s', In b books ->
     out (search_and_download_book fuel (book_title b) (book_author b) (book_isbn b)
            "downloads" ["epub" : str] w s') <> Diverge) ->
  (forall p s', out (send p w s') <> Diverge) ->
  forall (t : tally) (s : state),
    out (process_books fuel send already books t w s) <> Diverge.
Proof.
  intros Hd Hsend. induction books as [|b books IH]; intros t s; [discriminate|].
  cbn [process_books]. rewrite bind_out.
  assert (Hb : out (process_book fuel send already b t w s) <> Diverge).
  { unfold process_book. destruct (Str.mem (book_title b) already); [discriminate|].
    rewrite bind_out, try_out, bind_out.
    pose proof (Hd b s (or_introl eq_refl)) as H1.
    destruct (out (search_and_download_book fuel (book_title b) (book_author b)
                     (book_isbn b) "downloads" ["epub" : str] w s)) as [[a|]| |];
      try discriminate; [|now contradiction H1].
    rewrite bind_out.
    pose proof (Hsend (download_result a)
                  (st (search_and_download_book fuel (book_title b) (book_author b)
                         (book_isbn b) "downloads" ["epub" : str] w s))) as H2.
    destruct (out (send (download_result a) w _)) as [[|]| |];
      try discriminate; [|now contradiction H2].
    cbv zeta. rewrite bind_out, try_out. unfold append_already_downloaded.
    match goal with |- context [opens ?p w ?s1] => destruct (opens p w s1) end;
      discriminate. }
  destruct (out (process_book fuel send already b t w s)) as [t1|e|];
    [|discriminate|now contradiction Hb].
  apply IH. intros b' s' Hin. apply Hd. now right.
Qed.



(** X17 (the loop of [main], lines 53-89): no error of a search, of a
    download or of the upload leaves the loop: a book that fails is counted
    and the loop goes on.  So the loop comes to its end and returns the
    counters whenever every search comes to an end and the upload does. *)
Theorem process_books_never_raises (fuel : nat) (send_epub_to_kindle : str -> M bool)
        (already_downloaded : list str) (books : list book)
        (t : tally) (w : World) (s : state) :
  let r := process_books fuel send_epub_to_kindle already_downloaded books t w s in
  (forall e, out r <> Raise e)
  /\ ((forall b s', In b books ->
         out (search_and_download_book fuel (book_title b) (book_author b) (book_isbn b)
                "downloads" ["epub" : str] w s') <> Diverge) ->
      (forall p s', out (send_epub_to_kindle p w s') <> Diverge) ->
      exists t', out r = Ret t').
Proof.
  cbv zeta.
  pose proof (proj1 (process_books_step fuel send_epub_to_kindle already_downloaded books t w s))
    as Hr.
  split; [exact Hr|]. intros Hd Hsend.
  pose proof (process_books_returns fuel send_epub_to_kindle already_downloaded books w
                Hd Hsend t s) as Hn.
  destruct (out (process_books fuel send_epub_to_kindle already_downloaded books t w s))
    as [t'|e|]; [now exists t' | exfalso; exact (Hr e eq_refl) | now contradiction Hn].
Qed.

(** X17 in a world where every search is answered with status 404 *)
Lemma process_books_never_raises_witness :
  exists t', out (process_books 3 Demo.sends [] [Demo.dune] Demo.start Sample.not_found initial)
             = Ret t'.
Proof.
  apply (proj2 (process_books_never_raises 3 Demo.sends [] [Demo.dune] Demo.start
                  Sample.not_found initial)).
  - intros b s' [<- | []]. vm_compute. discriminate.
  - intros p s'. vm_compute. discriminate.
Defined.

(** X18 (the test [book['title'] not in already_downloaded]): a wish
    list whose books are all on record costs nothing: no request is sent, no
    file is touched, the counters and the ledger stay as they are. *)
Theorem process_books_all_known (fuel : nat) (send_epub_to_kindle : str -> M bool)
        (already_downloaded : list str) (books : list book)
        (t : tally) (w : World) (s : state) :
  Forall (fun b => Str.mem (book_title b) already_downloaded = true) books ->
  process_books fuel send_epub_to_kindle already_downloaded books t w s = Run (Ret t) s [].
Proof.
  induction 1 as [|b books Hb Hbs IH]; [reflexivity|].
  cbn [process_books]. unfold bind, process_book. rewrite Hb. cbn [ret out st tr].
  rewrite IH. reflexivity.
Qed.

(** X18 at a wish list whose only book is on record *)
Lemma process_books_all_known_witness :
  process_books 3 Demo.sends [list_ascii_of_string "Dune"] [Demo.dune] Demo.start
                Demo.served initial
  = Run (Ret Demo.start) initial [].
Proof.
  apply (process_books_all_known 3 Demo.sends [list_ascii_of_string "Dune"] [Demo.dune]
           Demo.start Demo.served initial).
  repeat constructor.
Defined.

(** * [manual_search] *)

(** X19 ([manual_search]): the call never raises; it answers [True] only
    when the search returned a book and the upload of that very file answered
    [True]; it comes to an end whenever the search and the upload do. *)
Theorem manual_search_spec (fuel : nat) (send_epub_to_kindle : str -> M bool)
        (search_query : str) (w : World) (s : state) :
  let r := manual_search fuel send_epub_to_kindle search_query w s in
  let found := search_and_download_book fuel search_query [] [] "downloads" ["epub" : str] w s in
  (forall e, out r <> Raise e)
  /\ (out r = Ret true ->
      exists a, out found = Ret (Some a)
                /\ out (send_epub_to_kindle (download_result a) w (st found)) = Ret true)
  /\ (out found <> Diverge ->
      (forall p s', out (send_epub_to_kindle p w s') <> Diverge) ->
      out r <> Diverge).
Proof.
  cbv zeta. unfold manual_search. rewrite bind_out, try_out, bind_out.
  destruct (out (search_and_download_book fuel search_query [] [] "downloads"
                   ["epub" : str] w s)) as [[a|]| |].
  - rewrite bind_out.
    pose proof (fun H : forall p s', out (send_epub_to_kindle p w s') <> Diverge =>
                  H (download_result a)
                    (st (search_and_download_book fuel search_query [] [] "downloads"
                           ["epub" : str] w s))) as Hs.
    destruct (out (send_epub_to_kindle (download_result a) w _)) as [[|]| |] eqn:Es;
      cbn [ret out].
    + repeat split; try discriminate. intros _. exists a. split; [reflexivity | exact Es].
    + repeat split; discriminate.
    + repeat split; discriminate.
    + repeat split; try discriminate. intros _ H. now apply Hs.
  - cbn [ret out]. repeat split; discriminate.
  - cbn [ret out]. repeat split; discriminate.
  - repeat split; try discriminate. intros H _. now contradiction H.
Qed.

(** X19 in a world where the file is served *)
Lemma manual_search_spec_witness :
  exists a,
    out (search_and_download_book 3 "Dune" [] [] "downloads" ["epub" : str] Demo.served initial)
    = Ret (Some a)
    /\ out (Demo.sends (download_result a) Demo.served
              (st (search_and_download_book 3 "Dune" [] [] "downloads" ["epub" : str]
                     Demo.served initial)))
       = Ret true.
Proof.
  apply (proj1 (proj2 (manual_search_spec 3 Demo.sends "Dune" Demo.served initial))).
  vm_compute. reflexivity.
Defined.
